(** * MCP conformance action: the structural differ, the snapshot comparators,
      compare-ref resolution and the configuration / batch runner.

    Shallow embedding of [src/diff.ts], [src/git.ts] and [src/runner.ts],
    and of the report and its summary in [src/reporter.ts].

    Modelling conventions.
    - A JavaScript string is a Rocq [string]; one character of the model is one
      code unit ([length], [slice] and [===] are taken on that sequence), so
      the strings of the model are those whose code units are below 256.
    - A JavaScript number is an integer ([Z]) that a double holds exactly and
      prints in decimal notation: [JSON.parse] never yields [NaN], and on
      such integers [===] is equality and [String] is decimal notation.
    - A JavaScript [Map] is an insertion-ordered association list without
      duplicate keys ([Map_set] overwrites in place, otherwise appends).
    - An object is the list of its own enumerable properties in enumeration
      order; names inherited from a prototype are outside the model, except
      that an assignment to [__proto__] makes no property ([Object_set]).
    - Effects (external processes, probes, the clock, the file system) are
      answered by an oracle that sees the whole history of events so far; the
      code threads that history through a small state-and-exception monad. *)

From Stdlib Require Import List String Ascii Bool Arith ZArith Lia Permutation.
From Stdlib Require Import DecimalString.
Import ListNotations.
Open Scope string_scope.
Open Scope list_scope.

(* ================================================================== *)
(** ** JavaScript values and built-ins used by the sources *)
(* ================================================================== *)

Module Js.

(** A template literal: the concatenation of its pieces. *)
Definition tpl (parts : list string) : string := String.concat "" parts.

(** [String(n)] for an array index. *)
Definition String_of_index (n : nat) : string :=
  NilZero.string_of_uint (Nat.to_uint n).

(** [String(n)] for an integer. *)
Definition String_of_number (n : Z) : string :=
  NilZero.string_of_int (Z.to_int n).

Definition is_some {A} (o : option A) : bool :=
  match o with Some _ => true | None => false end.

(** Truthiness of a string: every string but the empty one. *)
Definition truthy (s : string) : bool :=
  match s with EmptyString => false | String _ _ => true end.

(** Truthiness of [string | undefined]. *)
Definition truthy_opt (s : option string) : bool :=
  match s with Some s => truthy s | None => false end.

(** [a || b] on strings. *)
Definition or_else (a b : string) : string := if truthy a then a else b.

#[warnings="-register-all"]
Inductive JValue : Type :=
| JUndefined
| JNull
| JBool (b : bool)
| JNum (n : Z)
| JStr (s : string)
| JArr (items : list JValue)
| JObj (fields : list (string * JValue)).

Inductive JsType : Type := TUndefined | TObject | TBoolean | TNumber | TString.

Definition typeof (v : JValue) : JsType :=
  match v with
  | JUndefined => TUndefined
  | JNull | JArr _ | JObj _ => TObject
  | JBool _ => TBoolean
  | JNum _ => TNumber
  | JStr _ => TString
  end.

Definition JsType_eqb (a b : JsType) : bool :=
  match a, b with
  | TUndefined, TUndefined | TObject, TObject | TBoolean, TBoolean
  | TNumber, TNumber | TString, TString => true
  | _, _ => false
  end.

(** [v === null || v === undefined] *)
Definition nullish (v : JValue) : bool :=
  match v with JUndefined | JNull => true | _ => false end.

Definition isArray (v : JValue) : bool :=
  match v with JArr _ => true | _ => false end.

(** [a === b] on primitives.  Two objects or arrays are compared by
    reference in JavaScript; values obtained from two separate parses are
    never the same reference, so the model answers [false] there. *)
Definition strict_eq (a b : JValue) : bool :=
  match a, b with
  | JUndefined, JUndefined => true
  | JNull, JNull => true
  | JBool x, JBool y => Bool.eqb x y
  | JNum x, JNum y => Z.eqb x y
  | JStr x, JStr y => String.eqb x y
  | _, _ => false
  end.

(** Nesting depth, the measure on which the differ recurses. *)
Fixpoint depth (v : JValue) : nat :=
  match v with
  | JArr items => S (list_max (map depth items))
  | JObj fields => S (list_max (map (fun kv => depth (snd kv)) fields))
  | _ => 0
  end.

(** *** Property access *)

(** Own property lookup in a list of fields. *)
Fixpoint prop (fields : list (string * JValue)) (key : string) : option JValue :=
  match fields with
  | [] => None
  | (k, v) :: rest => if String.eqb k key then Some v else prop rest key
  end.

(** The index named by a property key of an array of [n] elements. *)
Definition index_of_key (n : nat) (key : string) : option nat :=
  find (fun i => String.eqb (String_of_index i) key) (seq 0 n).

(** [Object.keys(v)] for an object or an array. *)
Definition Object_keys (v : JValue) : list string :=
  match v with
  | JObj fields => map fst fields
  | JArr items => map String_of_index (seq 0 (List.length items))
  | _ => []
  end.

(** [key in v] restricted to own properties ([length] is an own property of
    every array). *)
Definition has_in (key : string) (v : JValue) : bool :=
  match v with
  | JObj fields => is_some (prop fields key)
  | JArr items =>
      is_some (index_of_key (List.length items) key) || String.eqb key "length"
  | _ => false
  end.

(** [v[key]] *)
Definition get (v : JValue) (key : string) : JValue :=
  match v with
  | JObj fields => match prop fields key with Some x => x | None => JUndefined end
  | JArr items =>
      match index_of_key (List.length items) key with
      | Some i => nth i items JUndefined
      | None =>
          if String.eqb key "length" then JNum (Z.of_nat (List.length items))
          else JUndefined
      end
  | _ => JUndefined
  end.

(** *** [new Set([...])]: the distinct members in order of first occurrence *)

Fixpoint Set_of_aux (seen xs : list string) : list string :=
  match xs with
  | [] => []
  | x :: rest =>
      if existsb (String.eqb x) seen then Set_of_aux seen rest
      else x :: Set_of_aux (x :: seen) rest
  end.

Definition Set_of (xs : list string) : list string := Set_of_aux [] xs.

(** *** [Map<string, V>] *)

Definition JsMap (V : Type) : Type := list (string * V).

Fixpoint Map_set {V} (m : JsMap V) (key : string) (v : V) : JsMap V :=
  match m with
  | [] => [(key, v)]
  | (k, old) :: rest =>
      if String.eqb k key then (k, v) :: rest
      else (k, old) :: Map_set rest key v
  end.

Fixpoint Map_get {V} (m : JsMap V) (key : string) : option V :=
  match m with
  | [] => None
  | (k, v) :: rest => if String.eqb k key then Some v else Map_get rest key
  end.

Definition Map_has {V} (m : JsMap V) (key : string) : bool :=
  is_some (Map_get m key).

Definition Map_keys {V} (m : JsMap V) : list string := map fst m.

(** [obj[key] = value] on a plain object, for a value that is a string: the
    name [__proto__] is the accessor of [Object.prototype], which ignores a
    string, so that no property is made. *)
Definition Object_set {V} (obj : JsMap V) (key : string) (value : V) : JsMap V :=
  if String.eqb key "__proto__" then obj else Map_set obj key value.

Definition Map_size {V} (m : JsMap V) : nat := List.length m.

(** *** String built-ins *)

Definition nl : string := String (ascii_of_nat 10) EmptyString.

(** White space as [trim] and the regular expression class [\s] see it, on
    the characters of the model: tab to carriage return (9 to 13), the space
    (32) and the no-break space (160). *)
Definition is_ws (c : ascii) : bool :=
  let n := nat_of_ascii c in
  (Nat.leb 9 n && Nat.leb n 13) || Nat.eqb n 32 || Nat.eqb n 160.

Fixpoint trimStart (s : string) : string :=
  match s with
  | EmptyString => EmptyString
  | String c rest => if is_ws c then trimStart rest else s
  end.

Fixpoint trimEnd (s : string) : string :=
  match s with
  | EmptyString => EmptyString
  | String c rest =>
      let rest' := trimEnd rest in
      if is_ws c && negb (truthy rest') then EmptyString else String c rest'
  end.

(** [s.trim()] *)
Definition trim (s : string) : string := trimEnd (trimStart s).

(** [s.split(sep)] for a separator of one character. *)
Fixpoint split_char (sep : ascii) (s : string) : list string :=
  match s with
  | EmptyString => [EmptyString]
  | String c rest =>
      if Ascii.eqb c sep then EmptyString :: split_char sep rest
      else match split_char sep rest with
           | x :: xs => String c x :: xs
           | [] => [String c EmptyString]
           end
  end.

(** [s.split("\n")] *)
Definition split_lines (s : string) : list string :=
  split_char (ascii_of_nat 10) s.

(** [s.split(/\s+/)]; [skipping] holds inside a run of white space. *)
Fixpoint split_ws_from (skipping : bool) (s : string) : list string :=
  match s with
  | EmptyString => [EmptyString]
  | String c rest =>
      if is_ws c then
        if skipping then split_ws_from true rest
        else EmptyString :: split_ws_from true rest
      else match split_ws_from false rest with
           | x :: xs => String c x :: xs
           | [] => [String c EmptyString]
           end
  end.

Definition split_ws (s : string) : list string := split_ws_from false s.

(** [s.indexOf(c)] for one character; [None] stands for [-1]. *)
Fixpoint indexOf_char (c : ascii) (s : string) : option nat :=
  match s with
  | EmptyString => None
  | String d rest =>
      if Ascii.eqb d c then Some 0
      else option_map S (indexOf_char c rest)
  end.

(** [s.substring(i)] *)
Definition substring_from (i : nat) (s : string) : string :=
  substring i (String.length s - i) s.

(** [s.startsWith(p)] *)
Definition startsWith (s p : string) : bool := String.prefix p s.

(** [s.replace(pat, rep)] for a string pattern: the first occurrence only. *)
Definition replace_first (s pat rep : string) : string :=
  match String.index 0 pat s with
  | Some i =>
      tpl [substring 0 i s; rep; substring_from (i + String.length pat) s]
  | None => s
  end.

(** [xs.indexOf(x)] on an array of strings; [None] stands for [-1]. *)
Fixpoint Array_indexOf (xs : list string) (x : string) : option nat :=
  match xs with
  | [] => None
  | y :: rest =>
      if String.eqb y x then Some 0 else option_map S (Array_indexOf rest x)
  end.

(** [a === b] on [string | undefined]. *)
Definition opt_string_eqb (a b : option string) : bool :=
  match a, b with
  | Some x, Some y => String.eqb x y
  | None, None => true
  | _, _ => false
  end.

(** [{...a, ...b}] on string-valued records. *)
Definition spread {V} (a b : JsMap V) : JsMap V :=
  fold_left (fun m kv => Map_set m (fst kv) (snd kv)) b a.

(** *** [JSON.stringify] without indentation *)

Definition hex_digit (n : nat) : ascii :=
  nth n ["0"; "1"; "2"; "3"; "4"; "5"; "6"; "7"; "8"; "9";
         "a"; "b"; "c"; "d"; "e"; "f"]%char "0"%char.

Definition dquote : string := String (ascii_of_nat 34) EmptyString.

Definition escape_char (c : ascii) : string :=
  let n := nat_of_ascii c in
  if Nat.eqb n 34 then "\" ++ dquote
  else if Nat.eqb n 92 then "\\"
  else if Nat.eqb n 8 then "\b"
  else if Nat.eqb n 9 then "\t"
  else if Nat.eqb n 10 then "\n"
  else if Nat.eqb n 12 then "\f"
  else if Nat.eqb n 13 then "\r"
  else if Nat.ltb n 32 then
    "\u00" ++ String (hex_digit (n / 16)) (String (hex_digit (n mod 16)) "")
  else String c "".

Fixpoint escape (s : string) : string :=
  match s with
  | EmptyString => ""
  | String c rest => escape_char c ++ escape rest
  end.

(** [JSON.stringify(s)] for a string [s]. *)
Definition quote (s : string) : string := tpl [dquote; escape s; dquote].

(** [JSON.stringify(v)]; [None] stands for the result [undefined]. *)
Fixpoint JSON_stringify (v : JValue) : option string :=
  match v with
  | JUndefined => None
  | JNull => Some "null"
  | JBool b => Some (if b then "true" else "false")
  | JNum n => Some (String_of_number n)
  | JStr s => Some (quote s)
  | JArr items =>
      Some (tpl ["[";
                 String.concat ","
                   (map (fun x => match JSON_stringify x with
                                  | Some s => s
                                  | None => "null"
                                  end) items);
                 "]"])
  | JObj fields =>
      Some (tpl ["{";
                 String.concat ","
                   (flat_map (fun kv => match JSON_stringify (snd kv) with
                                        | Some s => [tpl [quote (fst kv); ":"; s]]
                                        | None => []
                                        end) fields);
                 "}"])
  end.

End Js.

(* ================================================================== *)
(** ** [src/diff.ts]: the structural differ *)
(* ================================================================== *)

Module Diff.
Import Js.

(** [formatValue]: the length-bounded rendering of a value. *)
Definition formatValue (value : JValue) : string :=
  match value with
  | JNull => "null"
  | JUndefined => "undefined"
  | JStr s =>
      if Nat.ltb 100 (String.length s)
      then quote (tpl [substring 0 100 s; "..."])
      else quote s
  | JArr _ | JObj _ =>
      let json := match JSON_stringify value with Some j => j | None => "" end in
      if Nat.ltb 200 (String.length json)
      then tpl [substring 0 200 json; "..."]
      else json
  | JBool b => if b then "true" else "false"
  | JNum n => String_of_number n
  end.

(** [getItemKey]: the identity key of an array member. *)
Definition getItemKey (item : JValue) (index : nat) : string :=
  match item with
  | JObj obj =>
      match prop obj "name" with
      | Some (JStr name) => name
      | _ =>
      match prop obj "uri" with
      | Some (JStr uri) => uri
      | _ =>
      match prop obj "uriTemplate" with
      | Some (JStr uriTemplate) => uriTemplate
      | _ =>
      match prop obj "method" with
      | Some (JStr method) => method
      | _ => tpl ["#"; String_of_index index]
      end end end end
  | _ => tpl ["#"; String_of_index index]
  end.

(** The two [forEach] loops of [compareArrays]: every member is stored under
    its key together with its index; a later member overwrites an earlier one
    that has the same key. *)
Fixpoint collectItems (items : list JValue) (index : nat)
    (acc : JsMap (JValue * nat)) : JsMap (JValue * nat) :=
  match items with
  | [] => acc
  | item :: rest =>
      collectItems rest (S index) (Map_set acc (getItemKey item index) (item, index))
  end.

Definition itemsOf (items : list JValue) : JsMap (JValue * nat) :=
  collectItems items 0 [].

Section Differ.
(** The recursive call to [findJsonDifferences]. *)
Variable recur : JValue -> JValue -> string -> list string.

(** [compareArrays] *)
Definition compareArrays_with (base target : list JValue) (path : string)
    : list string :=
  let baseItems := itemsOf base in
  let targetItems := itemsOf target in
  (* Find removed items *)
  let removed :=
    flat_map (fun entry =>
                let key := fst entry in
                let item := fst (snd entry) in
                if negb (Map_has targetItems key)
                then [tpl ["- "; path; "["; key; "]: "; formatValue item]]
                else []) baseItems in
  (* Find added items *)
  let added :=
    flat_map (fun entry =>
                let key := fst entry in
                let item := fst (snd entry) in
                if negb (Map_has baseItems key)
                then [tpl ["+ "; path; "["; key; "]: "; formatValue item]]
                else []) targetItems in
  (* Find modified items *)
  let modified :=
    flat_map (fun entry =>
                let key := fst entry in
                let baseItem := fst (snd entry) in
                match Map_get targetItems key with
                | Some targetEntry =>
                    recur baseItem (fst targetEntry) (tpl [path; "["; key; "]"])
                | None => []
                end) baseItems in
  removed ++ added ++ modified.

(** The body of [findJsonDifferences]. *)
Definition findJsonDifferences_body (base target : JValue) (path : string)
    : list string :=
  if nullish base then
    if negb (nullish target)
    then [tpl ["+ "; or_else path "root"; ": "; formatValue target]]
    else []
  else if nullish target then
    [tpl ["- "; or_else path "root"; ": "; formatValue base]]
  else if negb (JsType_eqb (typeof base) (typeof target)) then
    [tpl ["- "; or_else path "root"; ": "; formatValue base];
     tpl ["+ "; or_else path "root"; ": "; formatValue target]]
  else
    match base, target with
    | JArr b, JArr t => compareArrays_with b t path
    | _, _ =>
        if JsType_eqb (typeof base) TObject && JsType_eqb (typeof target) TObject
        then
          let allKeys := Set_of (Object_keys base ++ Object_keys target) in
          flat_map (fun key =>
                      let newPath :=
                        if truthy path then tpl [path; "."; key] else key in
                      if negb (has_in key base) then
                        [tpl ["+ "; newPath; ": "; formatValue (get target key)]]
                      else if negb (has_in key target) then
                        [tpl ["- "; newPath; ": "; formatValue (get base key)]]
                      else recur (get base key) (get target key) newPath)
                   allKeys
        else if negb (strict_eq base target) then
          [tpl ["- "; path; ": "; formatValue base];
           tpl ["+ "; path; ": "; formatValue target]]
        else []
    end.
End Differ.

(** The recursion of [findJsonDifferences] descends into members of [base]
    only, so it is unrolled [fuel] times; [depth base + 1] unrollings reach
    every member (see [findJsonDifferences_eq] below, which gives back the
    recursive equation of the source). *)
Fixpoint findJsonDifferences_fuel (fuel : nat) (base target : JValue)
    (path : string) : list string :=
  match fuel with
  | O => []
  | S fuel' =>
      findJsonDifferences_body (findJsonDifferences_fuel fuel') base target path
  end.

Definition findJsonDifferences (base target : JValue) (path : string)
    : list string :=
  findJsonDifferences_fuel (S (depth base)) base target path.

Definition compareArrays : list JValue -> list JValue -> string -> list string :=
  compareArrays_with findJsonDifferences.

(** *** Snapshots and the structured comparison *)

(** [ProbeResult] of [types.ts]; a section that is absent is [JNull]. *)
Record ProbeResult : Type := {
  initialize : JValue;
  tools : JValue;
  prompts : JValue;
  resources : JValue;
  resourceTemplates : JValue;
  customResponses : JsMap JValue;
  error : option string
}.

Record DiffResult : Type := { endpoint : string; diff : string }.

Section Snapshot.
(** [JSON.parse]; [None] when it throws. *)
Variable JSON_parse : string -> option JValue.
(** [probeResultToFiles] of [probe.ts], whose source is not part of the
    development: the map from endpoint name to serialized content. *)
Variable probeResultToFiles : ProbeResult -> JsMap string.

(** [generateJsonDiff]; [None] stands for [null]. *)
Definition generateJsonDiff (name base target : string) : option string :=
  match JSON_parse base with
  | Some baseObj =>
      match JSON_parse target with
      | Some targetObj =>
          let differences := findJsonDifferences baseObj targetObj "" in
          if Nat.eqb (List.length differences) 0 then None
          else
            let diffLines :=
              [tpl ["--- base/"; name; ".json"];
               tpl ["+++ target/"; name; ".json"];
               ""] ++ differences in
            Some (String.concat nl diffLines)
      | None =>
          (* Fallback for non-JSON *)
          if String.eqb base target then None
          else Some (tpl ["--- base/"; name; nl; "+++ target/"; name; nl;
                          "- "; base; nl; "+ "; target])
      end
  | None =>
      if String.eqb base target then None
      else Some (tpl ["--- base/"; name; nl; "+++ target/"; name; nl;
                      "- "; base; nl; "+ "; target])
  end.

(** One turn of the loop of [compareProbeResults]: the entries pushed for
    [endpoint]. *)
Definition compareEndpoint (baseFiles targetFiles : JsMap string)
    (endpoint : string) : list DiffResult :=
  let baseContent := Map_get baseFiles endpoint in
  let targetContent := Map_get targetFiles endpoint in
  if negb (truthy_opt targetContent) && truthy_opt baseContent then
    [{| endpoint := endpoint;
        diff := "Endpoint removed in target (was present in base)" |}]
  else if truthy_opt targetContent && negb (truthy_opt baseContent) then
    [{| endpoint := endpoint;
        diff := "Endpoint added in target (not present in base)" |}]
  else if negb (opt_string_eqb baseContent targetContent) then
    match generateJsonDiff endpoint
            (match baseContent with Some c => or_else c "" | None => "" end)
            (match targetContent with Some c => or_else c "" | None => "" end)
    with
    | Some d => if truthy d then [{| endpoint := endpoint; diff := d |}] else []
    | None => []
    end
  else [].

(** [compareProbeResults] on the two file maps. *)
Definition compareFiles (baseFiles targetFiles : JsMap string)
    : list DiffResult :=
  let allEndpoints := Set_of (Map_keys baseFiles ++ Map_keys targetFiles) in
  flat_map (compareEndpoint baseFiles targetFiles) allEndpoints.

(** [compareProbeResults] *)
Definition compareProbeResults (baseResult targetResult : ProbeResult)
    : list DiffResult :=
  let baseFiles := probeResultToFiles baseResult in
  let targetFiles := probeResultToFiles targetResult in
  compareFiles baseFiles targetFiles.
End Snapshot.

(** [diffsToMap] *)
Definition diffsToMap (diffs : list DiffResult) : JsMap string :=
  fold_left (fun m d => Map_set m (endpoint d) (diff d)) diffs [].

End Diff.

(* ================================================================== *)
(** ** Effects: external commands, probes, clock, file system, log *)
(* ================================================================== *)

Module Eff.
Import Js Diff.

(** A thrown value, kept as its rendering [String(error)]. *)
Definition Err : Type := string.

Inductive Outcome (A : Type) : Type :=
| Ok (a : A)
| Throw (e : Err).
Arguments Ok {A} a.
Arguments Throw {A} e.

(** The external commands the sources run through [exec.exec], one
    constructor per call site ([cmd_argv] gives the command line). *)
Inductive Cmd : Type :=
| GitCurrentBranch
| GitTagList
| GitRootCommits
| GitVerify (ref : string)
| GitMergeBase (ref : string)
| GitWorktreeAdd (path ref : string)
| GitWorktreeRemove (path : string)
| GitCheckout (ref : string)
| GitCheckoutPrevious
| Sh (command cwd : string).

Definition cmd_argv (c : Cmd) : list string :=
  match c with
  | GitCurrentBranch => ["git"; "rev-parse"; "--abbrev-ref"; "HEAD"]
  | GitTagList => ["git"; "tag"; "--sort=-v:refname"]
  | GitRootCommits => ["git"; "rev-list"; "--max-parents=0"; "HEAD"]
  | GitVerify ref => ["git"; "rev-parse"; "--verify"; ref]
  | GitMergeBase ref => ["git"; "merge-base"; "HEAD"; ref]
  | GitWorktreeAdd path ref => ["git"; "worktree"; "add"; "--quiet"; path; ref]
  | GitWorktreeRemove path => ["git"; "worktree"; "remove"; "--force"; path]
  | GitCheckout ref => ["git"; "checkout"; "--quiet"; ref]
  | GitCheckoutPrevious => ["git"; "checkout"; "--quiet"; "-"]
  | Sh command _ => ["sh"; "-c"; command]
  end.

Inductive Transport : Type := Stdio | StreamableHttp.

Definition Transport_eqb (a b : Transport) : bool :=
  match a, b with
  | Stdio, Stdio | StreamableHttp, StreamableHttp => true
  | _, _ => false
  end.

Definition Transport_name (t : Transport) : string :=
  match t with Stdio => "stdio" | StreamableHttp => "streamable-http" end.

(** [CustomMessage] of [types.ts] *)
Record CustomMessage : Type := {
  cm_id : Z;
  cm_name : string;
  cm_message : JValue
}.

(** [ProbeOptions] of [probe.ts] *)
Record ProbeOptions : Type := {
  po_transport : Transport;
  po_command : option string;
  po_args : option (list string);
  po_url : option string;
  po_headers : option (JsMap string);
  po_workingDir : option string;
  po_envVars : JsMap string;
  po_customMessages : list CustomMessage
}.

Inductive Level : Type := Info | Warning | Error.

Inductive Event : Type :=
| EExec (c : Cmd) (r : Outcome string)
| EProbe (options : ProbeOptions) (r : Outcome ProbeResult)
| EMkdir (path : string) (r : Outcome unit)
| EWriteFile (path content : string) (r : Outcome unit)
| ELog (level : Level) (message : string).

(** The host: what the outside world answers, given everything that has
    happened so far, and the platform functions the sources call. *)
Record Host : Type := {
  exec_out : list Event -> Cmd -> Outcome string;
  probe_out : list Event -> ProbeOptions -> Outcome ProbeResult;
  mkdir_out : list Event -> string -> Outcome unit;
  write_out : list Event -> string -> string -> Outcome unit;
  Date_now : list Event -> Z;
  path_join : list string -> string;
  path_dirname : string -> string;
  JSON_stringify_pretty : JValue -> string;
  probeResultToFiles : ProbeResult -> JsMap string
}.

(** A computation with local variables [L]: from the locals and the history
    to an outcome, the locals afterwards, and the events it added. *)
Definition M (L A : Type) : Type :=
  L -> list Event -> Outcome A * L * list Event.

Definition ret {L A} (a : A) : M L A := fun l _ => (Ok a, l, []).

Definition throw {L A} (e : Err) : M L A := fun l _ => (Throw e, l, []).

Definition bind {L A B} (m : M L A) (k : A -> M L B) : M L B :=
  fun l h =>
    match m l h with
    | (Ok a, l1, ev1) =>
        match k a l1 (h ++ ev1) with
        | (o, l2, ev2) => (o, l2, ev1 ++ ev2)
        end
    | (Throw e, l1, ev1) => (Throw e, l1, ev1)
    end.

Notation "x <- m ;; k" := (bind m (fun x => k))
  (at level 61, m at next level, right associativity).
Notation "m ;; k" := (bind m (fun _ => k))
  (at level 61, right associativity).

(** Reading and writing the local variables. *)
Definition getL {L} : M L L := fun l _ => (Ok l, l, []).
Definition putL {L} (l : L) : M L unit := fun _ _ => (Ok tt, l, []).

(** A function body with its own local variables, initialised to [init]. *)
Definition scope {L L' A} (init : L') (m : M L' A) : M L A :=
  fun l h => match m init h with (o, _, ev) => (o, l, ev) end.

(** [try { m } catch (e) { handler e }] *)
Definition try_catch {L A} (m : M L A) (handler : Err -> M L A) : M L A :=
  fun l h =>
    match m l h with
    | (Ok a, l1, ev1) => (Ok a, l1, ev1)
    | (Throw e, l1, ev1) =>
        match handler e l1 (h ++ ev1) with
        | (o, l2, ev2) => (o, l2, ev1 ++ ev2)
        end
    end.

(** [try { m } finally { cleanup }]: the clean-up runs on every exit of [m];
    its own exception, if any, replaces the outcome of [m]. *)
Definition try_finally {L A} (m : M L A) (cleanup : M L unit) : M L A :=
  fun l h =>
    match m l h with
    | (o, l1, ev1) =>
        match cleanup l1 (h ++ ev1) with
        | (Ok _, l2, ev2) => (o, l2, ev1 ++ ev2)
        | (Throw e, l2, ev2) => (Throw e, l2, ev1 ++ ev2)
        end
    end.

(** [for (const x of xs) { body x }] *)
Fixpoint for_of {L A} (xs : list A) (body : A -> M L unit) : M L unit :=
  match xs with
  | [] => ret tt
  | x :: rest => body x ;; for_of rest body
  end.

Section Primitives.
Variable host : Host.
Context {L : Type}.

(** [await exec.exec(...)], collecting the standard output. *)
Definition exec (c : Cmd) : M L string :=
  fun l h => let r := exec_out host h c in
             (r, l, [EExec c r]).

(** [await probeServer(options)] *)
Definition probeServer (options : ProbeOptions) : M L ProbeResult :=
  fun l h => let r := probe_out host h options in
             (r, l, [EProbe options r]).

(** [fs.mkdirSync(path, { recursive: true })] *)
Definition mkdirSync (path : string) : M L unit :=
  fun l h => let r := mkdir_out host h path in
             (r, l, [EMkdir path r]).

(** [fs.writeFileSync(path, content)] *)
Definition writeFileSync (path content : string) : M L unit :=
  fun l h => let r := write_out host h path content in
             (r, l, [EWriteFile path content r]).

(** [Date.now()] *)
Definition now : M L Z := fun l h => (Ok (Date_now host h), l, []).

(** [core.info], [core.warning], [core.error] *)
Definition log (level : Level) (message : string) : M L unit :=
  fun l _ => (Ok tt, l, [ELog level message]).
End Primitives.

End Eff.

(* ================================================================== *)
(** ** [src/git.ts]: git utilities *)
(* ================================================================== *)

Module Git.
Import Js Eff.

Section Git.
Variable host : Host.
Context {L : Type}.

(** [getCurrentBranch] *)
Definition getCurrentBranch : M L string :=
  try_catch
    (output <- exec host GitCurrentBranch ;;
     ret (or_else (trim output) "HEAD"))
    (fun _ => ret "HEAD").

(** [findPreviousTag]; [None] stands for [null]. *)
Definition findPreviousTag (currentTag : string) : M L (option string) :=
  try_catch
    (output <- exec host GitTagList ;;
     let tags := split_lines (trim output) in
     match Array_indexOf tags currentTag with
     | Some currentIndex =>
         if Nat.ltb currentIndex (List.length tags - 1)
         then ret (nth_error tags (currentIndex + 1))
         else ret None
     | None => ret None
     end)
    (fun _ => ret None).

(** [getFirstCommit] *)
Definition getFirstCommit : M L string :=
  output <- exec host GitRootCommits ;;
  ret (hd "" (split_lines (trim output))).

(** [findMainBranch] *)
Definition findMainBranch : M L string :=
  try_catch
    (exec host (GitVerify "origin/main") ;;
     ret "origin/main")
    (fun _ =>
       try_catch
         (exec host (GitVerify "main") ;;
          ret "main")
         (fun _ => getFirstCommit)).

(** [getMergeBase] *)
Definition getMergeBase (ref : string) : M L string :=
  try_catch
    (output <- exec host (GitMergeBase ref) ;;
     ret (trim output))
    (fun _ => ret ref).

(** [determineCompareRef] *)
Definition determineCompareRef (explicitRef githubRef : option string)
    : M L string :=
  (* If explicit ref provided, use it *)
  if truthy_opt explicitRef then
    let explicitRef := match explicitRef with Some r => r | None => "" end in
    log Info (tpl ["Using explicit compare ref: "; explicitRef]) ;;
    ret explicitRef
  (* Check if this is a tag push *)
  else if match githubRef with
          | Some r => startsWith r "refs/tags/"
          | None => false
          end
  then
    let githubRef := match githubRef with Some r => r | None => "" end in
    let currentTag := replace_first githubRef "refs/tags/" "" in
    log Info (tpl ["Detected tag push: "; currentTag]) ;;
    (* Try to find previous tag *)
    previousTag <- findPreviousTag currentTag ;;
    if truthy_opt previousTag
       && negb (opt_string_eqb previousTag (Some currentTag))
    then
      let previousTag := match previousTag with Some t => t | None => "" end in
      log Info (tpl ["Auto-detected previous tag: "; previousTag]) ;;
      ret previousTag
    else
      (* Fall back to first commit *)
      firstCommit <- getFirstCommit ;;
      log Warning "No previous tag found, comparing against initial commit" ;;
      ret firstCommit
  else
    (* Default: find merge-base with main *)
    baseRef <- findMainBranch ;;
    mergeBase <- getMergeBase baseRef ;;
    log Info (tpl ["Using merge-base with "; baseRef; ": "; mergeBase]) ;;
    ret mergeBase.

(** [createWorktree] *)
Definition createWorktree (ref path : string) : M L bool :=
  try_catch
    (exec host (GitWorktreeAdd path ref) ;;
     ret true)
    (fun _ => ret false).

(** [removeWorktree] *)
Definition removeWorktree (path : string) : M L unit :=
  try_catch
    (exec host (GitWorktreeRemove path) ;;
     ret tt)
    (fun _ => ret tt).

(** [checkout] *)
Definition checkout (ref : string) : M L unit :=
  exec host (GitCheckout ref) ;;
  ret tt.

(** [checkoutPrevious] *)
Definition checkoutPrevious : M L unit :=
  try_catch
    (exec host GitCheckoutPrevious ;;
     ret tt)
    (fun _ => ret tt).
End Git.

End Git.

(* ================================================================== *)
(** ** [src/runner.ts]: the configuration runner and the batch runner *)
(* ================================================================== *)

Module Runner.
Import Js Diff Eff Git.

(** [TestConfiguration] of [types.ts] *)
Record TestConfiguration : Type := {
  name : string;
  transport : Transport;
  start_command : option string;
  args : option string;
  server_url : option string;
  headers : option (JsMap string);
  env_vars : option string;
  custom_messages : option (list CustomMessage)
}.

(** [ActionInputs] of [types.ts], the fields the runner reads. *)
Record ActionInputs : Type := {
  installCommand : string;
  buildCommand : string;
  inputHeaders : JsMap string;
  configurations : list TestConfiguration;
  customMessages : list CustomMessage;
  envVars : string
}.

Record RunContext : Type := {
  workDir : string;
  inputs : ActionInputs;
  compareRef : string
}.

(** [TestResult] of [types.ts] *)
Record TestResult : Type := {
  configName : string;
  resultTransport : Transport;
  branchTime : Z;
  baseTime : Z;
  hasDifferences : bool;
  diffs : JsMap string
}.

(** [parseEnvVars] *)
Definition parseEnvVars (input : option string) : JsMap string :=
  match input with
  | None => []
  | Some input =>
      if negb (truthy input) then []
      else
        fold_left
          (fun env line =>
             let trimmed := trim line in
             if negb (truthy trimmed) || startsWith trimmed "#" then env
             else
               match indexOf_char "="%char trimmed with
               | Some eqIndex =>
                   if Nat.ltb 0 eqIndex then
                     let key := substring 0 eqIndex trimmed in
                     let value := substring_from (eqIndex + 1) trimmed in
                     Object_set env key value
                   else env
               | None => env
               end)
          (split_lines input) []
  end.

(** [generateSimpleDiff]; [None] stands for [null]. *)
Definition generateSimpleDiff (name base branch : string) : option string :=
  let baseLines := split_lines base in
  let branchLines := split_lines branch in
  let maxLines := Nat.max (List.length baseLines) (List.length branchLines) in
  let diffLines :=
    flat_map
      (fun i =>
         let baseLine := nth_error baseLines i in
         let branchLine := nth_error branchLines i in
         if negb (opt_string_eqb baseLine branchLine) then
           (match baseLine with Some l => [tpl ["- "; l]] | None => [] end)
           ++ (match branchLine with Some l => [tpl ["+ "; l]] | None => [] end)
         else [])
      (seq 0 maxLines) in
  if Nat.eqb (List.length diffLines) 0 then None
  else Some (tpl ["--- base/"; name; ".json"; nl;
                  "+++ branch/"; name; ".json"; nl;
                  String.concat nl diffLines]).

(** One turn of the loop of [compareResults]. *)
Definition compareResultsStep (branchFiles baseFiles : JsMap string)
    (diffs : JsMap string) (endpoint : string) : JsMap string :=
  let branchContent := Map_get branchFiles endpoint in
  let baseContent := Map_get baseFiles endpoint in
  if negb (truthy_opt branchContent) && truthy_opt baseContent then
    Map_set diffs endpoint
      "Endpoint removed in current branch (was present in base)"
  else if truthy_opt branchContent && negb (truthy_opt baseContent) then
    Map_set diffs endpoint
      "Endpoint added in current branch (not present in base)"
  else if negb (opt_string_eqb branchContent baseContent) then
    (* Generate a simple diff *)
    match generateSimpleDiff endpoint
            (match baseContent with Some c => or_else c "" | None => "" end)
            (match branchContent with Some c => or_else c "" | None => "" end)
    with
    | Some d => if truthy d then Map_set diffs endpoint d else diffs
    | None => diffs
    end
  else diffs.

(** [compareResults] *)
Definition compareResults (branchFiles baseFiles : JsMap string)
    : JsMap string :=
  let allEndpoints := Set_of (Map_keys branchFiles ++ Map_keys baseFiles) in
  fold_left (compareResultsStep branchFiles baseFiles) allEndpoints [].

(** The object [{ ...result, diffs: Object.fromEntries(result.diffs) }]. *)
Definition resultToJson (r : TestResult) : JValue :=
  JObj [("configName", JStr (configName r));
        ("transport", JStr (Transport_name (resultTransport r)));
        ("branchTime", JNum (branchTime r));
        ("baseTime", JNum (baseTime r));
        ("hasDifferences", JBool (hasDifferences r));
        ("diffs", JObj (map (fun kv => (fst kv, JStr (snd kv))) (diffs r)))].

Section Runner.
Variable host : Host.

(** [runBuild] *)
Definition runBuild {L} (dir : string) (inputs : ActionInputs) : M L unit :=
  (if truthy (installCommand inputs) then
     log Info (tpl ["  Running install: "; installCommand inputs]) ;;
     exec host (Sh (installCommand inputs) dir) ;;
     ret tt
   else ret tt) ;;
  (if truthy (buildCommand inputs) then
     log Info (tpl ["  Running build: "; buildCommand inputs]) ;;
     exec host (Sh (buildCommand inputs) dir) ;;
     ret tt
   else ret tt).

(** The options [probeWithConfig] passes to [probeServer]. *)
Definition probeOptions (config : TestConfiguration) (workDir : string)
    (globalEnvVars globalHeaders : JsMap string)
    (globalCustomMessages : list CustomMessage) : ProbeOptions :=
  let configEnvVars := parseEnvVars (env_vars config) in
  let envVars := spread globalEnvVars configEnvVars in
  let headers :=
    spread globalHeaders
      (match headers config with Some h => h | None => [] end) in
  let customMessages :=
    match custom_messages config with
    | Some c => c
    | None => globalCustomMessages
    end in
  match transport config with
  | Stdio =>
      let command :=
        match start_command config with Some c => or_else c "" | None => "" end in
      let parts := split_ws command in
      let cmd := hd "" parts in
      let args0 := tl parts in
      (* Also parse additional args if provided *)
      let args1 :=
        if truthy_opt (args config)
        then args0 ++ split_ws (match args config with Some a => a | None => "" end)
        else args0 in
      {| po_transport := Stdio;
         po_command := Some cmd;
         po_args := Some args1;
         po_url := None;
         po_headers := None;
         po_workingDir := Some workDir;
         po_envVars := envVars;
         po_customMessages := customMessages |}
  | StreamableHttp =>
      {| po_transport := StreamableHttp;
         po_command := None;
         po_args := None;
         po_url := server_url config;
         po_headers := Some headers;
         po_workingDir := None;
         po_envVars := envVars;
         po_customMessages := customMessages |}
  end.

(** [probeWithConfig] *)
Definition probeWithConfig {L} (config : TestConfiguration) (workDir : string)
    (globalEnvVars globalHeaders : JsMap string)
    (globalCustomMessages : list CustomMessage) : M L ProbeResult :=
  probeServer host
    (probeOptions config workDir globalEnvVars globalHeaders globalCustomMessages).

(** [runSingleConfigTest]; its local variable is [useWorktree]. *)
Definition runSingleConfigTest {L} (config : TestConfiguration)
    (ctx : RunContext) : M L TestResult :=
  scope false
    (let result :=
       {| configName := name config;
          resultTransport := transport config;
          branchTime := 0;
          baseTime := 0;
          hasDifferences := false;
          diffs := [] |} in
     let globalEnvVars := parseEnvVars (Some (envVars (inputs ctx))) in
     let globalHeaders := inputHeaders (inputs ctx) in
     let globalCustomMessages := customMessages (inputs ctx) in
     log Info (tpl [nl; "📋 Testing configuration: "; name config; " (";
                    Transport_name (transport config); ")"]) ;;
     (* Test current branch *)
     log Info "🔄 Testing current branch..." ;;
     branchStart <- now host ;;
     branchResult <- probeWithConfig config (workDir ctx)
                       globalEnvVars globalHeaders globalCustomMessages ;;
     branchEnd <- now host ;;
     let result :=
       {| configName := configName result;
          resultTransport := resultTransport result;
          branchTime := branchEnd - branchStart;
          baseTime := baseTime result;
          hasDifferences := hasDifferences result;
          diffs := diffs result |} in
     if truthy_opt (error branchResult) then
       let message := match error branchResult with Some e => e | None => "" end in
       log Warning (tpl ["Error on current branch: "; message]) ;;
       ret {| configName := configName result;
              resultTransport := resultTransport result;
              branchTime := branchTime result;
              baseTime := baseTime result;
              hasDifferences := true;
              diffs := Map_set (diffs result) "error"
                         (tpl ["Current branch probe failed: "; message]) |}
     else
       let branchFiles := probeResultToFiles host branchResult in
       (* Set up comparison ref *)
       let worktreePath := path_join host [workDir ctx; ".conformance-base"] in
       try_finally
         (log Info (tpl ["🔄 Setting up comparison ref: "; compareRef ctx]) ;;
          (* Try worktree first *)
          created <- createWorktree host (compareRef ctx) worktreePath ;;
          putL created ;;
          useWorktree <- getL ;;
          (if negb useWorktree then
             log Info "  Worktree not available, using checkout" ;;
             checkout host (compareRef ctx)
           else ret tt) ;;
          let baseWorkDir := if useWorktree then worktreePath else workDir ctx in
          (* Build on base *)
          log Info "🔨 Building on comparison ref..." ;;
          runBuild baseWorkDir (inputs ctx) ;;
          (* Probe on base *)
          log Info "🔄 Testing comparison ref..." ;;
          baseStart <- now host ;;
          baseResult <- probeWithConfig config baseWorkDir
                          globalEnvVars globalHeaders globalCustomMessages ;;
          baseEnd <- now host ;;
          let result :=
            {| configName := configName result;
               resultTransport := resultTransport result;
               branchTime := branchTime result;
               baseTime := baseEnd - baseStart;
               hasDifferences := hasDifferences result;
               diffs := diffs result |} in
          if truthy_opt (error baseResult) then
            let message := match error baseResult with Some e => e | None => "" end in
            log Warning (tpl ["Error on base ref: "; message]) ;;
            ret {| configName := configName result;
                   resultTransport := resultTransport result;
                   branchTime := branchTime result;
                   baseTime := baseTime result;
                   hasDifferences := true;
                   diffs := Map_set (diffs result) "error"
                              (tpl ["Base ref probe failed: "; message]) |}
          else
            let baseFiles := probeResultToFiles host baseResult in
            (* Compare results *)
            let newDiffs := compareResults branchFiles baseFiles in
            let result :=
              {| configName := configName result;
                 resultTransport := resultTransport result;
                 branchTime := branchTime result;
                 baseTime := baseTime result;
                 hasDifferences := Nat.ltb 0 (Map_size newDiffs);
                 diffs := newDiffs |} in
            (if hasDifferences result then
               log Warning (tpl ["⚠️ Configuration "; name config; ": ";
                                 String_of_index (Map_size (diffs result));
                                 " differences found"])
             else
               log Info (tpl ["✅ Configuration "; name config;
                              ": no differences"])) ;;
            ret result)
         (* Clean up *)
         (useWorktree <- (getL : M bool bool) ;;
          if useWorktree then removeWorktree host worktreePath
          else checkoutPrevious host)).

(** The path of the individual result file of a configuration. *)
Definition resultPathOf (ctx : RunContext) (config : TestConfiguration)
    : string :=
  path_join host [workDir ctx; ".conformance-results";
                  tpl [name config; ".json"]].

(** The body of the loop of [runAllTests]; its local variable is
    [results]. *)
Definition runAllTestsStep (ctx : RunContext) (config : TestConfiguration)
    : M (list TestResult) unit :=
  try_catch
    (result <- runSingleConfigTest config ctx ;;
     results <- getL ;;
     putL (results ++ [result]) ;;
     (* Save individual result *)
     let resultPath := resultPathOf ctx config in
     mkdirSync host (path_dirname host resultPath) ;;
     writeFileSync host resultPath
       (JSON_stringify_pretty host (resultToJson result)))
    (fun error =>
       log Error (tpl ["Failed to run configuration "; name config; ": "; error]) ;;
       results <- getL ;;
       putL (results ++
             [{| configName := name config;
                 resultTransport := transport config;
                 branchTime := 0;
                 baseTime := 0;
                 hasDifferences := true;
                 diffs := Map_set [] "error" error |}])).

(** [runAllTests] *)
Definition runAllTests {L} (ctx : RunContext) : M L (list TestResult) :=
  scope []
    (for_of (configurations (inputs ctx)) (runAllTestsStep ctx) ;;
     getL).
End Runner.

End Runner.


(* ================================================================== *)
(** ** [src/runner.ts]: the parsers of the action inputs *)
(* ================================================================== *)

Module Parse.
Import Js Eff.

(** Truthiness of a value. *)
Definition truthy_value (v : JValue) : bool :=
  match v with
  | JUndefined | JNull => false
  | JBool b => b
  | JNum n => negb (Z.eqb n 0)
  | JStr s => truthy s
  | JArr _ | JObj _ => true
  end.

(** [a || b] on values. *)
Definition or_value (a b : JValue) : JValue := if truthy_value a then a else b.

(** The characters of a string, as the strings a spread gives them. *)
Fixpoint chars (s : string) : list JValue :=
  match s with
  | EmptyString => []
  | String c rest => JStr (String c EmptyString) :: chars rest
  end.

(** The own enumerable properties that [{...v}] copies. *)
Definition spread_fields (v : JValue) : list (string * JValue) :=
  match v with
  | JObj fields => fields
  | JArr items =>
      combine (map String_of_index (seq 0 (List.length items))) items
  | JStr s =>
      combine (map String_of_index (seq 0 (String.length s))) (chars s)
  | _ => []
  end.

(** [obj[key] = value] on a plain object: the name [__proto__] is the
    accessor of [Object.prototype], which ignores a string. *)
Definition assign (fields : list (string * JValue)) (key : string)
    (value : string) : list (string * JValue) :=
  if String.eqb key "__proto__" then fields
  else Map_set fields key (JStr value).

(** [xs.map(f)] for a callback that may throw. *)
Fixpoint Array_map {A B} (f : A -> Outcome B) (xs : list A) : Outcome (list B) :=
  match xs with
  | [] => Ok []
  | x :: rest =>
      match f x with
      | Ok y =>
          match Array_map f rest with
          | Ok ys => Ok (y :: ys)
          | Throw e => Throw e
          end
      | Throw e => Throw e
      end
  end.

(** The elements of an array. *)
Definition elements (v : JValue) : list JValue :=
  match v with JArr items => items | _ => [] end.

(** The fields of an object. *)
Definition fields_of (v : JValue) : list (string * JValue) :=
  match v with JObj fields => fields | _ => [] end.

(** A computation that has no effect but its outcome. *)
Definition of_outcome {L A} (o : Outcome A) : M L A := fun l _ => (o, l, []).

Section Parse.
(** [JSON.parse]; a text that is not JSON throws a [SyntaxError], given by
    its rendering. *)
Variable JSON_parse : string -> Outcome JValue.
(** The rendering of the [TypeError] that reading a property of [null]
    throws. *)
Variable TypeError_null : string -> Err.

(** The single default configuration. *)
Definition defaultConfiguration (defaultTransport : Transport)
    (defaultCommand defaultUrl : string) : JValue :=
  JObj [("name", JStr "default");
        ("transport", JStr (Transport_name defaultTransport));
        ("start_command",
         if Transport_eqb defaultTransport Stdio then JStr defaultCommand
         else JUndefined);
        ("server_url",
         if Transport_eqb defaultTransport StreamableHttp then JStr defaultUrl
         else JUndefined)].

(** The callback of [configs.map] in [parseConfigurations]. *)
Definition applyDefaults (defaultTransport : Transport)
    (defaultCommand defaultUrl : string) (config : JValue) : Outcome JValue :=
  if nullish config then Throw (TypeError_null "transport")
  else
    let transport :=
      or_value (get config "transport")
        (JStr (Transport_name defaultTransport)) in
    Ok (JObj
          (Map_set
             (Map_set
                (Map_set (spread_fields config) "transport" transport)
                "start_command"
                (* For stdio, use default command if not specified *)
                (if strict_eq transport (JStr "stdio")
                 then or_value (get config "start_command") (JStr defaultCommand)
                 else get config "start_command"))
             "server_url"
             (* For HTTP, use default URL if not specified *)
             (if strict_eq transport (JStr "streamable-http")
              then or_value (get config "server_url") (JStr defaultUrl)
              else get config "server_url"))).

(** [parseConfigurations] *)
Definition parseConfigurations {L} (input : option string)
    (defaultTransport : Transport) (defaultCommand defaultUrl : string)
    : M L (list JValue) :=
  let text := match input with Some s => s | None => "" end in
  if negb (truthy_opt input) || String.eqb (trim text) "[]"
     || String.eqb (trim text) ""
  then
    (* Return single default configuration *)
    ret [defaultConfiguration defaultTransport defaultCommand defaultUrl]
  else
    try_catch
      (configs <- of_outcome (JSON_parse text) ;;
       if negb (isArray configs) || Nat.eqb (List.length (elements configs)) 0
       then throw "Error: Configurations must be a non-empty array"
       else
         (* Apply defaults to each configuration *)
         of_outcome
           (Array_map (applyDefaults defaultTransport defaultCommand defaultUrl)
              (elements configs)))
      (fun error =>
         log Warning (tpl ["Failed to parse configurations: "; error]) ;;
         (* Return default *)
         ret [defaultConfiguration defaultTransport defaultCommand defaultUrl]).

(** One turn of the loop of [parseHeaders]. *)
Definition parseHeadersStep (headers : list (string * JValue)) (line : string)
    : list (string * JValue) :=
  let trimmed := trim line in
  if negb (truthy trimmed) || startsWith trimmed "#" then headers
  else
    let colonIndex := indexOf_char ":"%char trimmed in
    let eqIndex := indexOf_char "="%char trimmed in
    (* Support both "Header: value" and "Header=value" formats *)
    let sepIndex :=
      match colonIndex with
      | Some (S _) => colonIndex
      | _ => eqIndex
      end in
    match sepIndex with
    | Some (S _ as sepIndex) =>
        let key := trim (substring 0 sepIndex trimmed) in
        let value := trim (substring_from (sepIndex + 1) trimmed) in
        assign headers key value
    | _ => headers
    end.

(** [parseHeaders]; the result is the parsed object, or the object
    [headers] built from the lines (the fall back to KEY=value format), its
    fields in the order of their first assignment. *)
Definition parseHeaders (input : option string) : JValue :=
  let text := match input with Some s => s | None => "" end in
  if negb (truthy_opt input) || String.eqb (trim text) ""
     || String.eqb (trim text) "{}"
  then JObj []
  else
    (* Try JSON first *)
    let headers := JObj (fold_left parseHeadersStep (split_lines text) []) in
    match JSON_parse text with
    | Ok parsed =>
        if JsType_eqb (typeof parsed) TObject && negb (strict_eq parsed JNull)
           && negb (isArray parsed)
        then parsed
        else headers
    | Throw _ => headers
    end.
End Parse.

End Parse.

(* ================================================================== *)
(** ** [src/reporter.ts]: the report *)
(* ================================================================== *)

Module Reporter.
Import Js Eff Runner.

(** [ConformanceReport] of [types.ts]; [reportCompareRef] is its field
    [compareRef]. *)
Record ConformanceReport : Type := {
  generatedAt : string;
  currentBranch : string;
  reportCompareRef : string;
  results : list TestResult;
  totalBranchTime : Z;
  totalBaseTime : Z;
  passedCount : nat;
  diffCount : nat
}.

(** [generateReport]; [isoNow] is the value of [new Date().toISOString()]. *)
Definition generateReport (isoNow : string) (results : list TestResult)
    (currentBranch compareRef : string) : ConformanceReport :=
  let totalBranchTime := fold_left (fun sum r => (sum + branchTime r)%Z) results 0%Z in
  let totalBaseTime := fold_left (fun sum r => (sum + baseTime r)%Z) results 0%Z in
  let passedCount :=
    List.length (filter (fun r => negb (hasDifferences r)) results) in
  let diffCount := List.length (filter (fun r => hasDifferences r) results) in
  {| generatedAt := isoNow;
     currentBranch := currentBranch;
     reportCompareRef := compareRef;
     results := results;
     totalBranchTime := totalBranchTime;
     totalBaseTime := totalBaseTime;
     passedCount := passedCount;
     diffCount := diffCount |}.

(** [generatePRSummary] *)
Definition generatePRSummary (report : ConformanceReport) : string :=
  let lines :=
    if Nat.eqb (diffCount report) 0 then
      ["## ✅ MCP Conformance: All Tests Passed";
       "";
       tpl ["Tested "; String_of_index (List.length (results report));
            " configuration(s) - no API breaking changes detected."]]
    else
      ["## ⚠️ MCP Conformance: API Differences Detected";
       "";
       tpl ["**"; String_of_index (diffCount report); "** of ";
            String_of_index (List.length (results report));
            " configuration(s) have differences."];
       "";
       "### Changed Endpoints";
       ""]
      ++ map (fun result =>
                tpl ["- **"; configName result; ":** ";
                     String.concat ", " (Map_keys (diffs result))])
           (filter (fun r => hasDifferences r) (results report))
      ++ [""; "See the full report in the job summary for details."] in
  String.concat nl lines.

End Reporter.


(* ================================================================== *)
(** ** Vocabulary of the properties *)
(* ================================================================== *)

Module DiffSpec.
Import Js Diff.

(** The string [name] field of an array member, if it has one. *)
Definition nameField (v : JValue) : option string :=
  match v with
  | JObj obj =>
      match prop obj "name" with
      | Some (JStr name) => Some name
      | _ => None
      end
  | _ => None
  end.

(** Two maps that differ at most in the value stored under [key], at the
    first position of that key. *)
Inductive differ_at {V} (key : string) : JsMap V -> JsMap V -> Prop :=
| differ_here v v' rest : differ_at key ((key, v) :: rest) ((key, v') :: rest)
| differ_later k v m m' :
    k <> key -> differ_at key m m' -> differ_at key ((k, v) :: m) ((k, v) :: m').

End DiffSpec.

Module GitSpec.
Import Js Eff Git.

(** The three ways of resolving the ref to compare against. *)
Inductive Strategy : Type := MergeBase | PreviousTag | ExplicitRef.

(** When a strategy applies: an explicit ref was given; the run was triggered
    by a tag push; the merge-base with the main line needs nothing. *)
Definition applicable (s : Strategy) (explicitRef githubRef : option string)
    : bool :=
  match s with
  | ExplicitRef => truthy_opt explicitRef
  | PreviousTag =>
      match githubRef with
      | Some r => startsWith r "refs/tags/"
      | None => false
      end
  | MergeBase => true
  end.

(** The first strategy of [order] that applies. *)
Fixpoint select_strategy (order : list Strategy)
    (explicitRef githubRef : option string) : option Strategy :=
  match order with
  | [] => None
  | s :: rest =>
      if applicable s explicitRef githubRef then Some s
      else select_strategy rest explicitRef githubRef
  end.

(** The strategy a git command belongs to; listing the root commits serves
    two of them. *)
Definition strategy_of_command (c : Cmd) : option Strategy :=
  match c with
  | GitTagList => Some PreviousTag
  | GitVerify _ | GitMergeBase _ => Some MergeBase
  | _ => None
  end.

Section Strategies.
Variable host : Host.
Context {L : Type}.

(** What each strategy does, on its own. *)
Definition run_strategy (s : Strategy) (explicitRef githubRef : option string)
    : M L string :=
  match s with
  | ExplicitRef =>
      let explicitRef := match explicitRef with Some r => r | None => "" end in
      log Info (tpl ["Using explicit compare ref: "; explicitRef]) ;;
      ret explicitRef
  | PreviousTag =>
      let githubRef := match githubRef with Some r => r | None => "" end in
      let currentTag := replace_first githubRef "refs/tags/" "" in
      log Info (tpl ["Detected tag push: "; currentTag]) ;;
      previousTag <- findPreviousTag host currentTag ;;
      if truthy_opt previousTag
         && negb (opt_string_eqb previousTag (Some currentTag))
      then
        let previousTag := match previousTag with Some t => t | None => "" end in
        log Info (tpl ["Auto-detected previous tag: "; previousTag]) ;;
        ret previousTag
      else
        firstCommit <- getFirstCommit host ;;
        log Warning "No previous tag found, comparing against initial commit" ;;
        ret firstCommit
  | MergeBase =>
      baseRef <- findMainBranch host ;;
      mergeBase <- getMergeBase host baseRef ;;
      log Info (tpl ["Using merge-base with "; baseRef; ": "; mergeBase]) ;;
      ret mergeBase
  end.
End Strategies.

End GitSpec.

Module RunnerSpec.
Import Js Diff Eff Git Runner.

(** A release of the baseline: removal of the worktree or restoration of the
    previous checkout. *)
Definition is_release (e : Event) : bool :=
  match e with
  | EExec (GitWorktreeRemove _) _ | EExec GitCheckoutPrevious _ => true
  | _ => false
  end.

(** An attempt to acquire the baseline: worktree creation or checkout. *)
Definition is_acquire (e : Event) : bool :=
  match e with
  | EExec (GitWorktreeAdd _ _) _ | EExec (GitCheckout _) _ => true
  | _ => false
  end.

(** The worktree was created. *)
Definition worktree_created (ev : list Event) : bool :=
  existsb (fun e => match e with
                    | EExec (GitWorktreeAdd _ _) (Ok _) => true
                    | _ => false
                    end) ev.

(** A write to a file. *)
Definition is_write (e : Event) : bool :=
  match e with EWriteFile _ _ _ => true | _ => false end.

(** The answer to the first probe among some events. *)
Fixpoint first_probe (ev : list Event) : option (Outcome ProbeResult) :=
  match ev with
  | [] => None
  | EProbe _ r :: _ => Some r
  | _ :: rest => first_probe rest
  end.

(** A probe among the events answered with a snapshot that carries a
    terminal error. *)
Definition probe_failed (ev : list Event) : Prop :=
  exists options p,
    In (EProbe options (Ok p)) ev /\ truthy_opt (error p) = true.

(** The line logged for a configuration whose run threw [e], and the result
    recorded for it. *)
Definition failure_line (config : TestConfiguration) (e : Err) : Event :=
  ELog Error (tpl ["Failed to run configuration "; name config; ": "; e]).

Definition failed_result (config : TestConfiguration) (e : Err) : TestResult :=
  {| configName := name config;
     resultTransport := transport config;
     branchTime := 0;
     baseTime := 0;
     hasDifferences := true;
     diffs := Map_set [] "error" e |}.

(** What follows the run of [config] in the batch when the run returned
    [result]: the results directory is made and then, if that succeeded, the
    result is written to the file of the configuration; nothing else is
    written. *)
Definition saved_after (host : Host) (ctx : RunContext)
    (config : TestConfiguration) (result : TestResult) (ev : list Event)
    : Prop :=
  exists made rest,
    ev = EMkdir (path_dirname host (resultPathOf host ctx config)) made :: rest
    /\ match made with
       | Ok _ =>
           exists written rest',
             rest = EWriteFile (resultPathOf host ctx config)
                      (JSON_stringify_pretty host (resultToJson result)) written
                    :: rest'
             /\ existsb is_write rest' = false
       | Throw _ => existsb is_write rest = false
       end.

End RunnerSpec.


(** Lines of a structural diff. *)
Module LineSpec.
Import Js Diff.

(** A line of the differ: it is marked as removed or as added. *)
Definition is_diff_line (line : string) : bool :=
  startsWith line "- " || startsWith line "+ ".

(** The same line with the other mark. *)
Definition swap_mark (line : string) : string :=
  match line with
  | String c rest =>
      if Ascii.eqb c "-"%char then String "+"%char rest
      else if Ascii.eqb c "+"%char then String "-"%char rest
      else line
  | EmptyString => line
  end.

End LineSpec.

(** Members of an array under their identity keys. *)
Module MemberSpec.
Import Js Diff.

(** The members of an array, each with its identity key. *)
Definition keyed (items : list JValue) : list (string * JValue) :=
  map (fun p => (getItemKey (snd p) (fst p), snd p))
    (combine (seq 0 (List.length items)) items).

(** The identity keys of an array, each once, in the order in which they
    first occur. *)
Definition member_keys (items : list JValue) : list string :=
  Set_of (map fst (keyed items)).

(** The last member of the array that has the key. *)
Definition last_member (items : list JValue) (key : string) : option JValue :=
  option_map snd (find (fun p => String.eqb (fst p) key) (rev (keyed items))).

End MemberSpec.

(** Texts of environment variables. *)
Module EnvSpec.
Import Js Diff Eff Runner.

(** The character does not occur in the string. *)
Definition no_char (c : ascii) (s : string) : bool :=
  negb (is_some (indexOf_char c s)).

(** A name that can start a line of environment variables: its first
    character is neither white space nor the comment mark. *)
Definition starts_name (k : string) : bool :=
  match k with
  | String c _ => negb (is_ws c) && negb (Ascii.eqb c "#"%char)
  | EmptyString => false
  end.

(** A pair that a line [KEY=value] can carry as it is. *)
Definition env_pair_ok (kv : string * string) : bool :=
  starts_name (fst kv)
  && no_char "="%char (fst kv)
  && no_char (ascii_of_nat 10) (fst kv)
  && no_char (ascii_of_nat 10) (snd kv)
  && String.eqb (trimEnd (snd kv)) (snd kv).

(** The text with one line [KEY=value] per pair. *)
Definition env_text (pairs : list (string * string)) : string :=
  String.concat nl (map (fun kv => tpl [fst kv; "="; snd kv]) pairs).

End EnvSpec.

(** Events of a run. *)
Module EventSpec.
Import Js Diff Eff Git Runner RunnerSpec.


(** An event that is not a failed command. *)
Definition not_failed_exec (e : Event) : bool :=
  match e with EExec _ (Throw _) => false | _ => true end.

(** An event that is a command. *)
Definition is_exec (e : Event) : bool :=
  match e with EExec _ _ => true | _ => false end.

(** The answers to the probes among some events, in order. *)
Definition probe_answers (ev : list Event) : list (Outcome ProbeResult) :=
  flat_map (fun e => match e with EProbe _ r => [r] | _ => [] end) ev.

(** The commands that were run, in order. *)
Definition exec_commands (ev : list Event) : list Cmd :=
  flat_map (fun e => match e with EExec c _ => [c] | _ => [] end) ev.




(** The error of a failure that ends a run: a probe that rejects, a failed
    checkout of the comparison ref, or a failed shell command. *)
Definition fatal_error (e : Event) : option Err :=
  match e with
  | EProbe _ (Throw e) => Some e
  | EExec (GitCheckout _) (Throw e) => Some e
  | EExec (Sh _ _) (Throw e) => Some e
  | _ => None
  end.

(** The first such failure among some events, with the events after it. *)
Fixpoint after_fatal (ev : list Event) : option (Err * list Event) :=
  match ev with
  | [] => None
  | x :: rest =>
      match fatal_error x with
      | Some e => Some (e, rest)
      | None => after_fatal rest
      end
  end.

(** A failed operation on the file system. *)
Definition fs_failed (e : Event) : bool :=
  match e with
  | EMkdir _ (Throw _) | EWriteFile _ _ (Throw _) => true
  | _ => false
  end.

(** The command returned normally. *)
Definition succeeded {A} (o : Outcome A) : bool :=
  match o with Ok _ => true | Throw _ => false end.

End EventSpec.

(** Words of a command line. *)
Module WordSpec.
Import Js.

(** The string has no white space. *)
Fixpoint no_space (s : string) : bool :=
  match s with
  | EmptyString => true
  | String c rest => negb (is_ws c) && no_space rest
  end.

End WordSpec.

(** Parsed inputs. *)
Module ParseSpec.
Import Js Eff Parse.

(** The parse gave a plain object. *)
Definition parses_object (o : Outcome JValue) : bool :=
  match o with Ok (JObj _) => true | _ => false end.

(** A header as the lines give it: a name that is not empty and has no
    white space around it, and a string value without white space around
    it. *)
Definition header_ok (kv : string * JValue) : Prop :=
  fst kv <> ""
  /\ trim (fst kv) = fst kv
  /\ exists value, snd kv = JStr value /\ trim value = value.

(** The defaults a configuration ends up with. *)
Definition resolved (defaultCommand defaultUrl : string) (c : JValue) : Prop :=
  truthy_value (get c "transport") = true
  /\ (get c "transport" = JStr "stdio" -> truthy defaultCommand = true ->
      truthy_value (get c "start_command") = true)
  /\ (get c "transport" = JStr "streamable-http" -> truthy defaultUrl = true ->
      truthy_value (get c "server_url") = true).

End ParseSpec.

(* ================================================================== *)
(** ** Sample inputs *)
(* ================================================================== *)

Module Samples.
Import Js Diff Eff Git Runner.

(** Array members. *)
Definition namedA : JValue := JObj [("name", JStr "a")].
Definition namedB : JValue := JObj [("name", JStr "b")].
Definition namedC : JValue := JObj [("name", JStr "c")].
Definition toolA : JValue := JObj [("name", JStr "a"); ("description", JStr "first")].
Definition toolB : JValue := JObj [("name", JStr "b"); ("description", JStr "second")].
Definition twinOne : JValue := JObj [("name", JStr "a"); ("v", JNum 1)].
Definition twinTwo : JValue := JObj [("name", JStr "a"); ("v", JNum 2)].
Definition hashOne : JValue := JObj [("name", JStr "#1")].
Definition hashOneBis : JValue := JObj [("name", JStr "#1"); ("v", JNum 7)].

(** File maps of two snapshots: the tool list is empty text on one side. *)
Definition filesEmptyTools : JsMap string := [("initialize", "{}"); ("tools", "")].
Definition filesWithTools : JsMap string := [("initialize", "{}"); ("tools", "{}")].
Definition filesNoTools : JsMap string := [("initialize", "{}")].

Definition snapshot (err : option string) : ProbeResult :=
  {| initialize := JObj [];
     tools := JObj [("tools", JArr [toolA])];
     prompts := JNull;
     resources := JNull;
     resourceTemplates := JNull;
     customResponses := [];
     error := err |}.

(** The directory part of a path written with [/]. *)
Fixpoint dirname_aux (s : string) : option string :=
  match s with
  | EmptyString => None
  | String c rest =>
      match dirname_aux rest with
      | Some d => Some (String c d)
      | None => if Ascii.eqb c "/"%char then Some EmptyString else None
      end
  end.

(** A host whose git commands succeed; the build fails when [buildFails],
    every probe answers [snapshot probeError], worktrees can be created when
    [worktrees]. *)
Definition sampleHost (buildFails worktrees : bool) (probeError : option string)
    : Host :=
  {| exec_out := fun _ c =>
       match c with
       | Sh _ _ => if buildFails then Throw "Error: exit code 1" else Ok ""
       | GitWorktreeAdd _ _ =>
           if worktrees then Ok "" else Throw "Error: exit code 128"
       | GitMergeBase _ => Ok (tpl ["abc123"; nl])
       | GitTagList => Ok (tpl ["v2.0.0"; nl; "v1.0.0"; nl])
       | GitRootCommits => Ok (tpl ["000aaa"; nl])
       | _ => Ok ""
       end;
     probe_out := fun _ _ => Ok (snapshot probeError);
     mkdir_out := fun _ _ => Ok tt;
     write_out := fun _ _ _ => Ok tt;
     Date_now := fun h => Z.of_nat (List.length h);
     path_join := String.concat "/";
     path_dirname := fun p => match dirname_aux p with Some d => d | None => "." end;
     JSON_stringify_pretty := fun v =>
       match JSON_stringify v with Some s => s | None => "" end;
     probeResultToFiles := fun p =>
       [("tools", match JSON_stringify (tools p) with Some s => s | None => "" end)]
  |}.

Definition sampleConfig : TestConfiguration :=
  {| name := "default";
     transport := Stdio;
     start_command := Some "node server.js";
     args := None;
     server_url := None;
     headers := None;
     env_vars := None;
     custom_messages := None |}.

Definition sampleCtx : RunContext :=
  {| workDir := "/work";
     inputs := {| installCommand := "npm ci";
                  buildCommand := "npm run build";
                  inputHeaders := [];
                  configurations := [sampleConfig];
                  customMessages := [];
                  envVars := "" |};
     compareRef := "abc123" |}.

(** A [JSON.parse] that knows the texts of the samples. *)
Definition sampleParse (s : string) : option JValue :=
  if String.eqb s "{}" then Some (JObj []) else None.

End Samples.


Module MoreSamples.
Import Js Diff Eff Git Runner Parse Samples.

(** A configuration whose extra arguments hold a quoted blank. *)
Definition quotedConfig : TestConfiguration :=
  {| name := "quoted";
     transport := Stdio;
     start_command := Some "node  server.js";
     args := Some "--title 'my server'";
     server_url := None;
     headers := None;
     env_vars := None;
     custom_messages := None |}.

(** A host on which nothing works: every command, probe and file operation
    fails. *)
Definition brokenHost : Host :=
  {| exec_out := fun _ _ => Throw "Error: spawn git ENOENT";
     probe_out := fun _ _ => Throw "Error: connection refused";
     mkdir_out := fun _ _ => Throw "Error: EROFS";
     write_out := fun _ _ _ => Throw "Error: EROFS";
     Date_now := fun h => Z.of_nat (List.length h);
     path_join := String.concat "/";
     path_dirname := fun p => p;
     JSON_stringify_pretty := fun _ => "";
     probeResultToFiles := fun _ => [] |}.

(** The sample host on a file system that cannot be written. *)
Definition readOnlyHost : Host :=
  {| exec_out := exec_out (sampleHost false true None);
     probe_out := probe_out (sampleHost false true None);
     mkdir_out := fun _ _ => Throw "Error: EROFS";
     write_out := fun _ _ _ => Throw "Error: EROFS";
     Date_now := Date_now (sampleHost false true None);
     path_join := path_join (sampleHost false true None);
     path_dirname := path_dirname (sampleHost false true None);
     JSON_stringify_pretty := JSON_stringify_pretty (sampleHost false true None);
     probeResultToFiles := probeResultToFiles (sampleHost false true None) |}.

(** A [JSON.parse] that knows the texts of the samples. *)
Definition sampleJSON (s : string) : Outcome JValue :=
  if String.eqb s "[{}, null]" then Ok (JArr [JObj []; JNull])
  else if String.eqb s "[{}]" then Ok (JArr [JObj []])
  else Throw "SyntaxError: Unexpected token".

Definition sampleTypeError (key : string) : Err :=
  tpl ["TypeError: Cannot read properties of null (reading '"; key; "')"].

End MoreSamples.


(* ================================================================== *)
(** ** Facts about the structural differ *)
(* ================================================================== *)

Module DiffFacts.
Import Js Diff DiffSpec.

(** *** Lists *)

Lemma flat_map_all_nil {A B} (f : A -> list B) (l : list A) :
  (forall x, In x l -> f x = []) -> flat_map f l = [].
Proof.
  induction l as [|a l IH]; intros H; simpl; [reflexivity|].
  rewrite (H a (or_introl eq_refl)), IH; [reflexivity|].
  intros x Hx. apply H. now right.
Qed.

Lemma list_max_In (l : list nat) (n : nat) : In n l -> n <= list_max l.
Proof.
  induction l as [|a l IH]; simpl; [tauto|].
  intros [-> |H]; [lia|]. specialize (IH H). lia.
Qed.

(** *** Depth of members *)

Lemma depth_item (items : list JValue) (x : JValue) :
  In x items -> depth x < depth (JArr items).
Proof.
  intros H. simpl. apply Nat.lt_succ_r, list_max_In, in_map_iff. eauto.
Qed.

Lemma depth_field (fields : list (string * JValue)) (k : string) (x : JValue) :
  prop fields k = Some x -> depth x < depth (JObj fields).
Proof.
  intros H. simpl. apply Nat.lt_succ_r, list_max_In, in_map_iff.
  induction fields as [|[k0 v0] rest IH]; simpl in H; [discriminate|].
  destruct (String.eqb k0 k).
  - injection H as ->. exists (k0, x). simpl. auto.
  - destruct (IH H) as [kv [E I]]. exists kv. simpl. auto.
Qed.

Lemma depth_get (v : JValue) (key : string) :
  typeof v = TObject -> nullish v = false -> depth (get v key) < depth v.
Proof.
  destruct v; simpl; try discriminate; intros _ _.
  - destruct (index_of_key (List.length items) key) as [i|].
    + destruct (nth_in_or_default i items JUndefined) as [H| ->].
      * apply depth_item in H. simpl in H. exact H.
      * simpl. lia.
    + destruct (String.eqb key "length"); simpl; lia.
  - destruct (prop fields key) as [x|] eqn:E.
    + apply depth_field in E. exact E.
    + simpl. lia.
Qed.

(** *** The map of a [Map] *)

Lemma Map_get_set_same {V} (m : JsMap V) k v : Map_get (Map_set m k v) k = Some v.
Proof.
  induction m as [|[k0 v0] m IH]; simpl.
  - now rewrite String.eqb_refl.
  - destruct (String.eqb k0 k) eqn:E; simpl; rewrite E; auto.
Qed.

Lemma Map_get_set_other {V} (m : JsMap V) k v k' :
  k <> k' -> Map_get (Map_set m k v) k' = Map_get m k'.
Proof.
  intros N. induction m as [|[k0 v0] m IH]; simpl.
  - apply String.eqb_neq in N. now rewrite N.
  - destruct (String.eqb k0 k) eqn:E; simpl.
    + apply String.eqb_eq in E. subst k0.
      apply String.eqb_neq in N. now rewrite N.
    + destruct (String.eqb k0 k'); auto.
Qed.

Lemma Map_get_In {V} (m : JsMap V) k v : Map_get m k = Some v -> In (k, v) m.
Proof.
  induction m as [|[k0 v0] m IH]; simpl; [discriminate|].
  destruct (String.eqb k0 k) eqn:E.
  - apply String.eqb_eq in E. intros [= ->]. left. now subst.
  - intros H. right. auto.
Qed.

Lemma Map_keys_set_In {V} (m : JsMap V) k v x :
  In x (Map_keys (Map_set m k v)) -> x = k \/ In x (Map_keys m).
Proof.
  unfold Map_keys. induction m as [|[k0 v0] m IH]; simpl.
  - intros [-> |[]]. now left.
  - destruct (String.eqb k0 k); simpl; intros [-> |H]; auto.
    destruct (IH H); auto.
Qed.

Lemma Map_keys_set {V} (m : JsMap V) k v :
  NoDup (Map_keys m) -> NoDup (Map_keys (Map_set m k v)).
Proof.
  induction m as [|[k0 v0] m IH]; simpl; intros ND.
  - constructor; [intros []|constructor].
  - inversion ND as [|? ? Hn ND']; subst.
    destruct (String.eqb k0 k) eqn:E; simpl.
    + constructor; assumption.
    + constructor; [|now apply IH].
      intros Hin. destruct (Map_keys_set_In _ _ _ _ Hin) as [-> |H]; [|contradiction].
      now rewrite String.eqb_refl in E.
Qed.

Lemma In_Map_get {V} (m : JsMap V) k v :
  NoDup (Map_keys m) -> In (k, v) m -> Map_get m k = Some v.
Proof.
  unfold Map_keys. induction m as [|[k0 v0] m IH]; simpl; [tauto|].
  intros ND [E|H].
  - injection E as -> ->. now rewrite String.eqb_refl.
  - inversion ND as [|? ? Hn ND']; subst.
    destruct (String.eqb k0 k) eqn:E.
    + apply String.eqb_eq in E. subst k0. exfalso. apply Hn.
      apply in_map_iff. exists (k, v). auto.
    + auto.
Qed.


Lemma In_Map_set {V} (m : JsMap V) k v k' v' :
  In (k', v') (Map_set m k v) -> (k' = k /\ v' = v) \/ In (k', v') m.
Proof.
  induction m as [|[k0 v0] m IH]; simpl.
  - intros [[= <- <-]|[]]. now left.
  - destruct (String.eqb k0 k) eqn:E; simpl.
    + apply String.eqb_eq in E. subst k0.
      intros [[= <- <-]|H]; auto.
    + intros [H|H]; auto. destruct (IH H); auto.
Qed.

Lemma flat_map_ext_In {A B} (f g : A -> list B) (l : list A) :
  (forall x, In x l -> f x = g x) -> flat_map f l = flat_map g l.
Proof.
  induction l as [|a l IH]; intros H; simpl; [reflexivity|].
  rewrite (H a (or_introl eq_refl)), IH; [reflexivity|].
  intros x Hx. apply H. now right.
Qed.

(** *** The entries collected from an array *)

Lemma collectItems_In items : forall idx acc k item i,
  In (k, (item, i)) (collectItems items idx acc) ->
  In (k, (item, i)) acc
  \/ (idx <= i /\ nth_error items (i - idx) = Some item /\ k = getItemKey item i).
Proof.
  induction items as [|x rest IH]; simpl; intros idx acc k item i H; [now left|].
  destruct (IH _ _ _ _ _ H) as [H1|(Hle & Hn & Hk)].
  - destruct (In_Map_set _ _ _ _ _ H1) as [[-> [= -> ->]]|H2]; [|now left].
    right. rewrite Nat.sub_diag. simpl. auto.
  - right. split; [lia|]. split; [|assumption].
    replace (i - idx) with (S (i - S idx)) by lia. exact Hn.
Qed.

Lemma itemsOf_In items k item i :
  In (k, (item, i)) (itemsOf items) ->
  nth_error items i = Some item /\ k = getItemKey item i.
Proof.
  intros H. destruct (collectItems_In _ _ _ _ _ _ H) as [[]|(_ & Hn & Hk)].
  rewrite Nat.sub_0_r in Hn. auto.
Qed.

Lemma collectItems_NoDup items : forall idx acc,
  NoDup (Map_keys acc) -> NoDup (Map_keys (collectItems items idx acc)).
Proof.
  induction items as [|x rest IH]; simpl; intros idx acc H; [assumption|].
  apply IH, Map_keys_set, H.
Qed.

Lemma itemsOf_NoDup items : NoDup (Map_keys (itemsOf items)).
Proof. apply collectItems_NoDup. constructor. Qed.

Lemma collectItems_has items : forall idx acc k,
  Map_has acc k = true
  \/ (exists j item, nth_error items j = Some item /\ getItemKey item (idx + j) = k) ->
  Map_has (collectItems items idx acc) k = true.
Proof.
  induction items as [|x rest IH]; simpl; intros idx acc k H.
  - destruct H as [H|(j & item & Hn & _)]; [assumption|].
    destruct j; discriminate.
  - apply IH.
    destruct (String.eqb (getItemKey x idx) k) eqn:E.
    + apply String.eqb_eq in E. subst k. left.
      unfold Map_has. now rewrite Map_get_set_same.
    + apply String.eqb_neq in E.
      destruct H as [H|(j & item & Hn & Hk)].
      * left. unfold Map_has. now rewrite Map_get_set_other.
      * destruct j as [|j]; simpl in Hn.
        -- injection Hn as <-. rewrite Nat.add_0_r in Hk. contradiction.
        -- right. exists j, item. split; [assumption|].
           now rewrite <- Hk, Nat.add_succ_r.
Qed.

Lemma itemsOf_has items j item :
  nth_error items j = Some item ->
  Map_has (itemsOf items) (getItemKey item j) = true.
Proof.
  intros H. apply collectItems_has. right. exists j, item. auto.
Qed.

(** *** The recursive equation of [findJsonDifferences] *)

Lemma compareArrays_with_ext r1 r2 base target path :
  (forall x t p, In x base -> r1 x t p = r2 x t p) ->
  compareArrays_with r1 base target path = compareArrays_with r2 base target path.
Proof.
  intros H. unfold compareArrays_with. do 2 f_equal.
  apply flat_map_ext_In. intros [k [item i]] Hin. simpl.
  destruct (Map_get (itemsOf target) k); [|reflexivity].
  apply H. apply itemsOf_In in Hin. destruct Hin as [Hn _].
  eapply nth_error_In, Hn.
Qed.

Lemma findJsonDifferences_body_ext r1 r2 base target path :
  (forall x t p, depth x < depth base -> r1 x t p = r2 x t p) ->
  findJsonDifferences_body r1 base target path
  = findJsonDifferences_body r2 base target path.
Proof.
  intros H. unfold findJsonDifferences_body.
  destruct (nullish base) eqn:Nb; [reflexivity|].
  destruct (nullish target); [reflexivity|].
  destruct (negb (JsType_eqb (typeof base) (typeof target))); [reflexivity|].
  assert (Obj : forall tgt keys,
    typeof base = TObject ->
    flat_map (fun key =>
      let newPath := if truthy path then tpl [path; "."; key] else key in
      if negb (has_in key base) then
        [tpl ["+ "; newPath; ": "; formatValue (get tgt key)]]
      else if negb (has_in key tgt) then
        [tpl ["- "; newPath; ": "; formatValue (get base key)]]
      else r1 (get base key) (get tgt key) newPath) keys
    = flat_map (fun key =>
      let newPath := if truthy path then tpl [path; "."; key] else key in
      if negb (has_in key base) then
        [tpl ["+ "; newPath; ": "; formatValue (get tgt key)]]
      else if negb (has_in key tgt) then
        [tpl ["- "; newPath; ": "; formatValue (get base key)]]
      else r2 (get base key) (get tgt key) newPath) keys).
  { intros tgt keys T. apply flat_map_ext_In. intros key _. cbv zeta.
    destruct (negb (has_in key base)); [reflexivity|].
    destruct (negb (has_in key tgt)); [reflexivity|].
    apply H, depth_get; assumption. }
  destruct base; try reflexivity; try discriminate;
    destruct target; try reflexivity;
    try (apply Obj; reflexivity).
  apply compareArrays_with_ext. intros x t p Hin. apply H, depth_item, Hin.
Qed.

Lemma findJsonDifferences_fuel_enough n : forall m base target path,
  depth base < n -> depth base < m ->
  findJsonDifferences_fuel n base target path
  = findJsonDifferences_fuel m base target path.
Proof.
  induction n as [|n IH]; intros m base target path Hn Hm; [lia|].
  destruct m as [|m]; [lia|]. simpl.
  apply findJsonDifferences_body_ext. intros x t p Hx.
  apply IH; lia.
Qed.

(** [findJsonDifferences] satisfies the recursive definition of the source. *)
Lemma findJsonDifferences_eq base target path :
  findJsonDifferences base target path
  = findJsonDifferences_body findJsonDifferences base target path.
Proof.
  unfold findJsonDifferences at 1. simpl.
  apply findJsonDifferences_body_ext. intros x t p Hx.
  unfold findJsonDifferences. apply findJsonDifferences_fuel_enough; lia.
Qed.


(** *** Reflexivity *)

Lemma Set_of_aux_In xs : forall seen x, In x (Set_of_aux seen xs) -> In x xs.
Proof.
  induction xs as [|y rest IH]; simpl; intros seen x H; [assumption|].
  destruct (existsb (String.eqb y) seen).
  - right. eapply IH, H.
  - destruct H as [H|H]; [now left|]. right. eapply IH, H.
Qed.

Lemma prop_of_key fields k :
  In k (map fst fields) -> is_some (prop fields k) = true.
Proof.
  induction fields as [|[k0 v0] rest IH]; simpl; [tauto|].
  intros [-> |H].
  - now rewrite String.eqb_refl.
  - destruct (String.eqb k0 k); auto.
Qed.

Lemma itemsOf_get items k item i :
  In (k, (item, i)) (itemsOf items) -> Map_get (itemsOf items) k = Some (item, i).
Proof. apply In_Map_get, itemsOf_NoDup. Qed.

Lemma compareArrays_with_refl recur items path :
  (forall x p, In x items -> recur x x p = []) ->
  compareArrays_with recur items items path = [].
Proof.
  intros H. unfold compareArrays_with.
  rewrite !flat_map_all_nil; [reflexivity| | |].
  - intros [k [item i]] Hin. simpl.
    rewrite (itemsOf_get _ _ _ _ Hin). simpl.
    apply H. apply itemsOf_In in Hin. eapply nth_error_In, Hin.
  - intros [k [item i]] Hin. simpl. unfold Map_has.
    now rewrite (itemsOf_get _ _ _ _ Hin).
  - intros [k [item i]] Hin. simpl. unfold Map_has.
    now rewrite (itemsOf_get _ _ _ _ Hin).
Qed.

(** A value has no difference with itself, at any path. *)
Lemma findJsonDifferences_same n : forall x path,
  depth x < n -> findJsonDifferences x x path = [].
Proof.
  induction n as [|n IH]; intros x path Hd; [lia|].
  rewrite findJsonDifferences_eq. unfold findJsonDifferences_body.
  destruct x as [| |b|z|s|items|fields]; simpl; try reflexivity.
  - now rewrite Bool.eqb_reflx.
  - now rewrite Z.eqb_refl.
  - now rewrite String.eqb_refl.
  - apply compareArrays_with_refl. intros x p Hin. apply IH.
    apply depth_item in Hin. lia.
  - apply flat_map_all_nil. intros key Hin.
    apply Set_of_aux_In, in_app_or in Hin.
    assert (Hk : In key (map fst fields)) by tauto.
    rewrite (prop_of_key _ _ Hk). simpl.
    apply IH.
    pose proof (depth_get (JObj fields) key eq_refl eq_refl) as Hg.
    simpl in Hg. simpl in Hd. lia.
Qed.

(** *** Reordering of named members *)

Lemma getItemKey_named item name i :
  nameField item = Some name -> getItemKey item i = name.
Proof.
  destruct item; simpl; try discriminate.
  destruct (prop fields "name") as [[]|]; try discriminate.
  now intros [= ->].
Qed.

Lemma NoDup_map_eq {A B} (f : A -> B) (l : list A) x y :
  NoDup (map f l) -> In x l -> In y l -> f x = f y -> x = y.
Proof.
  induction l as [|a l IH]; simpl; [tauto|].
  intros ND Hx Hy E. inversion ND as [|? ? Hn ND']; subst.
  destruct Hx as [-> |Hx], Hy as [-> |Hy]; auto.
  - exfalso. apply Hn. rewrite E. now apply in_map.
  - exfalso. apply Hn. rewrite <- E. now apply in_map.
Qed.

Lemma compareArrays_with_reordered recur base target path :
  (forall x p, recur x x p = []) ->
  Permutation base target ->
  (forall x, In x base -> nameField x <> None) ->
  NoDup (map nameField base) ->
  compareArrays_with recur base target path = [].
Proof.
  intros Hrefl Hperm Hnamed Hnd.
  assert (Key : forall l x i, In x base -> nth_error l i = Some x ->
                exists name, nameField x = Some name /\ getItemKey x i = name).
  { intros l x i Hin _. destruct (nameField x) as [name|] eqn:E.
    - exists name. split; [reflexivity|]. now apply getItemKey_named.
    - now apply Hnamed in Hin. }
  assert (Has : forall l l' k item i, Permutation l l' ->
                (forall x, In x l -> In x base) ->
                In (k, (item, i)) (itemsOf l) -> Map_has (itemsOf l') k = true).
  { intros l l' k item i P Sub Hin. apply itemsOf_In in Hin.
    destruct Hin as [Hn ->].
    assert (Hb : In item base) by (eapply Sub, nth_error_In, Hn).
    assert (Hl' : In item l') by (eapply Permutation_in, nth_error_In; eauto).
    apply In_nth_error in Hl'. destruct Hl' as [j Hj].
    destruct (Key l item i Hb Hn) as (name & E & ->).
    rewrite <- (getItemKey_named item name j E).
    now apply itemsOf_has. }
  unfold compareArrays_with.
  rewrite !flat_map_all_nil; [reflexivity| | |].
  - intros [k [item i]] Hin. simpl.
    destruct (Map_get (itemsOf target) k) as [[titem j]|] eqn:G; [|reflexivity].
    simpl. apply Map_get_In, itemsOf_In in G. destruct G as [Gn Gk].
    apply itemsOf_In in Hin. destruct Hin as [Hn Hk].
    assert (Hb : In item base) by (eapply nth_error_In, Hn).
    assert (Tb : In titem base).
    { eapply Permutation_in; [apply Permutation_sym, Hperm|].
      eapply nth_error_In, Gn. }
    destruct (Key base item i Hb Hn) as (n1 & E1 & K1).
    destruct (Key target titem j Tb Gn) as (n2 & E2 & K2).
    assert (item = titem) as <-.
    { apply (NoDup_map_eq nameField base); auto. congruence. }
    apply Hrefl.
  - intros [k [item i]] Hin. simpl.
    rewrite (Has target base k item i); auto.
    + now apply Permutation_sym.
    + intros x Hx. eapply Permutation_in; [apply Permutation_sym, Hperm|exact Hx].
  - intros [k [item i]] Hin. simpl.
    rewrite (Has base target k item i); auto.
Qed.

(** *** Members shadowed by a later member with the same key *)

Lemma collectItems_app l1 : forall l2 idx acc,
  collectItems (l1 ++ l2) idx acc
  = collectItems l2 (idx + List.length l1) (collectItems l1 idx acc).
Proof.
  induction l1 as [|x l1 IH]; simpl; intros l2 idx acc.
  - now rewrite Nat.add_0_r.
  - rewrite IH. f_equal. lia.
Qed.

Lemma differ_at_set_same {V} key (m m' : JsMap V) v :
  differ_at key m m' -> Map_set m key v = Map_set m' key v.
Proof.
  induction 1 as [v1 v2 rest|k v0 m m' N D IH]; simpl.
  - now rewrite String.eqb_refl.
  - apply String.eqb_neq in N. rewrite N. now f_equal.
Qed.

Lemma differ_at_set_other {V} key (m m' : JsMap V) k v :
  differ_at key m m' -> k <> key ->
  differ_at key (Map_set m k v) (Map_set m' k v).
Proof.
  intros D N. induction D as [v1 v2 rest|k0 v0 m m' N0 D IH]; simpl.
  - assert (E : String.eqb key k = false) by (apply String.eqb_neq; congruence).
    rewrite E. constructor.
  - destruct (String.eqb k0 k); constructor; assumption.
Qed.

Lemma differ_at_first_set {V} key (m : JsMap V) v v' :
  differ_at key (Map_set m key v) (Map_set m key v').
Proof.
  induction m as [|[k0 v0] m IH]; simpl.
  - constructor.
  - destruct (String.eqb k0 key) eqn:E.
    + apply String.eqb_eq in E. subst k0. constructor.
    + apply String.eqb_neq in E. constructor; assumption.
Qed.

Lemma collectItems_differ items : forall idx key m m',
  differ_at key m m' ->
  (exists j y, nth_error items j = Some y /\ getItemKey y (idx + j) = key) ->
  collectItems items idx m = collectItems items idx m'.
Proof.
  induction items as [|a rest IH]; simpl; intros idx key m m' D (j & y & Hn & Hk).
  - destruct j; discriminate.
  - destruct (String.eqb (getItemKey a idx) key) eqn:E.
    + apply String.eqb_eq in E. rewrite E.
      now rewrite (differ_at_set_same key m m' (a, idx) D).
    + apply String.eqb_neq in E.
      apply (IH (S idx) key).
      * apply differ_at_set_other; assumption.
      * destruct j as [|j]; simpl in Hn.
        -- injection Hn as <-. rewrite Nat.add_0_r in Hk. contradiction.
        -- exists j, y. split; [assumption|]. now rewrite <- Hk, Nat.add_succ_r.
Qed.

Lemma collectItems_get_later items : forall idx lo acc key,
  lo <= idx ->
  (exists y j, Map_get acc key = Some (y, j) /\ lo <= j)
  \/ (exists j y, nth_error items j = Some y /\ getItemKey y (idx + j) = key) ->
  exists y j, Map_get (collectItems items idx acc) key = Some (y, j) /\ lo <= j.
Proof.
  induction items as [|a rest IH]; simpl; intros idx lo acc key Hlo H.
  - destruct H as [H|(j & y & Hn & _)]; [assumption|]. destruct j; discriminate.
  - apply IH; [lia|].
    destruct (String.eqb (getItemKey a idx) key) eqn:E.
    + apply String.eqb_eq in E. subst key. left. exists a, idx.
      now rewrite Map_get_set_same.
    + apply String.eqb_neq in E.
      destruct H as [(y & j & Hg & Hj)|(j & y & Hn & Hk)].
      * left. exists y, j. now rewrite Map_get_set_other.
      * destruct j as [|j]; simpl in Hn.
        -- injection Hn as <-. rewrite Nat.add_0_r in Hk. contradiction.
        -- right. exists j, y. split; [assumption|]. now rewrite <- Hk, Nat.add_succ_r.
Qed.

Lemma itemsOf_shadowed before x x' after :
  getItemKey x' (List.length before) = getItemKey x (List.length before) ->
  (exists j y, nth_error after j = Some y
               /\ getItemKey y (S (List.length before) + j)
                  = getItemKey x (List.length before)) ->
  itemsOf (before ++ x :: after) = itemsOf (before ++ x' :: after).
Proof.
  intros Hk Hlater. unfold itemsOf. rewrite !collectItems_app. simpl.
  rewrite Hk.
  apply (collectItems_differ after _ (getItemKey x (List.length before))).
  - apply differ_at_first_set.
  - exact Hlater.
Qed.

Lemma itemsOf_entry_later before x after :
  (exists j y, nth_error after j = Some y
               /\ getItemKey y (S (List.length before) + j)
                  = getItemKey x (List.length before)) ->
  exists y j, Map_get (itemsOf (before ++ x :: after))
                (getItemKey x (List.length before)) = Some (y, j)
              /\ List.length before < j.
Proof.
  intros Hlater. unfold itemsOf. rewrite collectItems_app. simpl.
  apply collectItems_get_later; [lia|]. right. exact Hlater.
Qed.

(** The entry of a key is the last member that has the key. *)
Lemma collectItems_get_last items : forall idx acc k y j,
  Map_get (collectItems items idx acc) k = Some (y, j) ->
  (Map_get acc k = Some (y, j)
   /\ forall i z, nth_error items i = Some z -> getItemKey z (idx + i) <> k)
  \/ (idx <= j /\ nth_error items (j - idx) = Some y /\ getItemKey y j = k
      /\ forall i z, j - idx < i -> nth_error items i = Some z ->
                     getItemKey z (idx + i) <> k).
Proof.
  induction items as [|a rest IH]; simpl; intros idx acc k y j H.
  - left. split; [exact H|]. intros [|i] z Hz; discriminate Hz.
  - destruct (IH _ _ _ _ _ H) as [[Hg Hno]|(Hle & Hn & Hk & Hafter)].
    + destruct (String.eqb (getItemKey a idx) k) eqn:E.
      * apply String.eqb_eq in E. subst k.
        rewrite Map_get_set_same in Hg. injection Hg as <- <-.
        right. rewrite Nat.sub_diag. repeat split; auto.
        intros [|i] z Hi Hz; [lia|]. simpl in Hz.
        rewrite Nat.add_succ_r. now apply (Hno i z).
      * apply String.eqb_neq in E. rewrite Map_get_set_other in Hg by exact E.
        left. split; [exact Hg|].
        intros [|i] z Hz; simpl in Hz.
        -- injection Hz as <-. now rewrite Nat.add_0_r.
        -- rewrite Nat.add_succ_r. now apply (Hno i z).
    + right. split; [lia|].
      replace (j - idx) with (S (j - S idx)) by lia. simpl.
      repeat split; auto.
      intros [|i] z Hi Hz; [lia|]. simpl in Hz.
      rewrite Nat.add_succ_r. apply (Hafter i z); [lia|exact Hz].
Qed.

Lemma itemsOf_get_last items k y j :
  Map_get (itemsOf items) k = Some (y, j) ->
  nth_error items j = Some y /\ getItemKey y j = k
  /\ forall i z, j < i -> nth_error items i = Some z -> getItemKey z i <> k.
Proof.
  intros H. destruct (collectItems_get_last _ _ _ _ _ _ H)
    as [[Hg _]|(_ & Hn & Hk & Hafter)]; [discriminate Hg|].
  rewrite Nat.sub_0_r in Hn. repeat split; auto.
  intros i z Hi Hz. apply (Hafter i z); [lia|exact Hz].
Qed.

(** *** A change of type *)

Lemma findJsonDifferences_type_change base target path :
  nullish base = false -> nullish target = false ->
  JsType_eqb (typeof base) (typeof target) = false ->
  findJsonDifferences base target path
  = [tpl ["- "; or_else path "root"; ": "; formatValue base];
     tpl ["+ "; or_else path "root"; ": "; formatValue target]].
Proof.
  intros Hb Ht Hty. rewrite findJsonDifferences_eq.
  unfold findJsonDifferences_body. now rewrite Hb, Ht, Hty.
Qed.


(** *** The sets of endpoints and the comparators *)

Lemma Set_of_aux_complete xs : forall seen x,
  In x xs -> In x seen \/ In x (Set_of_aux seen xs).
Proof.
  induction xs as [|y rest IH]; simpl; intros seen x H; [tauto|].
  destruct (existsb (String.eqb y) seen) eqn:E.
  - destruct H as [<- |H]; [|now apply IH].
    left. apply existsb_exists in E. destruct E as (z & Hz & Ez).
    apply String.eqb_eq in Ez. now subst.
  - destruct H as [<- |H]; [right; now left|].
    destruct (IH (y :: seen) x H) as [[<- |Hs]|Hr]; simpl; auto.
Qed.

Lemma Set_of_complete xs x : In x xs -> In x (Set_of xs).
Proof.
  intros H. destruct (Set_of_aux_complete xs [] x H) as [[]|H']. exact H'.
Qed.

Lemma Map_get_key {V} (m : JsMap V) k v : Map_get m k = Some v -> In k (Map_keys m).
Proof.
  intros H. apply Map_get_In in H. unfold Map_keys.
  apply in_map_iff. exists (k, v). auto.
Qed.

Lemma compareEndpoint_endpoint parse baseFiles targetFiles e d :
  In d (compareEndpoint parse baseFiles targetFiles e) -> endpoint d = e.
Proof.
  unfold compareEndpoint.
  repeat match goal with
         | |- context [if ?c then _ else _] => destruct c
         | |- context [match ?c with Some _ => _ | None => _ end] => destruct c
         end; simpl; intros H; repeat destruct H as [H|H]; subst; auto; contradiction.
Qed.

End DiffFacts.

(* ================================================================== *)
(** ** The structural differ: main results *)
(* ================================================================== *)

Module DiffTheorems.
Import Js Diff DiffSpec DiffFacts Samples.

(** The scenarios of the specification: a tool added to a reordered list,
    and a description changed. *)
Example scenario_tool_added :
  findJsonDifferences (JArr [namedA; namedB]) (JArr [namedB; namedA; namedC]) ""
  = [tpl ["+ [c]: {"; quote "name"; ":"; quote "c"; "}"]].
Proof. reflexivity. Qed.

Example scenario_description_changed :
  findJsonDifferences
    (JArr [JObj [("name", JStr "a"); ("description", JStr "old")]])
    (JArr [JObj [("name", JStr "a"); ("description", JStr "new")]]) ""
  = [tpl ["- [a].description: "; quote "old"];
     tpl ["+ [a].description: "; quote "new"]].
Proof. reflexivity. Qed.

(** C6. When base and target are both present but of different runtime
    kinds, the differ is to emit one removed line and one added line and not
    to recurse.  For an array against a non-array object the code does not do
    so: both have [typeof] "object", so they are compared key by key as
    objects.  An empty array against an empty object yields no line at all,
    and a one-element array against an object yields lines for their keys. *)
Theorem C6_array_against_object :
  nullish (JArr []) = false /\ nullish (JObj []) = false
  /\ isArray (JArr []) = true /\ isArray (JObj []) = false
  /\ findJsonDifferences (JArr []) (JObj []) "" = []
  /\ findJsonDifferences (JObj [("items", JArr [])]) (JObj [("items", JObj [])]) ""
     = []
  /\ findJsonDifferences (JArr [JNum 1]) (JObj [("a", JNum 2)]) "p"
     = ["- p.0: 1"; "+ p.a: 2"].
Proof. repeat split; reflexivity. Qed.

(** C7, as amended.  Two arrays that contain the same members in possibly
    different orders, every member carrying a string [name] and no two
    members sharing a name, have no difference at any path. *)
Theorem C7_reordered_distinct_names (base target : list JValue) (path : string) :
  Permutation base target ->
  (forall x, In x base -> nameField x <> None) ->
  NoDup (map nameField base) ->
  findJsonDifferences (JArr base) (JArr target) path = [].
Proof.
  intros Hperm Hnamed Hnd.
  rewrite findJsonDifferences_eq. unfold findJsonDifferences_body. simpl.
  apply compareArrays_with_reordered; auto.
  intros x p. apply (findJsonDifferences_same (S (depth x))). lia.
Qed.

Lemma C7_reordered_witness :
  Permutation [toolA; toolB] [toolB; toolA]
  /\ findJsonDifferences (JArr [toolA; toolB]) (JArr [toolB; toolA]) "tools" = [].
Proof.
  split; [apply perm_swap|].
  apply C7_reordered_distinct_names.
  - apply perm_swap.
  - intros x [<- |[<- |[]]]; discriminate.
  - repeat constructor; simpl; intuition discriminate.
Defined.

(** C7, as stated, fails when two members share a name: the later one
    shadows the earlier one on each side, so a mere reordering is reported
    as a change. *)
Lemma C7_counterexample_shared_name :
  Permutation [twinOne; twinTwo] [twinTwo; twinOne]
  /\ nameField twinOne = Some "a" /\ nameField twinTwo = Some "a"
  /\ findJsonDifferences (JArr [twinOne; twinTwo]) (JArr [twinTwo; twinOne]) ""
     = ["- [a].v: 2"; "+ [a].v: 1"].
Proof. split; [apply perm_swap|]. repeat split; reflexivity. Qed.

(** C8. The structural diff is reflexive: a value, however nested, has no
    difference with itself at the empty path. *)
Theorem C8_diff_reflexive (x : JValue) : findJsonDifferences x x "" = [].
Proof. apply (findJsonDifferences_same (S (depth x))). lia. Qed.

End DiffTheorems.

(* ================================================================== *)
(** ** The two snapshot comparators *)
(* ================================================================== *)

Module CompareFacts.
Import Js Diff Eff Runner DiffFacts Samples.

Lemma compareResultsStep_other branchFiles baseFiles diffs e e' :
  e' <> e ->
  Map_get (compareResultsStep branchFiles baseFiles diffs e') e = Map_get diffs e.
Proof.
  intros N. unfold compareResultsStep.
  repeat match goal with
         | |- context [if ?c then _ else _] => destruct c
         | |- context [match ?c with Some _ => _ | None => _ end] => destruct c
         end; try reflexivity; now apply Map_get_set_other.
Qed.

(** An endpoint whose turn of the loop always stores [message] ends up with
    [message]. *)
Lemma compareResults_fold branchFiles baseFiles e message endpoints :
  (forall diffs,
     Map_get (compareResultsStep branchFiles baseFiles diffs e) e = Some message) ->
  forall diffs,
    Map_get diffs e = Some message \/ In e endpoints ->
    Map_get (fold_left (compareResultsStep branchFiles baseFiles) endpoints diffs) e
    = Some message.
Proof.
  intros Hstep. induction endpoints as [|a rest IH]; simpl; intros diffs H.
  - destruct H as [H|[]]. exact H.
  - apply IH. destruct (string_dec a e) as [-> |N].
    + left. apply Hstep.
    + destruct H as [H|[H|H]]; [| contradiction | now right].
      left. now rewrite compareResultsStep_other.
Qed.

Lemma compareResults_removed branchFiles baseFiles e content :
  truthy_opt (Map_get branchFiles e) = false ->
  Map_get baseFiles e = Some content -> truthy content = true ->
  Map_get (compareResults branchFiles baseFiles) e
  = Some "Endpoint removed in current branch (was present in base)".
Proof.
  intros Hb Ha Ht. unfold compareResults. apply compareResults_fold.
  - intros diffs. unfold compareResultsStep. rewrite Hb, Ha. simpl. rewrite Ht.
    simpl. apply Map_get_set_same.
  - right. apply Set_of_complete, in_or_app. right. eapply Map_get_key, Ha.
Qed.

Lemma compareResults_added branchFiles baseFiles e content :
  Map_get branchFiles e = Some content -> truthy content = true ->
  truthy_opt (Map_get baseFiles e) = false ->
  Map_get (compareResults branchFiles baseFiles) e
  = Some "Endpoint added in current branch (not present in base)".
Proof.
  intros Hb Ht Ha. unfold compareResults. apply compareResults_fold.
  - intros diffs. unfold compareResultsStep. rewrite Hb, Ha. simpl. rewrite Ht.
    simpl. apply Map_get_set_same.
  - right. apply Set_of_complete, in_or_app. left. eapply Map_get_key, Hb.
Qed.

Lemma compareFiles_In parse baseFiles targetFiles e d :
  In e (Map_keys baseFiles ++ Map_keys targetFiles) ->
  In d (compareEndpoint parse baseFiles targetFiles e) ->
  In d (compareFiles parse baseFiles targetFiles).
Proof.
  intros He Hd. unfold compareFiles. apply in_flat_map.
  exists e. split; [now apply Set_of_complete|exact Hd].
Qed.

Lemma compareFiles_only parse baseFiles targetFiles e d :
  In d (compareFiles parse baseFiles targetFiles) -> endpoint d = e ->
  In d (compareEndpoint parse baseFiles targetFiles e).
Proof.
  unfold compareFiles. intros H E. apply in_flat_map in H.
  destruct H as (e' & _ & Hd).
  pose proof (compareEndpoint_endpoint _ _ _ _ _ Hd) as E'. congruence.
Qed.

(** C10. An endpoint whose serialized content is the empty string is
    treated as an absent endpoint.  When one snapshot has the empty string
    for an endpoint and the other has non-empty content, the comparison of the
    runner stores the "removed" or "added" message for that endpoint, the
    structured comparison has that message as its only entry for the
    endpoint, and in both the turn of the loop does exactly what it does
    when the endpoint is missing from the map. *)
Theorem C10_empty_content_as_absent
    (JSON_parse : string -> option JValue)
    (toFiles : ProbeResult -> JsMap string)
    (emptySide fullSide : ProbeResult) (e content : string) :
  Map_get (toFiles emptySide) e = Some "" ->
  Map_get (toFiles fullSide) e = Some content ->
  truthy content = true ->
  (Map_get (compareResults (toFiles emptySide) (toFiles fullSide)) e
   = Some "Endpoint removed in current branch (was present in base)"
   /\ Map_get (compareResults (toFiles fullSide) (toFiles emptySide)) e
      = Some "Endpoint added in current branch (not present in base)")
  /\ (forall d, In d (compareProbeResults JSON_parse toFiles emptySide fullSide) ->
                endpoint d = e ->
                d = {| endpoint := e;
                       diff := "Endpoint added in target (not present in base)" |})
  /\ In {| endpoint := e; diff := "Endpoint added in target (not present in base)" |}
        (compareProbeResults JSON_parse toFiles emptySide fullSide)
  /\ (forall d, In d (compareProbeResults JSON_parse toFiles fullSide emptySide) ->
                endpoint d = e ->
                d = {| endpoint := e;
                       diff := "Endpoint removed in target (was present in base)" |})
  /\ In {| endpoint := e; diff := "Endpoint removed in target (was present in base)" |}
        (compareProbeResults JSON_parse toFiles fullSide emptySide)
  /\ (forall absent diffs,
        Map_get absent e = None ->
        compareResultsStep absent (toFiles fullSide) diffs e
        = compareResultsStep (toFiles emptySide) (toFiles fullSide) diffs e
        /\ compareResultsStep (toFiles fullSide) absent diffs e
           = compareResultsStep (toFiles fullSide) (toFiles emptySide) diffs e
        /\ compareEndpoint JSON_parse absent (toFiles fullSide) e
           = compareEndpoint JSON_parse (toFiles emptySide) (toFiles fullSide) e
        /\ compareEndpoint JSON_parse (toFiles fullSide) absent e
           = compareEndpoint JSON_parse (toFiles fullSide) (toFiles emptySide) e).
Proof.
  intros He Hf Ht.
  assert (Added : compareEndpoint JSON_parse (toFiles emptySide) (toFiles fullSide) e
                  = [{| endpoint := e;
                        diff := "Endpoint added in target (not present in base)" |}]).
  { unfold compareEndpoint. rewrite He, Hf. simpl. now rewrite Ht. }
  assert (Removed : compareEndpoint JSON_parse (toFiles fullSide) (toFiles emptySide) e
                    = [{| endpoint := e;
                          diff := "Endpoint removed in target (was present in base)" |}]).
  { unfold compareEndpoint. rewrite He, Hf. simpl. now rewrite Ht. }
  assert (Ke : In e (Map_keys (toFiles emptySide))) by (eapply Map_get_key, He).
  split; [split|].
  - eapply compareResults_removed; eauto. now rewrite He.
  - eapply compareResults_added; eauto. now rewrite He.
  - unfold compareProbeResults. repeat split.
    + intros d Hd Ed. apply (compareFiles_only _ _ _ e) in Hd; [|exact Ed].
      rewrite Added in Hd. destruct Hd as [<- |[]]. reflexivity.
    + apply (compareFiles_In _ _ _ e); [apply in_or_app; now left|].
      rewrite Added. now left.
    + intros d Hd Ed. apply (compareFiles_only _ _ _ e) in Hd; [|exact Ed].
      rewrite Removed in Hd. destruct Hd as [<- |[]]. reflexivity.
    + apply (compareFiles_In _ _ _ e); [apply in_or_app; now right|].
      rewrite Removed. now left.
    + unfold compareResultsStep. rewrite H, He, Hf. simpl. now rewrite Ht.
    + unfold compareResultsStep. rewrite H, He, Hf. simpl. now rewrite Ht.
    + rewrite Added. unfold compareEndpoint. rewrite H, Hf. simpl. now rewrite Ht.
    + rewrite Removed. unfold compareEndpoint. rewrite H, Hf. simpl. now rewrite Ht.
Qed.

Lemma C10_empty_content_witness :
  Map_get filesEmptyTools "tools" = Some ""
  /\ Map_get (compareResults filesEmptyTools filesWithTools) "tools"
     = Some "Endpoint removed in current branch (was present in base)"
  /\ compareResults filesEmptyTools filesWithTools
     = compareResults filesNoTools filesWithTools
  /\ In {| endpoint := "tools";
           diff := "Endpoint added in target (not present in base)" |}
        (compareProbeResults sampleParse
           (fun p => match error p with
                     | Some _ => filesEmptyTools
                     | None => filesWithTools
                     end)
           (snapshot (Some "empty")) (snapshot None)).
Proof.
  split; [reflexivity|].
  pose proof (C10_empty_content_as_absent sampleParse
                (fun p => match error p with
                          | Some _ => filesEmptyTools
                          | None => filesWithTools
                          end)
                (snapshot (Some "empty")) (snapshot None) "tools" "{}"
                eq_refl eq_refl eq_refl) as [[H1 _] [_ [H2 _]]].
  split; [exact H1|]. split; [reflexivity|exact H2].
Defined.

End CompareFacts.

(* ================================================================== *)
(** ** Compare-ref resolution *)
(* ================================================================== *)

Module GitTheorems.
Import Js Eff Git GitSpec Samples.

#[local] Arguments tpl : simpl never.
#[local] Arguments trim : simpl never.
#[local] Arguments split_lines : simpl never.
#[local] Arguments replace_first : simpl never.
#[local] Arguments Array_indexOf : simpl never.
#[local] Arguments Nat.ltb : simpl never.

(** Symbolic execution of the git utilities: split on the next answer of the
    host or the next test of the code. *)
Ltac run_git :=
  match goal with
  | |- context [exec_out ?h ?t ?c] => destruct (exec_out h t c) eqn:?
  | |- context [match Array_indexOf ?a ?b with _ => _ end] =>
      destruct (Array_indexOf a b) eqn:?
  | |- context [if ?b then _ else _] => destruct b eqn:?
  end.

(** Every git command a strategy runs is one of its own. *)
Lemma run_strategy_commands (host : Host) (L : Type) (s : Strategy)
    (explicitRef githubRef : option string) (l : L) (h : list Event) c r s' :
  In (EExec c r) (snd (run_strategy host s explicitRef githubRef l h)) ->
  strategy_of_command c = Some s' -> s' = s.
Proof.
  destruct s; unfold run_strategy, findPreviousTag, getFirstCommit,
    findMainBranch, getMergeBase, try_catch, bind, ret, exec, log; cbn;
    repeat (run_git; cbn); intros Hin Hc;
    repeat (destruct Hin as [Hin|Hin]; try discriminate Hin;
            try (injection Hin as <- <-; cbn in Hc; congruence));
    contradiction.
Qed.

(** The strategy of the explicit ref returns that ref and runs no command. *)
Lemma run_strategy_explicit (host : Host) (L : Type) (ref : string)
    (githubRef : option string) (l : L) (h : list Event) :
  run_strategy host ExplicitRef (Some ref) githubRef l h
  = (Ok ref, l, [ELog Info (tpl ["Using explicit compare ref: "; ref])]).
Proof. reflexivity. Qed.

(** C1, as amended.  Exactly one of the three strategies determines the
    result of compare-ref resolution: the first one that applies in the
    order explicit ref, then previous tag on a tag push (falling back to
    the first commit), then merge-base with the main line.  The resolution
    does what that strategy does and runs no git command of another
    strategy. *)
Theorem C1_explicit_then_tag_then_merge_base (host : Host) (L : Type)
    (explicitRef githubRef : option string) (l : L) (h : list Event) :
  exists s,
    select_strategy [ExplicitRef; PreviousTag; MergeBase] explicitRef githubRef
    = Some s
    /\ determineCompareRef host explicitRef githubRef l h
       = run_strategy host s explicitRef githubRef l h
    /\ forall c r s',
         In (EExec c r) (snd (determineCompareRef host explicitRef githubRef l h)) ->
         strategy_of_command c = Some s' -> s' = s.
Proof.
  assert (Sel : exists s,
            select_strategy [ExplicitRef; PreviousTag; MergeBase]
              explicitRef githubRef = Some s
            /\ determineCompareRef host explicitRef githubRef l h
               = run_strategy host s explicitRef githubRef l h).
  { unfold determineCompareRef. simpl.
    destruct (truthy_opt explicitRef).
    - exists ExplicitRef. split; reflexivity.
    - destruct githubRef as [r|]; [destruct (startsWith r "refs/tags/")|].
      + exists PreviousTag. split; reflexivity.
      + exists MergeBase. split; reflexivity.
      + exists MergeBase. split; reflexivity. }
  destruct Sel as (s & Hs & Hrun). exists s. split; [exact Hs|].
  split; [exact Hrun|]. rewrite Hrun. apply run_strategy_commands.
Qed.

(** C1, as stated, puts merge-base first.  With an explicit ref and no tag
    push, the strategy selected in that order is merge-base, which resolves
    to the merge-base commit after two git commands; the code runs no git
    command and returns the explicit ref. *)
Lemma C1_counterexample_explicit_first :
  select_strategy [MergeBase; PreviousTag; ExplicitRef] (Some "v1.0.0") None
  = Some MergeBase
  /\ run_strategy (sampleHost false true None) MergeBase (Some "v1.0.0") None tt []
     = (Ok "abc123", tt,
        [EExec (GitVerify "origin/main") (Ok "");
         EExec (GitMergeBase "origin/main") (Ok (tpl ["abc123"; nl]));
         ELog Info "Using merge-base with origin/main: abc123"])
  /\ determineCompareRef (sampleHost false true None) (Some "v1.0.0") None tt []
     = (Ok "v1.0.0", tt, [ELog Info "Using explicit compare ref: v1.0.0"]).
Proof. repeat split; reflexivity. Qed.

End GitTheorems.


(* ================================================================== *)
(** ** The configuration runner *)
(* ================================================================== *)

Module RunnerFacts.
Import Js Diff Eff Git Runner RunnerSpec Samples.

#[local] Arguments tpl : simpl never.
#[local] Arguments parseEnvVars : simpl never.
#[local] Arguments probeOptions : simpl never.
#[local] Arguments compareResults : simpl never.
#[local] Arguments Map_set : simpl never.
#[local] Arguments Map_size : simpl never.
#[local] Arguments String_of_index : simpl never.
#[local] Arguments Nat.ltb : simpl never.

(** Symbolic execution: split on the next answer of the host or the next
    test of the code. *)
Ltac run_oracle :=
  match goal with
  | |- context [exec_out ?h ?t ?c] => destruct (exec_out h t c) eqn:?
  | |- context [probe_out ?h ?t ?c] => destruct (probe_out h t c) eqn:?
  | |- context [if truthy_opt ?e then _ else _] => destruct (truthy_opt e) eqn:?
  | |- context [if truthy ?e then _ else _] => destruct (truthy e) eqn:?
  | |- context [if Nat.ltb ?a ?b then _ else _] => destruct (Nat.ltb a b) eqn:?
  end.

Ltac run_single :=
  unfold runSingleConfigTest, scope, try_finally, probeWithConfig, runBuild,
    createWorktree, checkout, removeWorktree, checkoutPrevious, try_catch,
    bind, ret, probeServer, exec, log, now, getL, putL;
  cbn; repeat (run_oracle; cbn).

(** C5. A run that reaches baseline acquisition executes exactly one
    release action, as its last action before it returns or throws: removal
    of the worktree if one was created, restoration of the previous checkout
    otherwise.  The outcome of the run is arbitrary: the build, the probe or
    the comparison may have failed or thrown. *)
Theorem C5_release_exactly_once (host : Host) (L : Type)
    (config : TestConfiguration) (ctx : RunContext) (l l' : L)
    (h ev : list Event) (o : Outcome TestResult) :
  runSingleConfigTest host config ctx l h = (o, l', ev) ->
  existsb is_acquire ev = true ->
  exists pre rel,
    ev = pre ++ [rel]
    /\ existsb is_release pre = false
    /\ match rel with
       | EExec (GitWorktreeRemove path) _ =>
           worktree_created ev = true
           /\ path = path_join host [workDir ctx; ".conformance-base"]
       | EExec GitCheckoutPrevious _ => worktree_created ev = false
       | _ => False
       end.
Proof.
  revert o l' ev. run_single; intros o l' ev [= <- <- <-] Hacq;
    try discriminate Hacq;
    match goal with
    | |- exists pre rel, ?evs = _ /\ _ =>
        exists (removelast evs), (last evs (ELog Info ""))
    end; repeat split.
Qed.

(** C3. When the probe of the current branch (the first probe of a run)
    answers with a snapshot that carries a terminal error (an [error] that
    passes the test [if (branchResult.error)] of the code: a non-empty
    string), the run returns a result with [hasDifferences = true] whose diff
    map has the single key "error", and neither worktree creation nor
    checkout is attempted. *)
Theorem C3_branch_probe_error (host : Host) (L : Type)
    (config : TestConfiguration) (ctx : RunContext) (l l' : L)
    (h ev : list Event) (o : Outcome TestResult) (p : ProbeResult) :
  runSingleConfigTest host config ctx l h = (o, l', ev) ->
  first_probe ev = Some (Ok p) ->
  truthy_opt (error p) = true ->
  exists r,
    o = Ok r
    /\ hasDifferences r = true
    /\ Map_keys (diffs r) = ["error"]
    /\ existsb is_acquire ev = false.
Proof.
  revert o l' ev. run_single; intros o l' ev [= <- <- <-] Hfirst Herr;
    try discriminate Hfirst; injection Hfirst as <-; try congruence.
  eexists. repeat split.
Qed.

(** C4. The result a run returns has [hasDifferences = true] if and only if
    its diff map is not empty or one of the probes of the run answered with
    a terminal error (a non-empty [error], as the code tests it). *)
Theorem C4_hasDifferences_iff (host : Host) (L : Type)
    (config : TestConfiguration) (ctx : RunContext) (l l' : L)
    (h ev : list Event) (r : TestResult) :
  runSingleConfigTest host config ctx l h = (Ok r, l', ev) ->
  hasDifferences r = true <-> (Map_size (diffs r) <> 0 \/ probe_failed ev).
Proof.
  revert r l' ev. run_single; intros r l' ev E; try discriminate E;
    injection E as <- <- <-; cbn.
  all: split; [intros Hd; try discriminate Hd; left | intros Hr; try reflexivity].
  all: try (cbv [Map_size Map_set List.length]; discriminate).
  all: try match goal with
           | Hlt : Nat.ltb 0 _ = true |- _ => apply Nat.ltb_lt in Hlt; lia
           end.
  all: destruct Hr as [Hs|(options & q & Hin & Hq)];
    [ match goal with
      | Hlt : Nat.ltb 0 _ = false |- _ => apply Nat.ltb_ge in Hlt; lia
      end | ].
  all: simpl in Hin;
    repeat (destruct Hin as [Hin|Hin]; try discriminate Hin;
            try (injection Hin as <- <-; congruence)); contradiction.
Qed.


Lemma C3_branch_probe_error_witness :
  exists o ev,
    runSingleConfigTest (sampleHost false true (Some "spawn ENOENT"))
      sampleConfig sampleCtx tt [] = (o, tt, ev)
    /\ first_probe ev = Some (Ok (snapshot (Some "spawn ENOENT")))
    /\ exists r,
         o = Ok r /\ hasDifferences r = true /\ Map_keys (diffs r) = ["error"]
         /\ existsb is_acquire ev = false.
Proof.
  destruct (runSingleConfigTest (sampleHost false true (Some "spawn ENOENT"))
              sampleConfig sampleCtx tt []) as [[o l'] ev] eqn:E.
  pose proof E as E'. vm_compute in E'. injection E' as <- <- <-.
  eexists _, _. split; [reflexivity|]. split; [reflexivity|].
  eapply C3_branch_probe_error; [exact E | reflexivity | reflexivity].
Defined.

Lemma C4_hasDifferences_witness :
  exists r ev,
    runSingleConfigTest (sampleHost false true None) sampleConfig sampleCtx tt []
    = (Ok r, tt, ev)
    /\ (hasDifferences r = true <-> (Map_size (diffs r) <> 0 \/ probe_failed ev)).
Proof.
  destruct (runSingleConfigTest (sampleHost false true None)
              sampleConfig sampleCtx tt []) as [[o l'] ev] eqn:E.
  pose proof E as E'. vm_compute in E'. injection E' as <- <- <-.
  eexists _, _. split; [reflexivity|].
  eapply C4_hasDifferences_iff; exact E.
Defined.

Lemma C5_release_witness :
  exists o ev pre,
    runSingleConfigTest (sampleHost true false None) sampleConfig sampleCtx tt []
    = (o, tt, ev)
    /\ existsb is_acquire ev = true
    /\ ev = pre ++ [EExec GitCheckoutPrevious (Ok "")]
    /\ existsb is_release pre = false.
Proof.
  destruct (runSingleConfigTest (sampleHost true false None)
              sampleConfig sampleCtx tt []) as [[o l'] ev] eqn:E.
  pose proof E as E'. vm_compute in E'. injection E' as <- <- <-.
  destruct (C5_release_exactly_once _ _ _ _ _ _ _ _ _ E eq_refl)
    as (pre & rel & Hev & Hpre & _).
  eexists _, _, pre. split; [reflexivity|]. split; [reflexivity|].
  split; [|exact Hpre].
  rewrite Hev. do 2 f_equal.
  apply (f_equal (fun evs => last evs rel)) in Hev.
  rewrite last_last in Hev. rewrite <- Hev. reflexivity.
Defined.

(** The scenario of the specification: worktree creation fails, the runner
    falls back to checkout, the build and the probes succeed, and the
    previous checkout is restored exactly once. *)
Example scenario_checkout_fallback :
  filter (fun e => is_acquire e || is_release e)
    (snd (runSingleConfigTest (sampleHost false false None)
            sampleConfig sampleCtx tt []))
  = [EExec (GitWorktreeAdd "/work/.conformance-base" "abc123")
       (Throw "Error: exit code 128");
     EExec (GitCheckout "abc123") (Ok "");
     EExec GitCheckoutPrevious (Ok "")].
Proof. vm_compute. reflexivity. Qed.

End RunnerFacts.

(* ================================================================== *)
(** ** The batch runner *)
(* ================================================================== *)

Module BatchFacts.
Import Js Diff Eff Git Runner RunnerSpec Samples.

#[local] Arguments tpl : simpl never.
#[local] Arguments Map_set : simpl never.

(** The loop over a concatenation runs the first part, then the second part
    in the history and with the locals the first part left. *)
Lemma for_of_app {L A} (body : A -> M L unit) (xs ys : list A) :
  forall l h l1 ev1 o l2 ev2,
    for_of xs body l h = (Ok tt, l1, ev1) ->
    for_of ys body l1 (h ++ ev1) = (o, l2, ev2) ->
    for_of (xs ++ ys) body l h = (o, l2, ev1 ++ ev2).
Proof.
  induction xs as [|x xs IH]; simpl; intros l h l1 ev1 o l2 ev2 H1 H2.
  - unfold ret in H1. injection H1 as <- <-. now rewrite app_nil_r in H2.
  - unfold bind in *.
    destruct (body x l h) as [[[u|e] la] eva]; [|discriminate H1].
    destruct (for_of xs body la (h ++ eva)) as [[o' lb] evb] eqn:E.
    injection H1 as -> -> <-.
    rewrite app_assoc in H2.
    rewrite (IH _ _ _ _ _ _ _ E H2). now rewrite app_assoc.
Qed.

Section Batch.
Variable host : Host.
Variable ctx : RunContext.

(** The run of one configuration leaves the locals of its caller alone. *)
Lemma runSingleConfigTest_locals {L} (config : TestConfiguration) (l : L) h :
  exists o ev, runSingleConfigTest host config ctx l h = (o, l, ev).
Proof.
  unfold runSingleConfigTest, scope.
  match goal with |- context [match ?m with _ => _ end] => destruct m as [[o l'] ev] end.
  eauto.
Qed.

(** One turn of the batch loop: the run of the configuration, then what
    follows it. *)
Lemma runAllTestsStep_run (config : TestConfiguration) (results : list TestResult) h :
  exists o evRun evSave results',
    runSingleConfigTest host config ctx results h = (o, results, evRun)
    /\ runAllTestsStep host ctx config results h = (Ok tt, results', evRun ++ evSave)
    /\ match o with
       | Ok r =>
           saved_after host ctx config r evSave
           /\ exists more, results' = results ++ r :: more
       | Throw e =>
           evSave = [failure_line config e]
           /\ results' = results ++ [failed_result config e]
       end.
Proof.
  destruct (runSingleConfigTest_locals config results h) as (o & evRun & E).
  exists o, evRun. unfold runAllTestsStep, try_catch, bind. rewrite E.
  destruct o as [r|e]; cbn.
  - destruct (mkdir_out host _ _) as [[]|e1] eqn:Em; cbn.
    + destruct (write_out host _ _ _) as [[]|e2] eqn:Ew; cbn.
      * eexists _, _. split; [reflexivity|]. split; [reflexivity|].
        split; [|exists []; reflexivity].
        eexists (Ok tt), _. split; [reflexivity|]. eexists (Ok tt), _.
        split; reflexivity.
      * rewrite <- !app_assoc. cbn.
        eexists _, _. split; [reflexivity|]. split; [reflexivity|].
        split; [|eexists [_]; reflexivity].
        eexists (Ok tt), _. split; [reflexivity|]. eexists (Throw e2), _.
        split; reflexivity.
    + rewrite <- !app_assoc. cbn.
      eexists _, _. split; [reflexivity|]. split; [reflexivity|].
      split; [|eexists [_]; reflexivity].
      eexists (Throw e1), _. split; reflexivity.
  - eexists _, _. split; [reflexivity|]. split; [reflexivity|].
    split; reflexivity.
Qed.

(** The batch loop never throws. *)
Lemma runAllTests_loop_total (configs : list TestConfiguration) :
  forall results h,
    exists results' ev,
      for_of configs (runAllTestsStep host ctx) results h = (Ok tt, results', ev).
Proof.
  induction configs as [|c rest IH]; simpl; intros results h.
  - eexists _, _. reflexivity.
  - destruct (runAllTestsStep_run c results h) as (o & e1 & e2 & r' & _ & E & _).
    unfold bind. rewrite E.
    destruct (IH r' (h ++ e1 ++ e2)) as (r'' & ev & E').
    rewrite E'. eauto.
Qed.
End Batch.

(** C2.  The result of every configuration is to be saved before the next
    run begins, whether its run returns or throws.  The code does so on one
    of the two paths only.  In a batch over any list of configurations, take
    any configuration: the configurations before it have been run; then it
    is run; when its run returns a result, the results directory is made
    and, if that succeeds, the result is written to the file of the
    configuration, and only then do the runs of the remaining configurations
    begin.  When its run throws, the handler logs the failure and records
    the synthetic failed result among the results of the batch, and that is
    all it does before the next run begins: the recorded result is never
    written to a file. *)
Theorem C2_saved_only_after_normal_return (host : Host) (ctx : RunContext)
    (L : Type) (l : L) (h : list Event)
    (pre : list TestConfiguration) (config : TestConfiguration)
    (post : list TestConfiguration) :
  configurations (inputs ctx) = pre ++ config :: post ->
  exists results evPre o evRun evSave results' evPost out,
    for_of pre (runAllTestsStep host ctx) [] h = (Ok tt, results, evPre)
    /\ runSingleConfigTest host config ctx results (h ++ evPre)
       = (o, results, evRun)
    /\ match o with
       | Ok r =>
           saved_after host ctx config r evSave
           /\ exists more, results' = results ++ r :: more
       | Throw e =>
           evSave = [failure_line config e]
           /\ results' = results ++ [failed_result config e]
       end
    /\ for_of post (runAllTestsStep host ctx) results'
         (h ++ evPre ++ evRun ++ evSave) = (Ok tt, out, evPost)
    /\ runAllTests host ctx l h
       = (Ok out, l, evPre ++ evRun ++ evSave ++ evPost).
Proof.
  intros Hc.
  destruct (runAllTests_loop_total host ctx pre [] h) as (results & evPre & Epre).
  destruct (runAllTestsStep_run host ctx config results (h ++ evPre))
    as (o & evRun & evSave & results' & Erun & Estep & Hafter).
  destruct (runAllTests_loop_total host ctx post results'
              (h ++ evPre ++ evRun ++ evSave)) as (out & evPost & Epost).
  exists results, evPre, o, evRun, evSave, results', evPost, out.
  repeat split; try assumption.
  assert (Hloop : for_of (pre ++ config :: post) (runAllTestsStep host ctx) [] h
                  = (Ok tt, out, evPre ++ (evRun ++ evSave) ++ evPost)).
  { eapply for_of_app; [exact Epre|]. simpl. unfold bind. rewrite Estep.
    rewrite <- !app_assoc. rewrite Epost. now rewrite <- ?app_assoc. }
  unfold runAllTests, scope, bind. rewrite Hc, Hloop. cbn.
  now rewrite app_nil_r, <- !app_assoc.
Qed.

Lemma C2_thrown_run_witness :
  exists evRun,
    runSingleConfigTest (sampleHost true true None) sampleConfig sampleCtx
      ([] : list TestResult) []
    = (Throw "Error: exit code 1", [], evRun)
    /\ runAllTests (sampleHost true true None) sampleCtx tt []
       = (Ok [failed_result sampleConfig "Error: exit code 1"], tt,
          evRun ++ [failure_line sampleConfig "Error: exit code 1"])
    /\ existsb is_write
         (evRun ++ [failure_line sampleConfig "Error: exit code 1"]) = false.
Proof.
  destruct (C2_saved_only_after_normal_return (sampleHost true true None)
              sampleCtx unit tt [] [] sampleConfig [] eq_refl)
    as (results & evPre & o & evRun & evSave & results' & evPost & out
        & Epre & Erun & Hafter & Epost & Eall).
  injection Epre as <- <-.
  pose proof Erun as Erun'. vm_compute in Erun'. injection Erun' as <- <-.
  destruct Hafter as [-> ->].
  injection Epost as <- <-.
  eexists. split; [exact Erun|]. split; [|vm_compute; reflexivity].
  rewrite Eall. reflexivity.
Defined.

End BatchFacts.

(* ================================================================== *)
(** ** Facts about the built-ins *)
(* ================================================================== *)

Module BuiltinFacts.
Import Js DiffFacts.

Lemma prefix_empty s : String.prefix "" s = true.
Proof. now destruct s. Qed.

Lemma length_append (a b : string) :
  String.length (a ++ b) = String.length a + String.length b.
Proof. induction a as [|c a IH]; simpl; [reflexivity|]. now rewrite IH. Qed.

Lemma substring_all s : substring 0 (String.length s) s = s.
Proof. induction s as [|c s IH]; simpl; [reflexivity|]. now rewrite IH. Qed.

Lemma find_app {A} (p : A -> bool) (l1 l2 : list A) :
  find p (l1 ++ l2) = match find p l1 with Some x => Some x | None => find p l2 end.
Proof.
  induction l1 as [|a l1 IH]; simpl; [reflexivity|]. now destruct (p a).
Qed.

Lemma app_same_length {A} (a a' b b' : list A) :
  a ++ b = a' ++ b' -> List.length a = List.length a' -> a = a' /\ b = b'.
Proof.
  revert a'. induction a as [|x a IH]; intros [|x' a']; simpl; try discriminate.
  - tauto.
  - intros [= -> H] [= Hl]. destruct (IH _ H Hl) as [-> ->]. tauto.
Qed.

(** Looking a key up after a loop of [set]: the last assignment of the key. *)
Lemma Map_fold_set_get {A V} (kf : A -> string) (vf : A -> V) (xs : list A) :
  forall (acc : JsMap V) (e : string),
    Map_get (fold_left (fun m x => Map_set m (kf x) (vf x)) xs acc) e
    = match find (fun x => String.eqb (kf x) e) (rev xs) with
      | Some x => Some (vf x)
      | None => Map_get acc e
      end.
Proof.
  induction xs as [|x xs IH]; simpl; intros acc e; [reflexivity|].
  rewrite IH, find_app. simpl.
  destruct (find _ (rev xs)); [reflexivity|].
  destruct (String.eqb (kf x) e) eqn:E.
  - apply String.eqb_eq in E. subst e. apply Map_get_set_same.
  - apply String.eqb_neq in E. now apply Map_get_set_other.
Qed.

End BuiltinFacts.

(* ================================================================== *)
(** ** More on the structural differ *)
(* ================================================================== *)

Module DifferProperties.
Import Js Diff DiffSpec DiffFacts LineSpec Samples BuiltinFacts.

Lemma forallb_flat_map {A B} (p : B -> bool) (f : A -> list B) (l : list A) :
  (forall x, In x l -> forallb p (f x) = true) ->
  forallb p (flat_map f l) = true.
Proof.
  induction l as [|a l IH]; intros H; simpl; [reflexivity|].
  rewrite forallb_app, (H a (or_introl eq_refl)), IH; [reflexivity|].
  intros x Hx. apply H. now right.
Qed.


Lemma marked_removed a rest : is_diff_line (tpl ("- " :: a :: rest)) = true.
Proof.
  unfold is_diff_line, startsWith, tpl. simpl. now rewrite prefix_empty.
Qed.

Lemma marked_added a rest : is_diff_line (tpl ("+ " :: a :: rest)) = true.
Proof.
  unfold is_diff_line, startsWith, tpl. simpl. now rewrite prefix_empty.
Qed.

Ltac marked :=
  repeat match goal with
         | |- context [if ?c then _ else _] => destruct c
         end;
  simpl; rewrite ?marked_removed, ?marked_added; reflexivity.

Lemma marked_lines n : forall base target path,
  depth base < n ->
  forallb is_diff_line (findJsonDifferences base target path) = true.
Proof.
  induction n as [|n IH]; intros base target path Hd; [lia|].
  rewrite findJsonDifferences_eq. unfold findJsonDifferences_body.
  destruct (nullish base) eqn:Nb.
  { destruct (negb (nullish target)); marked. }
  destruct (nullish target); [marked|].
  destruct (negb (JsType_eqb (typeof base) (typeof target))); [marked|].
  assert (Obj : typeof base = TObject ->
    forallb is_diff_line
      (flat_map (fun key =>
         let newPath := if truthy path then tpl [path; "."; key] else key in
         if negb (has_in key base) then
           [tpl ["+ "; newPath; ": "; formatValue (get target key)]]
         else if negb (has_in key target) then
           [tpl ["- "; newPath; ": "; formatValue (get base key)]]
         else findJsonDifferences (get base key) (get target key) newPath)
        (Set_of (Object_keys base ++ Object_keys target))) = true).
  { intros T. apply forallb_flat_map. intros key _. cbv zeta.
    destruct (negb (has_in key base)); [marked|].
    destruct (negb (has_in key target)); [marked|].
    apply IH. pose proof (depth_get base key T Nb). lia. }
  assert (Sc : forallb is_diff_line
                 (if negb (strict_eq base target)
                  then [tpl ["- "; path; ": "; formatValue base];
                        tpl ["+ "; path; ": "; formatValue target]]
                  else []) = true).
  { destruct (negb (strict_eq base target)); marked. }
  destruct base; try discriminate Nb;
    destruct target; try exact Sc; try (apply Obj; reflexivity).
  unfold compareArrays_with. rewrite !forallb_app.
  rewrite !forallb_flat_map; [reflexivity| | |].
  - intros [k [item i]] Hin. simpl.
    destruct (Map_get (itemsOf items0) k); [|reflexivity].
    apply IH. apply itemsOf_In in Hin. destruct Hin as [Hn _].
    apply nth_error_In, depth_item in Hn. lia.
  - intros [k [item i]] _. simpl. destruct (negb _); marked.
  - intros [k [item i]] _. simpl. destruct (negb _); marked.
Qed.

(** X1. Every line the differ reports is marked as removed or as added. *)
Theorem diff_lines_marked (base target : JValue) (path : string) :
  forallb is_diff_line (findJsonDifferences base target path) = true.
Proof. apply (marked_lines (S (depth base))). lia. Qed.


(** *** Exchanging base and target *)

Lemma swap_removed a rest :
  swap_mark (tpl ("- " :: a :: rest)) = tpl ("+ " :: a :: rest).
Proof. reflexivity. Qed.

Lemma swap_added a rest :
  swap_mark (tpl ("+ " :: a :: rest)) = tpl ("- " :: a :: rest).
Proof. reflexivity. Qed.

Lemma map_flat_map {A B C} (g : B -> C) (f : A -> list B) (l : list A) :
  map g (flat_map f l) = flat_map (fun x => map g (f x)) l.
Proof.
  induction l as [|a l IH]; simpl; [reflexivity|].
  now rewrite map_app, IH.
Qed.

Lemma Permutation_flat_map_pointwise {A B} (f g : A -> list B) (l l' : list A) :
  Permutation l l' ->
  (forall x, In x l -> Permutation (f x) (g x)) ->
  Permutation (flat_map f l) (flat_map g l').
Proof.
  intros P H. transitivity (flat_map g l).
  - clear P. induction l as [|a l IH]; simpl; [constructor|].
    apply Permutation_app; [apply H; now left|].
    apply IH. intros x Hx. apply H. now right.
  - now apply Permutation_flat_map.
Qed.

Lemma flat_map_filter {A B} (p : A -> bool) (f : A -> list B) (l : list A) :
  (forall x, p x = false -> f x = []) ->
  flat_map f l = flat_map f (filter p l).
Proof.
  intros H. induction l as [|a l IH]; simpl; [reflexivity|].
  destruct (p a) eqn:E; simpl; rewrite IH; [reflexivity|].
  now rewrite (H a E).
Qed.

Lemma flat_map_map {A B C} (f : B -> list C) (g : A -> B) (l : list A) :
  flat_map f (map g l) = flat_map (fun x => f (g x)) l.
Proof.
  induction l as [|a l IH]; simpl; [reflexivity|]. now rewrite IH.
Qed.

Lemma Map_has_keys {V} (m : JsMap V) k :
  Map_has m k = true <-> In k (Map_keys m).
Proof.
  unfold Map_has, Map_keys. induction m as [|[k0 v0] m IH]; simpl.
  - split; [discriminate|tauto].
  - destruct (String.eqb k0 k) eqn:E; simpl.
    + apply String.eqb_eq in E. split; auto.
    + apply String.eqb_neq in E. rewrite IH. split; [auto|].
      intros [H|H]; [contradiction|exact H].
Qed.

Lemma Set_of_aux_NoDup xs : forall seen,
  NoDup (Set_of_aux seen xs)
  /\ forall x, In x (Set_of_aux seen xs) -> ~ In x seen.
Proof.
  induction xs as [|y rest IH]; simpl; intros seen.
  - split; [constructor|tauto].
  - destruct (existsb (String.eqb y) seen) eqn:E; [apply IH|].
    destruct (IH (y :: seen)) as [ND Hout]. split.
    + constructor; [|exact ND]. intros Hin. apply (Hout y Hin). now left.
    + intros x [<- |Hx].
      * intros Hs. assert (existsb (String.eqb y) seen = true).
        { apply existsb_exists. exists y. split; [exact Hs|apply String.eqb_refl]. }
        congruence.
      * intros Hs. apply (Hout x Hx). now right.
Qed.

Lemma Set_of_NoDup xs : NoDup (Set_of xs).
Proof. apply Set_of_aux_NoDup. Qed.

Lemma Set_of_In xs x : In x (Set_of xs) <-> In x xs.
Proof. split; [apply Set_of_aux_In|apply Set_of_complete]. Qed.

Lemma Set_of_app_comm xs ys : Permutation (Set_of (xs ++ ys)) (Set_of (ys ++ xs)).
Proof.
  apply NoDup_Permutation; try apply Set_of_NoDup.
  intros x. rewrite !Set_of_In, !in_app_iff. tauto.
Qed.

Lemma find_exists {A} (p : A -> bool) (l : list A) x :
  In x l -> p x = true -> is_some (find p l) = true.
Proof.
  induction l as [|a l IH]; simpl; [tauto|].
  intros [-> |H] Hp; [now rewrite Hp|].
  destruct (p a); [reflexivity|auto].
Qed.

Lemma has_in_own_key v k :
  In k (Object_keys v) -> has_in k v = true.
Proof.
  destruct v; simpl; try tauto.
  - intros H. apply in_map_iff in H. destruct H as (i & <- & Hi).
    unfold index_of_key.
    rewrite (find_exists _ _ i Hi (String.eqb_refl _)). reflexivity.
  - apply prop_of_key.
Qed.

Lemma strict_eq_sym a b : strict_eq a b = strict_eq b a.
Proof.
  destruct a, b; simpl; try reflexivity.
  - destruct b0, b; reflexivity.
  - apply Z.eqb_sym.
  - apply String.eqb_sym.
Qed.

Lemma JsType_eqb_sym a b : JsType_eqb a b = JsType_eqb b a.
Proof. destruct a, b; reflexivity. Qed.

Section Swap.
Variable recur : JValue -> JValue -> string -> list string.

Lemma compareArrays_with_swap a b path :
  (forall x y p, In x a ->
                 Permutation (map swap_mark (recur x y p)) (recur y x p)) ->
  Permutation (map swap_mark (compareArrays_with recur a b path))
              (compareArrays_with recur b a path).
Proof.
  intros IH. unfold compareArrays_with.
  set (A := itemsOf a). set (B := itemsOf b).
  assert (GetA : forall k item i, In (k, (item, i)) A -> Map_get A k = Some (item, i))
    by (intros; now apply itemsOf_get).
  assert (GetB : forall k item i, In (k, (item, i)) B -> Map_get B k = Some (item, i))
    by (intros; now apply itemsOf_get).
  assert (InA : forall k item i, Map_get A k = Some (item, i) -> In item a).
  { intros k item i H. apply Map_get_In, itemsOf_In in H. eapply nth_error_In, H. }
  assert (NDA : NoDup (Map_keys A)) by apply itemsOf_NoDup.
  assert (NDB : NoDup (Map_keys B)) by apply itemsOf_NoDup.
  clearbody A B.
  rewrite !map_app.
  set (Ra := map swap_mark (flat_map _ A)).
  set (Ab := map swap_mark (flat_map _ B)).
  set (Mab := map swap_mark (flat_map _ A)).
  match goal with
  | |- Permutation _ (?r ++ ?d ++ ?m) =>
      assert (Er : Ab = r); [|assert (Ed : Ra = d); [|assert (Pm : Permutation Mab m)]]
  end.
  - subst Ab. rewrite map_flat_map. apply flat_map_ext. intros [k [item i]]. simpl.
    destruct (negb (Map_has A k)); reflexivity.
  - subst Ra. rewrite map_flat_map. apply flat_map_ext. intros [k [item i]]. simpl.
    destruct (negb (Map_has B k)); reflexivity.
  - subst Mab. rewrite map_flat_map.
    pose (F := fun k : string =>
                 match Map_get A k, Map_get B k with
                 | Some x, Some y =>
                     map swap_mark (recur (fst x) (fst y) (tpl [path; "["; k; "]"]))
                 | _, _ => []
                 end).
    pose (G := fun k : string =>
                 match Map_get B k, Map_get A k with
                 | Some y, Some x => recur (fst y) (fst x) (tpl [path; "["; k; "]"])
                 | _, _ => []
                 end).
    match goal with
    | |- Permutation ?X ?Y =>
        assert (EA : X = flat_map F (Map_keys A));
        [|assert (EB : Y = flat_map G (Map_keys B)); [|rewrite EA, EB]]
    end.
    { unfold Map_keys. rewrite flat_map_map. apply flat_map_ext_In.
      intros [k [item i]] Hin. unfold F. simpl.
      rewrite (GetA _ _ _ Hin). simpl.
      destruct (Map_get B k); reflexivity. }
    { unfold Map_keys. rewrite flat_map_map. apply flat_map_ext_In.
      intros [k [item i]] Hin. unfold G. simpl.
      rewrite (GetB _ _ _ Hin). simpl.
      destruct (Map_get A k); reflexivity. }
    rewrite (flat_map_filter (Map_has B) F), (flat_map_filter (Map_has A) G).
    + apply Permutation_flat_map_pointwise.
      * apply NoDup_Permutation.
        -- apply NoDup_filter, NDA.
        -- apply NoDup_filter, NDB.
        -- intros k. rewrite !filter_In, <- !Map_has_keys. tauto.
      * intros k Hk. apply filter_In in Hk. destruct Hk as [Hk _].
        unfold F, G.
        destruct (Map_get A k) as [[x i]|] eqn:GA; [|destruct (Map_get B k); constructor].
        destruct (Map_get B k) as [[y j]|]; [|constructor].
        simpl. apply IH. eapply InA, GA.
    + intros k Hk. unfold G, Map_has in *.
      destruct (Map_get A k); [discriminate|]. now destruct (Map_get B k).
    + intros k Hk. unfold F, Map_has in *.
      destruct (Map_get B k); [discriminate|]. now destruct (Map_get A k).
  - rewrite <- Er, <- Ed.
    transitivity (Ab ++ Ra ++ Mab).
    + rewrite !app_assoc. apply Permutation_app_tail, Permutation_app_comm.
    + do 2 apply Permutation_app_head. exact Pm.
Qed.

Lemma compareKeys_swap a b path :
  (forall key p,
     Permutation (map swap_mark (recur (get a key) (get b key) p))
                 (recur (get b key) (get a key) p)) ->
  Permutation
    (map swap_mark
       (flat_map (fun key =>
          let newPath := if truthy path then tpl [path; "."; key] else key in
          if negb (has_in key a) then
            [tpl ["+ "; newPath; ": "; formatValue (get b key)]]
          else if negb (has_in key b) then
            [tpl ["- "; newPath; ": "; formatValue (get a key)]]
          else recur (get a key) (get b key) newPath)
        (Set_of (Object_keys a ++ Object_keys b))))
    (flat_map (fun key =>
       let newPath := if truthy path then tpl [path; "."; key] else key in
       if negb (has_in key b) then
         [tpl ["+ "; newPath; ": "; formatValue (get a key)]]
       else if negb (has_in key a) then
         [tpl ["- "; newPath; ": "; formatValue (get b key)]]
       else recur (get b key) (get a key) newPath)
     (Set_of (Object_keys b ++ Object_keys a))).
Proof.
  intros IH. rewrite map_flat_map.
  apply Permutation_flat_map_pointwise; [apply Set_of_app_comm|].
  intros key Hin. cbv zeta.
  apply Set_of_In, in_app_or in Hin.
  destruct (has_in key a) eqn:Ha, (has_in key b) eqn:Hb; simpl.
  - apply IH.
  - apply Permutation_refl.
  - apply Permutation_refl.
  - destruct Hin as [H|H]; apply has_in_own_key in H; congruence.
Qed.
End Swap.

#[local] Arguments has_in : simpl never.
#[local] Arguments get : simpl never.
#[local] Arguments Object_keys : simpl never.
#[local] Arguments formatValue : simpl never.
#[local] Arguments tpl : simpl never.

Lemma findJsonDifferences_swap n : forall a b path,
  depth a < n ->
  Permutation (map swap_mark (findJsonDifferences a b path))
              (findJsonDifferences b a path).
Proof.
  induction n as [|n IH]; intros a b path Hd; [lia|].
  rewrite (findJsonDifferences_eq a b), (findJsonDifferences_eq b a).
  unfold findJsonDifferences_body.
  rewrite (JsType_eqb_sym (typeof b) (typeof a)), (strict_eq_sym b a).
  destruct (nullish a) eqn:Na, (nullish b) eqn:Nb; simpl; try apply Permutation_refl.
  destruct (JsType_eqb (typeof a) (typeof b)) eqn:T; simpl;
    [|apply perm_swap].
  assert (Keys : typeof a = TObject ->
            forall key p,
              Permutation (map swap_mark (findJsonDifferences (get a key) (get b key) p))
                          (findJsonDifferences (get b key) (get a key) p)).
  { intros Ta key p. apply IH. pose proof (depth_get a key Ta Na). lia. }
  destruct a; try discriminate Na; destruct b; try discriminate Nb;
    try discriminate T; simpl;
    try (destruct (negb _); simpl; [apply perm_swap|constructor]);
    try (apply compareKeys_swap, Keys; reflexivity).
  apply compareArrays_with_swap. intros x y p Hin. apply IH.
  apply depth_item in Hin. lia.
Qed.

(** X2. Exchanging base and target exchanges the marks: the differences of
    [target] against [base] are those of [base] against [target] with
    removed and added exchanged, up to the order of the lines. *)
Theorem diff_swap (a b : JValue) (path : string) :
  Permutation (map swap_mark (findJsonDifferences a b path))
              (findJsonDifferences b a path).
Proof. apply (findJsonDifferences_swap (S (depth a))). lia. Qed.


(** *** The bounded rendering *)


Lemma length_substring_le s : forall i n, String.length (substring i n s) <= n.
Proof.
  induction s as [|c s IH]; intros [|i] [|n]; simpl; try lia.
  - specialize (IH 0 n). lia.
  - apply (IH i 0).
  - apply (IH i (S n)).
Qed.

Lemma length_escape_char c : String.length (escape_char c) <= 6.
Proof.
  unfold escape_char.
  repeat match goal with
         | |- context [if ?b then _ else _] => destruct b
         end; simpl; lia.
Qed.

Lemma length_escape s : String.length (escape s) <= 6 * String.length s.
Proof.
  induction s as [|c s IH]; simpl; [lia|].
  rewrite length_append. pose proof (length_escape_char c). lia.
Qed.

Lemma length_quote s : String.length (quote s) <= 6 * String.length s + 2.
Proof.
  unfold quote, tpl. simpl. rewrite length_append. simpl.
  pose proof (length_escape s). lia.
Qed.

(** X3. The rendering of a value is bounded in length, except for numbers:
    at most 203 characters for an array or an object (200 of its JSON text
    and the ellipsis), at most 620 for a string (103 characters, escaped and
    quoted). *)
Theorem formatValue_bounded (v : JValue) :
  match v with
  | JNum _ => True
  | JStr _ => String.length (formatValue v) <= 620
  | _ => String.length (formatValue v) <= 203
  end.
Proof.
  assert (Obj : forall json,
    String.length (if Nat.ltb 200 (String.length json)
                   then tpl [substring 0 200 json; "..."] else json) <= 203).
  { intros json. destruct (Nat.ltb 200 (String.length json)) eqn:E.
    - unfold tpl. simpl. rewrite length_append. simpl.
      pose proof (length_substring_le json 0 200). lia.
    - apply Nat.ltb_ge in E. lia. }
  destruct v; unfold formatValue; try (simpl; lia); try apply Obj.
  - destruct b; simpl; lia.
  - destruct (Nat.ltb 100 (String.length s)) eqn:E.
    + pose proof (length_quote (tpl [substring 0 100 s; "..."])) as H.
      assert (L : String.length (tpl [substring 0 100 s; "..."]) <= 103).
      { unfold tpl. simpl String.concat. rewrite length_append. simpl String.length.
        pose proof (length_substring_le s 0 100). lia. }
      lia.
    + apply Nat.ltb_ge in E. pose proof (length_quote s). lia.
Qed.

(** *** Equal inputs *)

Lemma opt_string_eqb_refl a : opt_string_eqb a a = true.
Proof. destruct a; simpl; [apply String.eqb_refl|reflexivity]. Qed.

(** X5. Two equal texts have no JSON diff, whatever the parser does with
    them. *)
Theorem generateJsonDiff_same (JSON_parse : string -> option JValue)
    (name text : string) :
  generateJsonDiff JSON_parse name text text = None.
Proof.
  unfold generateJsonDiff. destruct (JSON_parse text) as [v|].
  - rewrite (findJsonDifferences_same (S (depth v))); [reflexivity|lia].
  - now rewrite String.eqb_refl.
Qed.

Lemma compareEndpoint_same parse files e : compareEndpoint parse files files e = [].
Proof.
  unfold compareEndpoint.
  destruct (truthy_opt (Map_get files e)); simpl;
    now rewrite opt_string_eqb_refl.
Qed.

(** X6. A snapshot compared with itself has no difference entry. *)
Theorem compareProbeResults_same (JSON_parse : string -> option JValue)
    (toFiles : ProbeResult -> JsMap string) (result : ProbeResult) :
  compareProbeResults JSON_parse toFiles result result = [].
Proof.
  unfold compareProbeResults, compareFiles. apply flat_map_all_nil.
  intros e _. apply compareEndpoint_same.
Qed.

(** *** The entries of the structured comparison *)

Lemma compareEndpoint_at_most_one parse baseFiles targetFiles e :
  compareEndpoint parse baseFiles targetFiles e = []
  \/ exists d, compareEndpoint parse baseFiles targetFiles e
               = [{| endpoint := e; diff := d |}].
Proof.
  unfold compareEndpoint.
  repeat match goal with
         | |- context [if ?c then _ else _] => destruct c
         | |- context [match ?c with Some _ => _ | None => _ end] => destruct c
         end; eauto.
Qed.

Lemma NoDup_endpoints parse baseFiles targetFiles es :
  NoDup es ->
  NoDup (map endpoint (flat_map (compareEndpoint parse baseFiles targetFiles) es))
  /\ incl (map endpoint (flat_map (compareEndpoint parse baseFiles targetFiles) es)) es.
Proof.
  induction 1 as [|e es Hn ND [IH1 IH2]]; simpl.
  - split; [constructor|intros x []].
  - destruct (compareEndpoint_at_most_one parse baseFiles targetFiles e)
      as [-> |[d ->]]; simpl.
    + split; [exact IH1|]. intros x Hx. right. now apply IH2.
    + split.
      * constructor; [|exact IH1]. intros Hin. apply Hn, IH2, Hin.
      * intros x [<- |Hx]; [now left|right; now apply IH2].
Qed.

(** X7. The structured comparison has at most one entry per endpoint, and
    only for endpoints of one of the two snapshots. *)
Theorem compareProbeResults_endpoints (JSON_parse : string -> option JValue)
    (toFiles : ProbeResult -> JsMap string) (baseResult targetResult : ProbeResult) :
  NoDup (map endpoint (compareProbeResults JSON_parse toFiles baseResult targetResult))
  /\ incl (map endpoint (compareProbeResults JSON_parse toFiles baseResult targetResult))
          (Map_keys (toFiles baseResult) ++ Map_keys (toFiles targetResult)).
Proof.
  unfold compareProbeResults, compareFiles.
  destruct (NoDup_endpoints JSON_parse (toFiles baseResult) (toFiles targetResult)
              _ (Set_of_NoDup (Map_keys (toFiles baseResult)
                               ++ Map_keys (toFiles targetResult)))) as [H1 H2].
  split; [exact H1|]. intros x Hx. apply Set_of_In, H2, Hx.
Qed.

(** *** [diffsToMap] *)


(** X8. Looking an endpoint up in the map made from a list of entries gives
    the diff of the last entry of that endpoint, and nothing when there is
    none. *)
Theorem diffsToMap_lookup (ds : list DiffResult) (e : string) :
  Map_get (diffsToMap ds) e
  = option_map diff (find (fun d => String.eqb (endpoint d) e) (rev ds)).
Proof.
  unfold diffsToMap. rewrite (Map_fold_set_get endpoint diff).
  now destruct (find _ (rev ds)).
Qed.


(** *** Pure additions to an array of named members *)

Lemma Map_set_fresh {V} (m : JsMap V) k v :
  ~ In k (Map_keys m) -> Map_set m k v = m ++ [(k, v)].
Proof.
  unfold Map_keys. induction m as [|[k0 v0] m IH]; simpl; intros H; [reflexivity|].
  destruct (String.eqb k0 k) eqn:E.
  - apply String.eqb_eq in E. tauto.
  - rewrite IH; [reflexivity|tauto].
Qed.

Lemma collectItems_named items : forall idx acc,
  (forall x, In x items -> nameField x <> None) ->
  NoDup (map nameField items) ->
  (forall x, In x items -> ~ In (getItemKey x 0) (Map_keys acc)) ->
  collectItems items idx acc
  = acc ++ map (fun p => (getItemKey (snd p) 0, (snd p, fst p)))
             (combine (seq idx (List.length items)) items).
Proof.
  induction items as [|a rest IH]; simpl; intros idx acc Hnamed Hnd Hfresh.
  - now rewrite app_nil_r.
  - assert (Ka : forall i, getItemKey a i = getItemKey a 0).
    { intros i. destruct (nameField a) as [s|] eqn:E.
      - now rewrite !(getItemKey_named a s _ E).
      - exfalso. apply (Hnamed a); auto. }
    inversion Hnd as [|? ? Hn Hnd']; subst.
    rewrite Ka, Map_set_fresh by (apply Hfresh; now left).
    rewrite IH; auto.
    + now rewrite <- app_assoc.
    + intros x Hx Hin. unfold Map_keys in Hin. rewrite map_app, in_app_iff in Hin.
      destruct Hin as [Hin|[Hin|[]]].
      * apply (Hfresh x); auto.
      * simpl in Hin. apply Hn.
        destruct (nameField a) as [s|] eqn:Ea; [|exfalso; apply (Hnamed a); auto].
        destruct (nameField x) as [t|] eqn:Ex; [|exfalso; apply (Hnamed x); auto].
        rewrite (getItemKey_named a s 0 Ea), (getItemKey_named x t 0 Ex) in Hin.
        subst t. rewrite <- Ex. now apply in_map.
Qed.

Lemma flat_map_combine_seq {A B} (f : A -> list B) (l : list A) : forall i,
  flat_map (fun p => f (snd p)) (combine (seq i (List.length l)) l) = flat_map f l.
Proof.
  induction l as [|a l IH]; simpl; intros i; [reflexivity|]. now rewrite IH.
Qed.

Lemma Map_has_itemsOf_named base s :
  (forall y, In y base -> nameField y <> None) ->
  Map_has (itemsOf base) s
  = existsb (fun y => opt_string_eqb (nameField y) (Some s)) base.
Proof.
  intros Hnamed. apply eq_true_iff_eq. split.
  - intros H. unfold Map_has in H.
    destruct (Map_get (itemsOf base) s) as [[y j]|] eqn:G; [|discriminate].
    apply Map_get_In, itemsOf_In in G. destruct G as [Gn Gk].
    apply existsb_exists. exists y. split; [eapply nth_error_In, Gn|].
    destruct (nameField y) as [t|] eqn:E.
    + rewrite (getItemKey_named y t j E) in Gk. subst. simpl. apply String.eqb_refl.
    + exfalso. apply (Hnamed y); [eapply nth_error_In, Gn|exact E].
  - intros H. apply existsb_exists in H. destruct H as (y & Hy & E).
    destruct (nameField y) as [t|] eqn:En; [|discriminate]. simpl in E.
    apply String.eqb_eq in E. subst t.
    apply In_nth_error in Hy. destruct Hy as [j Hj].
    rewrite <- (getItemKey_named y s j En). now apply itemsOf_has.
Qed.

(** X4. When every member of the base array is also a member of the target
    array, and the members of the target carry pairwise distinct names, the
    differences are exactly one added line for each target member whose name
    no base member has, in the order of the target. *)
Theorem diff_pure_additions (base target : list JValue) (path : string) :
  (forall x, In x target -> nameField x <> None) ->
  NoDup (map nameField target) ->
  incl base target ->
  findJsonDifferences (JArr base) (JArr target) path
  = flat_map
      (fun x =>
         if existsb (fun y => opt_string_eqb (nameField y) (nameField x)) base
         then []
         else [tpl ["+ "; path; "["; getItemKey x 0; "]: "; formatValue x]])
      target.
Proof.
  intros Hnamed Hnd Hincl.
  assert (Hbase : forall y, In y base -> nameField y <> None)
    by (intros y Hy; apply Hnamed, Hincl, Hy).
  rewrite findJsonDifferences_eq. unfold findJsonDifferences_body.
  cbn [nullish typeof JsType_eqb negb]. unfold compareArrays_with.
  assert (Key : forall x i, In x target -> exists s,
                  nameField x = Some s /\ getItemKey x i = s).
  { intros x i Hx. destruct (nameField x) as [s|] eqn:E.
    - exists s. split; [reflexivity|now apply getItemKey_named].
    - now apply Hnamed in Hx. }
  rewrite (flat_map_all_nil _ (itemsOf base)).
  2:{ intros [k [item i]] Hin. cbn [fst snd].
      apply itemsOf_In in Hin. destruct Hin as [Hn ->].
      assert (Ht : In item target) by (eapply Hincl, nth_error_In, Hn).
      destruct (Key item i Ht) as (s & Es & ->).
      apply In_nth_error in Ht. destruct Ht as [j Hj].
      rewrite <- (getItemKey_named item s j Es), (itemsOf_has _ _ _ Hj).
      reflexivity. }
  rewrite (flat_map_all_nil _ (itemsOf base)), app_nil_r.
  2:{ intros [k [item i]] Hin. cbn [fst snd].
      destruct (Map_get (itemsOf target) k) as [[titem j]|] eqn:G; [|reflexivity].
      cbn [fst]. apply Map_get_In, itemsOf_In in G. destruct G as [Gn Gk].
      apply itemsOf_In in Hin. destruct Hin as [Hn Hk].
      assert (Hi : In item target) by (eapply Hincl, nth_error_In, Hn).
      assert (Ht : In titem target) by (eapply nth_error_In, Gn).
      destruct (Key item i Hi) as (s1 & E1 & K1).
      destruct (Key titem j Ht) as (s2 & E2 & K2).
      assert (item = titem) as <-.
      { apply (NoDup_map_eq nameField target); auto. congruence. }
      apply (findJsonDifferences_same (S (depth item))). lia. }
  cbn [app].
  assert (ET : itemsOf target
               = map (fun p => (getItemKey (snd p) 0, (snd p, fst p)))
                   (combine (seq 0 (List.length target)) target)).
  { unfold itemsOf. rewrite collectItems_named; auto. }
  rewrite ET, flat_map_map. cbn [fst snd].
  rewrite (flat_map_combine_seq
             (fun x => if negb (Map_has (itemsOf base) (getItemKey x 0))
                       then [tpl ["+ "; path; "["; getItemKey x 0; "]: "; formatValue x]]
                       else [])).
  apply flat_map_ext_In. intros x Hx.
  destruct (Key x 0 Hx) as (s & Es & ->).
  rewrite Map_has_itemsOf_named, Es by exact Hbase.
  now destruct (existsb _ base).
Qed.

Lemma diff_pure_additions_witness :
  findJsonDifferences (JArr [namedA; namedB]) (JArr [namedB; namedA; namedC])
    "tools"
  = [tpl ["+ tools[c]: {"; quote "name"; ":"; quote "c"; "}"]].
Proof.
  rewrite (diff_pure_additions [namedA; namedB] [namedB; namedA; namedC] "tools").
  - reflexivity.
  - intros x [<-|[<-|[<-|[]]]]; discriminate.
  - repeat constructor; simpl; intuition discriminate.
  - intros x [<-|[<-|[]]]; simpl; auto.
Defined.

End DifferProperties.

(* ================================================================== *)
(** ** Array members that share an identity key *)
(* ================================================================== *)

Module ArrayTheorems.
Import Js Diff DiffSpec DiffFacts MemberSpec Samples BuiltinFacts DifferProperties.

(** The two loops of [compareArrays] as a fold over the members with their
    indexes. *)
Lemma collectItems_fold items : forall idx acc,
  collectItems items idx acc
  = fold_left (fun m e => Map_set m (fst e) (snd e))
      (map (fun p => (getItemKey (snd p) (fst p), (snd p, fst p)))
         (combine (seq idx (List.length items)) items))
      acc.
Proof.
  induction items as [|x items IH]; intros idx acc; [reflexivity|].
  cbn [collectItems List.length seq combine map fold_left fst snd]. apply IH.
Qed.

Lemma find_map {A B} (p : B -> bool) (g : A -> B) (l : list A) :
  find p (map g l) = option_map g (find (fun x => p (g x)) l).
Proof.
  induction l as [|a l IH]; simpl; [reflexivity|]. now destruct (p (g a)).
Qed.

(** The entry of a key is the last member that has the key. *)
Lemma itemsOf_last_member items key :
  option_map fst (Map_get (itemsOf items) key) = last_member items key.
Proof.
  unfold itemsOf, last_member, keyed. rewrite collectItems_fold.
  rewrite (Map_fold_set_get fst snd). cbn [Map_get].
  rewrite <- !map_rev, !find_map. cbn [fst snd].
  now destruct (find _ (rev (combine _ items))).
Qed.

Lemma Set_of_aux_ext xs : forall s1 s2,
  (forall x, existsb (String.eqb x) s1 = existsb (String.eqb x) s2) ->
  Set_of_aux s1 xs = Set_of_aux s2 xs.
Proof.
  induction xs as [|y xs IH]; intros s1 s2 H; [reflexivity|].
  cbn [Set_of_aux]. rewrite <- (H y).
  destruct (existsb (String.eqb y) s1); [now apply IH|].
  f_equal. apply IH. intros x. cbn [existsb]. now rewrite H.
Qed.

Lemma Map_keys_Map_set {V} (m : JsMap V) k v :
  Map_keys (Map_set m k v)
  = if existsb (String.eqb k) (Map_keys m) then Map_keys m else Map_keys m ++ [k].
Proof.
  unfold Map_keys. induction m as [|[k0 v0] m IH]; [reflexivity|].
  cbn [Map_set map fst existsb]. rewrite (String.eqb_sym k k0).
  destruct (String.eqb k0 k); [reflexivity|].
  cbn [map fst orb]. rewrite IH. now destruct (existsb _ (map fst m)).
Qed.

(** The keys of a map filled by a loop of [set]: each key once, in the order
    of first assignment. *)
Lemma Map_keys_fold_set {V} (l : list (string * V)) : forall acc : JsMap V,
  Map_keys (fold_left (fun m e => Map_set m (fst e) (snd e)) l acc)
  = Map_keys acc ++ Set_of_aux (Map_keys acc) (map fst l).
Proof.
  induction l as [|[k v] l IH]; intros acc; cbn [fold_left map fst snd Set_of_aux].
  - now rewrite app_nil_r.
  - rewrite IH, Map_keys_Map_set.
    destruct (existsb (String.eqb k) (Map_keys acc)) eqn:E; [reflexivity|].
    rewrite <- app_assoc. cbn [app]. do 2 f_equal.
    apply Set_of_aux_ext. intros x. rewrite existsb_app. cbn [existsb].
    now rewrite orb_false_r, orb_comm.
Qed.

Lemma itemsOf_member_keys items : Map_keys (itemsOf items) = member_keys items.
Proof.
  unfold itemsOf, member_keys, keyed, Set_of. rewrite collectItems_fold.
  rewrite Map_keys_fold_set. cbn [Map_keys map app]. now rewrite !map_map.
Qed.

(** A loop over the entries of a map is a loop over its keys. *)
Lemma flat_map_Map_keys {V B} (f : string * V -> list B) (m : JsMap V) :
  NoDup (Map_keys m) ->
  flat_map f m
  = flat_map (fun k => match Map_get m k with Some v => f (k, v) | None => [] end)
      (Map_keys m).
Proof.
  unfold Map_keys. induction m as [|[k0 v0] m IH]; intros ND; [reflexivity|].
  inversion ND as [|? ? Hn ND']; subst.
  cbn [flat_map map fst Map_get]. rewrite String.eqb_refl. f_equal.
  rewrite (IH ND'). apply flat_map_ext_In. intros k Hk.
  destruct (String.eqb k0 k) eqn:E; [|reflexivity].
  apply String.eqb_eq in E. subst k0. contradiction.
Qed.

(** C9. In the reconciliation of two arrays only the last member of each
    identity key takes part.  The lines are made from the keys of the two
    arrays, each once in the order of first occurrence: a removed line
    renders the last base member of a key that no target member has, an
    added line renders the last target member of a key that no base member
    has, and for a key on both sides the differences are those of the last
    base member against the last target member.  A member that is followed
    by a member with the same key is therefore absent from the output:
    replacing it by any value with the same key changes nothing, whether the
    array is the base or the target. *)
Theorem C9_last_member_only (base target : list JValue) (path : string) :
  compareArrays base target path
  = flat_map
      (fun key =>
         match last_member base key, last_member target key with
         | Some item, None => [tpl ["- "; path; "["; key; "]: "; formatValue item]]
         | _, _ => []
         end)
      (member_keys base)
    ++ flat_map
         (fun key =>
            match last_member target key, last_member base key with
            | Some item, None =>
                [tpl ["+ "; path; "["; key; "]: "; formatValue item]]
            | _, _ => []
            end)
         (member_keys target)
    ++ flat_map
         (fun key =>
            match last_member base key, last_member target key with
            | Some baseItem, Some targetItem =>
                findJsonDifferences baseItem targetItem (tpl [path; "["; key; "]"])
            | _, _ => []
            end)
         (member_keys base)
  /\ forall (before : list JValue) (x x' : JValue) (after other : list JValue),
       getItemKey x' (List.length before) = getItemKey x (List.length before) ->
       (exists j y, nth_error after j = Some y
                    /\ getItemKey y (S (List.length before) + j)
                       = getItemKey x (List.length before)) ->
       compareArrays (before ++ x :: after) other path
       = compareArrays (before ++ x' :: after) other path
       /\ compareArrays other (before ++ x :: after) path
          = compareArrays other (before ++ x' :: after) path.
Proof.
  split.
  - unfold compareArrays, compareArrays_with.
    rewrite !(flat_map_Map_keys _ (itemsOf base)) by apply itemsOf_NoDup.
    rewrite (flat_map_Map_keys _ (itemsOf target)) by apply itemsOf_NoDup.
    rewrite !itemsOf_member_keys.
    f_equal; [|f_equal]; apply flat_map_ext_In; intros key _; cbn [fst snd];
      unfold Map_has; rewrite <- !itemsOf_last_member;
      destruct (Map_get (itemsOf base) key) as [[b i]|];
      destruct (Map_get (itemsOf target) key) as [[t j]|]; reflexivity.
  - intros before x x' after other Hk Hlater.
    unfold compareArrays, compareArrays_with.
    now rewrite (itemsOf_shadowed before x x' after Hk Hlater).
Qed.

(** A named member whose name is [#1] and a keyless member at index 1 share
    the key [#1]: the keyless member, the later one, is the one that is
    compared and rendered, and the named member has no part in the output. *)
Lemma C9_last_member_witness :
  getItemKey hashOne 0 = "#1" /\ getItemKey (JNum 5) 1 = "#1"
  /\ member_keys [hashOne; JNum 5] = ["#1"]
  /\ last_member [hashOne; JNum 5] "#1" = Some (JNum 5)
  /\ compareArrays [hashOne; JNum 5] [twinOne] "tools"
     = ["- tools[#1]: 5";
        tpl ["+ tools[a]: {"; quote "name"; ":"; quote "a"; ","; quote "v"; ":1}"]]
  /\ compareArrays [hashOne; JNum 5] [JStr "x"; JNum 6] "tools"
     = [tpl ["+ tools[#0]: "; quote "x"]; "- tools[#1]: 5"; "+ tools[#1]: 6"]
  /\ compareArrays [hashOneBis; JNum 5] [twinOne] "tools"
     = compareArrays [hashOne; JNum 5] [twinOne] "tools"
  /\ compareArrays [twinOne] [hashOneBis; JNum 5] "tools"
     = compareArrays [twinOne] [hashOne; JNum 5] "tools".
Proof.
  destruct (C9_last_member_only [hashOne; JNum 5] [twinOne] "tools") as [Heq Hsh].
  destruct (Hsh [] hashOne hashOneBis [JNum 5] [twinOne] eq_refl
              (ex_intro _ 0 (ex_intro _ (JNum 5) (conj eq_refl eq_refl))))
    as [H1 H2].
  split; [reflexivity|]. split; [reflexivity|]. split; [reflexivity|].
  split; [reflexivity|]. split; [rewrite Heq; reflexivity|].
  split; [reflexivity|]. split; [symmetry; exact H1|symmetry; exact H2].
Defined.

End ArrayTheorems.

(* ================================================================== *)
(** ** More on the comparison of the runner *)
(* ================================================================== *)

Module CompareProperties.
Import Js Diff Eff Runner DiffFacts CompareFacts Samples BuiltinFacts.

Lemma opt_string_eqb_eq a b : opt_string_eqb a b = true <-> a = b.
Proof.
  destruct a, b; simpl; try (split; [discriminate|discriminate]); try tauto.
  rewrite String.eqb_eq. split; [now intros ->|now intros [= ->]].
Qed.

(** Joining the lines of a text gives the text back. *)
Lemma split_char_not_nil sep s : split_char sep s <> [].
Proof.
  destruct s as [|c s]; simpl; [discriminate|].
  destruct (Ascii.eqb c sep); [discriminate|].
  destruct (split_char sep s); discriminate.
Qed.

Lemma concat_cons sep x y ys :
  String.concat sep (x :: y :: ys) = (x ++ sep ++ String.concat sep (y :: ys))%string.
Proof. reflexivity. Qed.

Lemma split_char_join sep s :
  String.concat (String sep EmptyString) (split_char sep s) = s.
Proof.
  induction s as [|c s IH]; [reflexivity|].
  cbn [split_char].
  pose proof (split_char_not_nil sep s) as Hn.
  destruct (split_char sep s) as [|x xs]; [contradiction|].
  destruct (Ascii.eqb c sep) eqn:E.
  - apply Ascii.eqb_eq in E. subst c.
    rewrite concat_cons, IH. reflexivity.
  - destruct xs as [|y ys].
    + simpl in *. now rewrite IH.
    + rewrite concat_cons. rewrite concat_cons in IH.
      change (String c x ++ String sep "" ++ String.concat (String sep "") (y :: ys))%string
        with (String c (x ++ String sep "" ++ String.concat (String sep "") (y :: ys))%string).
      now rewrite IH.
Qed.

Lemma split_lines_inj a b : split_lines a = split_lines b -> a = b.
Proof.
  unfold split_lines. intros H.
  rewrite <- (split_char_join (ascii_of_nat 10) a), H.
  apply split_char_join.
Qed.

Lemma flat_map_nil_inv {A B} (f : A -> list B) (l : list A) :
  flat_map f l = [] -> forall x, In x l -> f x = [].
Proof.
  induction l as [|a l IH]; simpl; [tauto|].
  intros H x [<- |Hx].
  - now apply app_eq_nil in H.
  - apply IH; [now apply app_eq_nil in H|exact Hx].
Qed.

Lemma simple_diff_none_iff (name base branch : string) :
  generateSimpleDiff name base branch = None <-> base = branch.
Proof.
  unfold generateSimpleDiff.
  set (f := fun i : nat => _).
  set (n := Nat.max _ _).
  split.
  - intros H.
    destruct (Nat.eqb (List.length (flat_map f (seq 0 n))) 0) eqn:E; [|discriminate].
    apply Nat.eqb_eq, length_zero_iff_nil in E.
    apply split_lines_inj, nth_error_ext. intros i.
    destruct (Nat.lt_ge_cases i n) as [Hi|Hi].
    + assert (Hf : f i = []).
      { apply (flat_map_nil_inv f (seq 0 n) E). apply in_seq. lia. }
      unfold f in Hf.
      destruct (opt_string_eqb (nth_error (split_lines base) i)
                  (nth_error (split_lines branch) i)) eqn:Q.
      * now apply opt_string_eqb_eq in Q.
      * simpl in Hf.
        destruct (nth_error (split_lines base) i); [discriminate|].
        destruct (nth_error (split_lines branch) i); [discriminate|reflexivity].
    + subst n.
      rewrite (proj2 (nth_error_None (split_lines base) i)) by lia.
      rewrite (proj2 (nth_error_None (split_lines branch) i)) by lia.
      reflexivity.
  - intros <-.
    rewrite (flat_map_all_nil f); [reflexivity|].
    intros i _. unfold f.
    now rewrite (proj2 (opt_string_eqb_eq _ _) eq_refl).
Qed.

(** X9. The line diff of two texts is empty exactly when the texts are
    equal. *)
Theorem generateSimpleDiff_none_iff (name base branch : string) :
  generateSimpleDiff name base branch = None <-> base = branch.
Proof. apply simple_diff_none_iff. Qed.

(** The entry of an endpoint depends on the two contents of that endpoint
    only. *)
Lemma compareResultsStep_same_key branchFiles baseFiles diffs e :
  Map_get (compareResultsStep branchFiles baseFiles diffs e) e
  = match Map_get (compareResultsStep branchFiles baseFiles [] e) e with
    | Some v => Some v
    | None => Map_get diffs e
    end.
Proof.
  unfold compareResultsStep.
  repeat match goal with
         | |- context [if ?c then _ else _] => destruct c
         | |- context [match generateSimpleDiff ?a ?b ?c with _ => _ end] =>
             destruct (generateSimpleDiff a b c)
         end; simpl; rewrite ?String.eqb_refl, ?Map_get_set_same; reflexivity.
Qed.

Lemma compareResults_fold_get branchFiles baseFiles e endpoints : forall diffs,
  Map_get (fold_left (compareResultsStep branchFiles baseFiles) endpoints diffs) e
  = if existsb (String.eqb e) endpoints
    then match Map_get (compareResultsStep branchFiles baseFiles [] e) e with
         | Some v => Some v
         | None => Map_get diffs e
         end
    else Map_get diffs e.
Proof.
  induction endpoints as [|a rest IH]; simpl; intros diffs; [reflexivity|].
  rewrite IH. destruct (String.eqb e a) eqn:E; simpl.
  - apply String.eqb_eq in E. subst a.
    rewrite (compareResultsStep_same_key _ _ diffs).
    destruct (Map_get (compareResultsStep branchFiles baseFiles [] e) e);
      now destruct (existsb (String.eqb e) rest).
  - apply String.eqb_neq in E.
    rewrite (compareResultsStep_other _ _ diffs e a)
      by (intros X; apply E; now symmetry).
    reflexivity.
Qed.

Lemma compareResults_get branchFiles baseFiles e :
  Map_get (compareResults branchFiles baseFiles) e
  = Map_get (compareResultsStep branchFiles baseFiles [] e) e.
Proof.
  unfold compareResults. rewrite compareResults_fold_get. simpl.
  destruct (existsb _ _) eqn:E.
  - now destruct (Map_get (compareResultsStep branchFiles baseFiles [] e) e).
  - assert (Nb : Map_get branchFiles e = None).
    { destruct (Map_get branchFiles e) eqn:G; [|reflexivity].
      apply Map_get_key in G.
      assert (existsb (String.eqb e)
                (Set_of (Map_keys branchFiles ++ Map_keys baseFiles)) = true).
      { apply existsb_exists. exists e. split; [|apply String.eqb_refl].
        apply Set_of_complete, in_or_app. now left. }
      congruence. }
    assert (Na : Map_get baseFiles e = None).
    { destruct (Map_get baseFiles e) eqn:G; [|reflexivity].
      apply Map_get_key in G.
      assert (existsb (String.eqb e)
                (Set_of (Map_keys branchFiles ++ Map_keys baseFiles)) = true).
      { apply existsb_exists. exists e. split; [|apply String.eqb_refl].
        apply Set_of_complete, in_or_app. now right. }
      congruence. }
    unfold compareResultsStep. rewrite Nb, Na. reflexivity.
Qed.

(** X10. For an endpoint that has content on both sides, the comparison of
    the runner has an entry exactly when the two contents differ. *)
Theorem compareResults_entry_iff (branchFiles baseFiles : JsMap string)
    (e branchContent baseContent : string) :
  Map_get branchFiles e = Some branchContent ->
  Map_get baseFiles e = Some baseContent ->
  truthy branchContent = true -> truthy baseContent = true ->
  Map_get (compareResults branchFiles baseFiles) e = None
  <-> branchContent = baseContent.
Proof.
  intros Hb Ha Tb Ta. rewrite compareResults_get.
  unfold compareResultsStep. rewrite Hb, Ha. simpl. rewrite Tb, Ta. simpl.
  unfold or_else. rewrite Tb, Ta.
  destruct (String.eqb branchContent baseContent) eqn:E; simpl.
  - apply String.eqb_eq in E. tauto.
  - apply String.eqb_neq in E.
    destruct (generateSimpleDiff e baseContent branchContent) as [d|] eqn:G.
    + assert (Td : truthy d = true).
      { unfold generateSimpleDiff in G.
        destruct (Nat.eqb _ 0); [discriminate|]. now injection G as <-. }
      rewrite Td. cbn. rewrite String.eqb_refl. split; [discriminate|tauto].
    + apply simple_diff_none_iff in G. congruence.
Qed.

Lemma compareResults_entry_iff_witness :
  Map_get (compareResults filesWithTools [("tools", "[]")]) "tools" = None
  <-> "{}" = "[]".
Proof.
  apply (compareResults_entry_iff filesWithTools [("tools", "[]")] "tools"
           "{}" "[]"); reflexivity.
Defined.

(** Two equal file maps have no differing endpoint. *)
Lemma compareResultsStep_same (files diffs : JsMap string) (e : string) :
  compareResultsStep files files diffs e = diffs.
Proof.
  unfold compareResultsStep.
  destruct (truthy_opt (Map_get files e)); simpl.
  - destruct (Map_get files e) as [c|]; simpl; [|reflexivity].
    now rewrite String.eqb_refl.
  - destruct (Map_get files e) as [c|]; simpl; [|reflexivity].
    now rewrite String.eqb_refl.
Qed.

Lemma compareResults_same (files : JsMap string) : compareResults files files = [].
Proof.
  unfold compareResults.
  generalize (Set_of (Map_keys files ++ Map_keys files)).
  intros ks. induction ks as [|k ks IH]; simpl; [reflexivity|].
  now rewrite compareResultsStep_same.
Qed.

End CompareProperties.

(* ================================================================== *)
(** ** Environment variables *)
(* ================================================================== *)

Module EnvVarsProperties.
Import Js Diff Eff Runner DiffFacts EnvSpec BuiltinFacts.

Lemma indexOf_prefix c s : forall i,
  indexOf_char c s = Some i ->
  indexOf_char c (substring 0 i s) = None
  /\ String.length (substring 0 i s) = i.
Proof.
  induction s as [|d s IH]; simpl; intros i H; [discriminate|].
  destruct (Ascii.eqb d c) eqn:E.
  - injection H as <-. simpl. auto.
  - destruct (indexOf_char c s) as [j|]; [|discriminate].
    injection H as <-. simpl. rewrite E.
    destruct (IH j eq_refl) as [-> ->]. auto.
Qed.

Lemma forallb_Map_set {V} (q : string -> bool) (m : JsMap V) k v :
  forallb (fun kv => q (fst kv)) m = true -> q k = true ->
  forallb (fun kv => q (fst kv)) (Map_set m k v) = true.
Proof.
  intros Hm Hk. induction m as [|[k0 v0] m IH]; simpl in *.
  - now rewrite Hk.
  - apply andb_prop in Hm. destruct Hm as [H0 Hm].
    destruct (String.eqb k0 k); simpl; rewrite H0; simpl; auto.
Qed.

Lemma fold_left_invariant {A B} (P : A -> Prop) (f : A -> B -> A) (l : list B) :
  (forall a b, P a -> P (f a b)) -> forall a, P a -> P (fold_left f l a).
Proof. intros H. induction l as [|b l IH]; simpl; auto. Qed.

(** X11. Every variable read from the text has a name that is not empty and
    contains no equals sign. *)
Theorem parseEnvVars_names (input : option string) :
  forallb (fun kv => truthy (fst kv) && no_char "="%char (fst kv))
    (parseEnvVars input) = true.
Proof.
  unfold parseEnvVars. destruct input as [input|]; [|reflexivity].
  destruct (negb (truthy input)); [reflexivity|].
  apply fold_left_invariant; [|reflexivity].
  intros env line Henv.
  destruct (negb (truthy (trim line)) || startsWith (trim line) "#"); [exact Henv|].
  destruct (indexOf_char "=" (trim line)) as [i|] eqn:E; [|exact Henv].
  destruct (Nat.ltb 0 i) eqn:Hi; [|exact Henv].
  unfold Object_set. destruct (String.eqb _ "__proto__"); [exact Henv|].
  apply (forallb_Map_set (fun k => truthy k && no_char "="%char k)); [exact Henv|].
  apply Nat.ltb_lt in Hi. destruct (indexOf_prefix _ _ _ E) as [Hn Hl].
  unfold no_char. rewrite Hn. simpl. rewrite andb_true_r.
  destruct (substring 0 i (trim line)); simpl in *; [lia|reflexivity].
Qed.


(** *** Reading back lines [KEY=value] *)

Lemma truthy_app_r a b : truthy b = true -> truthy (a ++ b) = true.
Proof. destruct a; simpl; auto. Qed.

Lemma trimEnd_app a t :
  truthy t = true -> trimEnd t = t -> trimEnd (a ++ t) = (a ++ t)%string.
Proof.
  intros Ht Hid. induction a as [|c a IH]; simpl; [exact Hid|].
  rewrite IH, (truthy_app_r a t Ht). now rewrite andb_false_r.
Qed.

Lemma split_char_none sep s :
  no_char sep s = true -> split_char sep s = [s].
Proof.
  unfold no_char. induction s as [|c s IH]; simpl; [reflexivity|].
  destruct (Ascii.eqb c sep); [discriminate|].
  destruct (indexOf_char sep s); [discriminate|].
  intros _. now rewrite IH.
Qed.

Lemma split_char_app sep a b :
  no_char sep a = true ->
  split_char sep (a ++ String sep b) = a :: split_char sep b.
Proof.
  unfold no_char. induction a as [|c a IH]; simpl.
  - intros _. now rewrite Ascii.eqb_refl.
  - destruct (Ascii.eqb c sep); [discriminate|].
    destruct (indexOf_char sep a); [discriminate|].
    intros _. now rewrite IH.
Qed.

Lemma split_char_concat sep line lines :
  forallb (no_char sep) (line :: lines) = true ->
  split_char sep (String.concat (String sep EmptyString) (line :: lines))
  = line :: lines.
Proof.
  revert line. induction lines as [|l lines IH]; intros line H.
  - simpl in *. rewrite andb_true_r in H. now apply split_char_none.
  - cbn [forallb] in H. apply andb_prop in H. destruct H as [H1 H2].
    change (String.concat (String sep "") (line :: l :: lines))
      with (line ++ String sep (String.concat (String sep "") (l :: lines)))%string.
    rewrite split_char_app by exact H1. now rewrite IH.
Qed.

Lemma no_char_app c a b :
  no_char c a = true -> no_char c b = true -> no_char c (a ++ b) = true.
Proof.
  unfold no_char. induction a as [|d a IH]; simpl; [auto|].
  destruct (Ascii.eqb d c); [discriminate|].
  destruct (indexOf_char c a); [discriminate|].
  intros _ Hb. specialize (IH eq_refl Hb).
  now destruct (indexOf_char c (a ++ b)).
Qed.

Lemma indexOf_char_app c a b :
  no_char c a = true ->
  indexOf_char c (a ++ String c b) = Some (String.length a).
Proof.
  unfold no_char. induction a as [|d a IH]; simpl.
  - intros _. now rewrite Ascii.eqb_refl.
  - destruct (Ascii.eqb d c); [discriminate|].
    destruct (indexOf_char c a); [discriminate|].
    intros _. now rewrite IH.
Qed.


Lemma substring_app_l a b : substring 0 (String.length a) (a ++ b) = a.
Proof.
  induction a as [|c a IH]; simpl; [now destruct b|]. now rewrite IH.
Qed.

Lemma substring_app_r a b n m :
  substring (String.length a + n) m (a ++ b) = substring n m b.
Proof. induction a as [|c a IH]; simpl; auto. Qed.

(** One line [KEY=value] is read as the assignment of [value] to [KEY]. *)
Lemma parse_env_line k v :
  env_pair_ok (k, v) = true ->
  let line := tpl [k; "="; v] in
  trim line = line
  /\ (negb (truthy line) || startsWith line "#") = false
  /\ indexOf_char "="%char line = Some (String.length k)
  /\ Nat.ltb 0 (String.length k) = true
  /\ substring 0 (String.length k) line = k
  /\ substring_from (String.length k + 1) line = v.
Proof.
  unfold env_pair_ok. cbn [fst snd]. intros H.
  rewrite !andb_true_iff in H. destruct H as [[[[Hs He] Hnk] Hnv] Hv].
  apply String.eqb_eq in Hv.
  change (tpl [k; "="; v]) with (k ++ String "=" v)%string. cbv zeta.
  destruct k as [|c k]; [discriminate|]. cbn [starts_name] in Hs.
  apply andb_prop in Hs. destruct Hs as [Hws Hhash].
  apply negb_true_iff in Hws, Hhash.
  assert (Htrim : trimEnd (String "=" v) = String "=" v).
  { cbn [trimEnd]. rewrite Hv. reflexivity. }
  repeat split.
  - unfold trim. cbn [append trimStart]. rewrite Hws.
    change (String c (k ++ String "=" v)) with (String c k ++ String "=" v)%string.
    apply trimEnd_app; [reflexivity|exact Htrim].
  - cbn [append truthy negb orb]. unfold startsWith.
    change (String.prefix "#" (String c (k ++ String "=" v)))
      with (if ascii_dec "#" c then String.prefix "" (k ++ String "=" v) else false).
    destruct (ascii_dec "#" c) as [<- |_]; [discriminate|reflexivity].
  - now apply indexOf_char_app.
  - apply substring_app_l.
  - unfold substring_from.
    rewrite (substring_app_r (String c k) (String "=" v) 1).
    rewrite length_append.
    replace (String.length (String c k) + String.length (String "=" v)
             - (String.length (String c k) + 1)) with (String.length v)
      by (cbn [String.length]; lia).
    cbn [substring]. apply substring_all.
Qed.

Lemma parse_env_lines pairs : forall env,
  forallb env_pair_ok pairs = true ->
  ~ In "__proto__" (map fst pairs) ->
  fold_left
    (fun env line =>
       let trimmed := trim line in
       if negb (truthy trimmed) || startsWith trimmed "#" then env
       else
         match indexOf_char "="%char trimmed with
         | Some eqIndex =>
             if Nat.ltb 0 eqIndex then
               let key := substring 0 eqIndex trimmed in
               let value := substring_from (eqIndex + 1) trimmed in
               Object_set env key value
             else env
         | None => env
         end)
    (map (fun kv => tpl [fst kv; "="; snd kv]) pairs) env
  = fold_left (fun m kv => Map_set m (fst kv) (snd kv)) pairs env.
Proof.
  induction pairs as [|[k v] pairs IH]; intros env H Hproto; [reflexivity|].
  cbn [forallb] in H. apply andb_prop in H. destruct H as [Hkv H].
  cbn [map fold_left fst snd]. cbn [map fst] in Hproto.
  destruct (parse_env_line k v Hkv) as (Ht & Hskip & Hi & Hpos & Hk & Hv).
  cbv zeta. rewrite Ht, Hskip, Hi, Hpos, Hk, Hv.
  destruct (String.eqb k "__proto__") eqn:E.
  - apply String.eqb_eq in E. exfalso. apply Hproto. now left.
  - replace (Object_set env k v) with (Map_set env k v)
      by (unfold Object_set; now rewrite E).
    apply IH; [exact H|]. intros Hin. apply Hproto. now right.
Qed.

Lemma env_line_no_newline k v :
  env_pair_ok (k, v) = true -> no_char (ascii_of_nat 10) (tpl [k; "="; v]) = true.
Proof.
  unfold env_pair_ok. cbn [fst snd]. intros H.
  rewrite !andb_true_iff in H. destruct H as [[[[Hs He] Hnk] Hnv] Hv].
  change (tpl [k; "="; v]) with (k ++ String "=" v)%string.
  apply no_char_app; [assumption|].
  unfold no_char in *. cbn [indexOf_char].
  change (Ascii.eqb "=" (ascii_of_nat 10)) with false. cbv iota.
  now destruct (indexOf_char (ascii_of_nat 10) v).
Qed.

Lemma parseEnvVars_env_text pairs :
  forallb env_pair_ok pairs = true ->
  ~ In "__proto__" (map fst pairs) ->
  parseEnvVars (Some (env_text pairs))
  = fold_left (fun m kv => Map_set m (fst kv) (snd kv)) pairs [].
Proof.
  intros H Hproto. unfold parseEnvVars, env_text.
  destruct pairs as [|kv pairs]; [reflexivity|].
  assert (Hl : forallb (no_char (ascii_of_nat 10))
                 (map (fun kv => tpl [fst kv; "="; snd kv]) (kv :: pairs)) = true).
  { rewrite forallb_forall in *. intros line Hin. apply in_map_iff in Hin.
    destruct Hin as ([k v] & <- & Hin). apply env_line_no_newline, H, Hin. }
  unfold split_lines, nl.
  cbn [map] in *. rewrite (split_char_concat _ _ _ Hl).
  assert (Ht : truthy (String.concat (String (ascii_of_nat 10) "")
                 (tpl [fst kv; "="; snd kv]
                  :: map (fun kv => tpl [fst kv; "="; snd kv]) pairs)) = true).
  { clear Hproto. destruct kv as [k v]. cbn [forallb] in H. apply andb_prop in H.
    destruct H as [Hkv _]. unfold env_pair_ok in Hkv. cbn [fst snd] in *.
    destruct k; [discriminate|].
    destruct (map _ pairs); reflexivity. }
  rewrite Ht. cbn [negb].
  exact (parse_env_lines (kv :: pairs) [] H Hproto).
Qed.

(** X12. Environment variables written one per line as [KEY=value] are read
    back: looking a name up gives the value of the last line for that name.
    The names start with a character that is neither white space nor [#],
    have no [=] and are not [__proto__]; names and values have no line
    break, and the values do not end in white space. *)
Theorem parseEnvVars_round_trip (pairs : list (string * string)) (key : string) :
  forallb env_pair_ok pairs = true ->
  ~ In "__proto__" (map fst pairs) ->
  Map_get (parseEnvVars (Some (env_text pairs))) key
  = option_map snd (find (fun kv => String.eqb (fst kv) key) (rev pairs)).
Proof.
  intros H Hproto. rewrite (parseEnvVars_env_text pairs H Hproto).
  rewrite (Map_fold_set_get fst snd). now destruct (find _ (rev pairs)).
Qed.

Lemma parseEnvVars_round_trip_witness :
  Map_get (parseEnvVars (Some (tpl ["PORT=8080"; nl; "MODE=a b"; nl; "PORT=9090"])))
    "PORT"
  = Some "9090".
Proof.
  apply (parseEnvVars_round_trip
           [("PORT", "8080"); ("MODE", "a b"); ("PORT", "9090")] "PORT").
  - reflexivity.
  - simpl. intuition discriminate.
Defined.

End EnvVarsProperties.

(* ================================================================== *)
(** ** More on the configuration runner *)
(* ================================================================== *)

Module RunProperties.
Import Js Diff Eff Git Runner RunnerSpec Samples MoreSamples RunnerFacts EventSpec CompareProperties.

#[local] Arguments tpl : simpl never.
#[local] Arguments parseEnvVars : simpl never.
#[local] Arguments probeOptions : simpl never.
#[local] Arguments compareResults : simpl never.
#[local] Arguments Map_set : simpl never.
#[local] Arguments Map_size : simpl never.
#[local] Arguments String_of_index : simpl never.
#[local] Arguments Nat.ltb : simpl never.

(** X13. The build runs the install command and then the build command,
    each as a shell command in the given directory and only if it is not
    empty, and stops at the first one that fails.  When it returns, exactly
    these commands were run, in this order, and none failed.  When it
    throws, the commands that were run are those up to the failed one, which
    is the last thing it did and whose error is the one thrown: a failed
    install command prevents the build command. *)
Theorem runBuild_stops_at_failure (host : Host) (L : Type) (dir : string)
    (inputs : ActionInputs) (l : L) (h : list Event) :
  let planned :=
    (if truthy (installCommand inputs)
     then [Sh (installCommand inputs) dir] else [])
    ++ (if truthy (buildCommand inputs)
        then [Sh (buildCommand inputs) dir] else []) in
  exists o ev,
    runBuild host dir inputs l h = (o, l, ev)
    /\ match o with
       | Ok _ =>
           exec_commands ev = planned
           /\ forallb not_failed_exec ev = true
       | Throw e =>
           exists before failed after,
             planned = before ++ failed :: after
             /\ exec_commands ev = before ++ [failed]
             /\ last ev (ELog Info "") = EExec failed (Throw e)
             /\ forallb not_failed_exec (removelast ev) = true
       end.
Proof.
  unfold runBuild, bind, ret, exec, log. cbn.
  repeat (run_oracle; cbn); eexists _, _; (split; [reflexivity|]);
    try (split; reflexivity);
    first [ solve [exists [], (Sh (installCommand inputs) dir); eexists;
                   repeat split; reflexivity]
          | solve [exists [], (Sh (buildCommand inputs) dir); eexists;
                   repeat split; reflexivity]
          | solve [exists [Sh (installCommand inputs) dir],
                          (Sh (buildCommand inputs) dir); eexists;
                   repeat split; reflexivity] ].
Qed.

(** X14. A run throws exactly when a probe rejects, the checkout of the
    comparison ref fails or a shell command of the build fails.  It throws
    the error of the first such failure, and after that failure it does
    nothing but release the baseline; failures of worktree creation and of
    the release itself are swallowed. *)
Theorem run_throws_first_failure (host : Host) (L : Type)
    (config : TestConfiguration) (ctx : RunContext) (l l' : L)
    (h ev : list Event) (o : Outcome TestResult) :
  runSingleConfigTest host config ctx l h = (o, l', ev) ->
  match after_fatal ev with
  | None => exists r, o = Ok r
  | Some (e, rest) => o = Throw e /\ forallb is_release rest = true
  end.
Proof.
  revert o l' ev. run_single; intros o l' ev [= <- <- <-]; cbn;
    solve [eexists; reflexivity | split; reflexivity].
Qed.

Lemma run_throws_first_failure_witness :
  exists o ev,
    runSingleConfigTest (sampleHost true true None) sampleConfig sampleCtx tt []
    = (o, tt, ev)
    /\ after_fatal ev
       = Some ("Error: exit code 1",
               [EExec (GitWorktreeRemove "/work/.conformance-base") (Ok "")])
    /\ o = Throw "Error: exit code 1".
Proof.
  destruct (runSingleConfigTest (sampleHost true true None)
              sampleConfig sampleCtx tt []) as [[o l'] ev] eqn:E.
  pose proof (run_throws_first_failure _ _ _ _ _ _ _ _ _ E) as H.
  pose proof E as E'. vm_compute in E'. injection E' as <- <- <-.
  eexists _, _. split; [reflexivity|]. split; [reflexivity|].
  exact (proj1 H).
Defined.

(** X15. When the probe of the current branch rejects, the run throws that
    error and has run no command at all: no worktree, no checkout, no build,
    no release. *)
Theorem run_branch_probe_rejects (host : Host) (L : Type)
    (config : TestConfiguration) (ctx : RunContext) (l l' : L)
    (h ev : list Event) (o : Outcome TestResult) (e : Err) :
  runSingleConfigTest host config ctx l h = (o, l', ev) ->
  first_probe ev = Some (Throw e) ->
  o = Throw e /\ existsb is_exec ev = false.
Proof.
  revert o l' ev. run_single; intros o l' ev [= <- <- <-] Hfirst;
    try discriminate Hfirst; injection Hfirst as <-; split; reflexivity.
Qed.

Lemma run_branch_probe_rejects_witness :
  exists o ev,
    runSingleConfigTest brokenHost sampleConfig sampleCtx tt [] = (o, tt, ev)
    /\ first_probe ev = Some (Throw "Error: connection refused")
    /\ o = Throw "Error: connection refused" /\ existsb is_exec ev = false.
Proof.
  destruct (runSingleConfigTest brokenHost sampleConfig sampleCtx tt [])
    as [[o l'] ev] eqn:E.
  pose proof E as E'. vm_compute in E'. injection E' as <- <- <-.
  eexists _, _. split; [reflexivity|]. split; [reflexivity|].
  eapply run_branch_probe_rejects; [exact E | reflexivity].
Defined.



(** X17. A run whose two probes answer with snapshots that give the same
    files, the second without a terminal error, reports no difference. *)
Theorem run_identical_snapshots (host : Host) (L : Type)
    (config : TestConfiguration) (ctx : RunContext) (l l' : L)
    (h ev : list Event) (r : TestResult) (p1 p2 : ProbeResult) :
  runSingleConfigTest host config ctx l h = (Ok r, l', ev) ->
  probe_answers ev = [Ok p1; Ok p2] ->
  probeResultToFiles host p1 = probeResultToFiles host p2 ->
  truthy_opt (error p2) = false ->
  hasDifferences r = false /\ diffs r = [].
Proof.
  revert r l' ev. run_single; intros r l' ev E; try discriminate E;
    injection E as <- <- <-; cbn; intros Hp Hf He;
    try discriminate Hp; injection Hp as <- <-; try congruence.
  all: match goal with
       | Hlt : Nat.ltb 0 (Map_size (compareResults _ _)) = _ |- _ =>
           rewrite Hf, compareResults_same in Hlt; vm_compute in Hlt
       end; try discriminate.
  all: rewrite Hf, compareResults_same; split; reflexivity.
Qed.

Lemma run_identical_snapshots_witness :
  exists r ev,
    runSingleConfigTest (sampleHost false true None) sampleConfig sampleCtx tt []
    = (Ok r, tt, ev)
    /\ probe_answers ev = [Ok (snapshot None); Ok (snapshot None)]
    /\ hasDifferences r = false /\ diffs r = [].
Proof.
  destruct (runSingleConfigTest (sampleHost false true None)
              sampleConfig sampleCtx tt []) as [[o l'] ev] eqn:E.
  pose proof E as E'. vm_compute in E'. injection E' as <- <- <-.
  eexists _, _. split; [reflexivity|]. split; [reflexivity|].
  eapply run_identical_snapshots; [exact E | reflexivity | reflexivity | reflexivity].
Defined.

End RunProperties.

(* ================================================================== *)
(** ** The options of a probe *)
(* ================================================================== *)

Module ProbeProperties.
Import Js Diff Eff Runner DiffFacts Samples MoreSamples EnvVarsProperties WordSpec.

(** Looking a key up in [{...a, ...b}]: the value of [b] if it has one, that
    of [a] otherwise. *)
Lemma spread_get {V} (b : JsMap V) : forall (a : JsMap V) (k : string),
  NoDup (Map_keys b) ->
  Map_get (spread a b) k
  = match Map_get b k with Some v => Some v | None => Map_get a k end.
Proof.
  unfold spread.
  induction b as [|[k0 v0] b IH]; intros a k ND; [reflexivity|].
  inversion ND as [|? ? Hn ND']; subst.
  cbn [fold_left fst snd]. rewrite (IH _ _ ND'). cbn [Map_get].
  destruct (String.eqb k0 k) eqn:E.
  - apply String.eqb_eq in E. subst k0.
    destruct (Map_get b k) as [v|] eqn:G.
    + exfalso. apply Hn. exact (Map_get_key _ _ _ G).
    + apply Map_get_set_same.
  - apply String.eqb_neq in E.
    destruct (Map_get b k); [reflexivity|]. now apply Map_get_set_other.
Qed.

Lemma parseEnvVars_NoDup (input : option string) :
  NoDup (Map_keys (parseEnvVars input)).
Proof.
  unfold parseEnvVars. destruct input as [input|]; [|constructor].
  destruct (negb (truthy input)); [constructor|].
  apply fold_left_invariant; [|constructor].
  intros env line H.
  destruct (negb (truthy (trim line)) || startsWith (trim line) "#"); [exact H|].
  destruct (indexOf_char "=" (trim line)) as [i|]; [|exact H].
  destruct (Nat.ltb 0 i); [|exact H].
  unfold Object_set. destruct (String.eqb _ "__proto__"); [exact H|].
  now apply Map_keys_set.
Qed.

(** X29. The environment of a probe is that of the action overridden by that
    of the configuration: a variable has the value the configuration gives
    it, and the global value when the configuration does not set it. *)
Theorem probeOptions_env_override (config : TestConfiguration) (workDir : string)
    (globalEnvVars globalHeaders : JsMap string)
    (globalCustomMessages : list CustomMessage) (key : string) :
  Map_get
    (po_envVars (probeOptions config workDir globalEnvVars globalHeaders
                   globalCustomMessages)) key
  = match Map_get (parseEnvVars (env_vars config)) key with
    | Some value => Some value
    | None => Map_get globalEnvVars key
    end.
Proof.
  unfold probeOptions. destruct (transport config); cbn [po_envVars];
    apply spread_get, parseEnvVars_NoDup.
Qed.

Lemma split_ws_from_no_space (s : string) : forall skipping,
  forallb no_space (split_ws_from skipping s) = true.
Proof.
  induction s as [|c s IH]; intros skipping; [reflexivity|].
  cbn [split_ws_from]. destruct (is_ws c) eqn:W.
  - destruct skipping; [apply IH|]. cbn [forallb no_space]. apply IH.
  - specialize (IH false). destruct (split_ws_from false s) as [|x xs].
    + cbn. now rewrite W.
    + cbn [forallb no_space] in *. rewrite W. exact IH.
Qed.

Lemma forallb_tl {A} (f : A -> bool) (l : list A) :
  forallb f l = true -> forallb f (tl l) = true.
Proof. destruct l; simpl; [auto|]. intros H. now apply andb_prop in H. Qed.

Lemma forallb_hd (f : string -> bool) (l : list string) :
  f "" = true -> forallb f l = true -> f (hd "" l) = true.
Proof. destruct l; simpl; [auto|]. intros _ H. now apply andb_prop in H. Qed.

Lemma split_ws_from_cons (s : string) (skipping : bool) :
  split_ws_from skipping s
  = hd "" (split_ws_from skipping s) :: tl (split_ws_from skipping s).
Proof.
  revert skipping. induction s as [|c s IH]; intros skipping; [reflexivity|].
  cbn [split_ws_from]. destruct (is_ws c).
  - destruct skipping; [apply IH|reflexivity].
  - now destruct (split_ws_from false s).
Qed.

Lemma or_else_empty (s : string) : or_else s "" = s.
Proof. now destruct s. Qed.

(** X30. For the stdio transport the probe runs in the given working
    directory, and its command followed by its arguments is the start
    command split at the runs of white space, followed by the extra
    arguments (when there are any) split in the same way.  None of these
    pieces contains white space, so a quoted argument with a blank is split
    like any other text. *)
Theorem probeOptions_stdio_words (config : TestConfiguration) (workDir : string)
    (globalEnvVars globalHeaders : JsMap string)
    (globalCustomMessages : list CustomMessage) :
  transport config = Stdio ->
  exists command arguments,
    po_command (probeOptions config workDir globalEnvVars globalHeaders
                  globalCustomMessages) = Some command
    /\ po_args (probeOptions config workDir globalEnvVars globalHeaders
                  globalCustomMessages) = Some arguments
    /\ po_workingDir (probeOptions config workDir globalEnvVars globalHeaders
                        globalCustomMessages) = Some workDir
    /\ command :: arguments
       = split_ws (match start_command config with Some c => c | None => "" end)
         ++ match args config with
            | Some a => if truthy a then split_ws a else []
            | None => []
            end
    /\ forallb no_space (command :: arguments) = true.
Proof.
  intros Ht. unfold probeOptions. rewrite Ht.
  eexists _, _. split; [reflexivity|]. split; [reflexivity|].
  split; [reflexivity|].
  assert (Hs : match start_command config with
               | Some c => or_else c ""
               | None => ""
               end
               = match start_command config with Some c => c | None => "" end)
    by (destruct (start_command config); [apply or_else_empty|reflexivity]).
  rewrite Hs.
  set (parts := split_ws _).
  assert (Hc : parts = hd "" parts :: tl parts) by apply split_ws_from_cons.
  assert (Hp : forallb no_space parts = true) by apply split_ws_from_no_space.
  split.
  - destruct (args config) as [a|]; cbn [truthy_opt].
    + destruct (truthy a).
      * change ((hd "" parts :: tl parts) ++ split_ws a = parts ++ split_ws a).
        now rewrite <- Hc.
      * rewrite app_nil_r. symmetry. exact Hc.
    + rewrite app_nil_r. symmetry. exact Hc.
  - cbn [forallb]. rewrite (forallb_hd _ _ eq_refl Hp). cbn [andb].
    destruct (truthy_opt (args config)).
    + rewrite forallb_app, (forallb_tl _ _ Hp). apply split_ws_from_no_space.
    + apply forallb_tl, Hp.
Qed.

Lemma probeOptions_stdio_words_witness :
  exists command arguments,
    po_command (probeOptions quotedConfig "/work" [] [] []) = Some command
    /\ po_args (probeOptions quotedConfig "/work" [] [] []) = Some arguments
    /\ po_workingDir (probeOptions quotedConfig "/work" [] [] []) = Some "/work"
    /\ command :: arguments
       = ["node"; "server.js"; "--title"; "'my"; "server'"]
    /\ forallb no_space (command :: arguments) = true.
Proof.
  destruct (probeOptions_stdio_words quotedConfig "/work" [] [] [] eq_refl)
    as (command & arguments & Hc & Ha & Hw & Hwords & Hns).
  exists command, arguments.
  split; [exact Hc|]. split; [exact Ha|]. split; [exact Hw|].
  split; [rewrite Hwords; reflexivity|exact Hns].
Defined.

End ProbeProperties.

(* ================================================================== *)
(** ** More on the batch runner *)
(* ================================================================== *)

Module BatchProperties.
Import Js Diff Eff Git Runner RunnerSpec Samples MoreSamples RunnerFacts BatchFacts EventSpec.

#[local] Arguments tpl : simpl never.
#[local] Arguments parseEnvVars : simpl never.
#[local] Arguments probeOptions : simpl never.
#[local] Arguments compareResults : simpl never.
#[local] Arguments Map_set : simpl never.
#[local] Arguments Map_size : simpl never.
#[local] Arguments String_of_index : simpl never.
#[local] Arguments Nat.ltb : simpl never.

(** The result of a run carries the name of its configuration, and a run
    does not touch the file system. *)
Lemma runSingleConfigTest_name (host : Host) (L : Type)
    (config : TestConfiguration) (ctx : RunContext) (l l' : L)
    (h ev : list Event) (o : Outcome TestResult) :
  runSingleConfigTest host config ctx l h = (o, l', ev) ->
  filter fs_failed ev = []
  /\ match o with Ok r => configName r = name config | Throw _ => True end.
Proof.
  revert o l' ev. run_single; intros o l' ev [= <- <- <-]; split; reflexivity.
Qed.

Lemma filter_nil_existsb {A} (f : A -> bool) (l : list A) :
  existsb f l = false <-> filter f l = [].
Proof.
  induction l as [|a l IH]; simpl; [tauto|].
  destruct (f a); simpl; [split; discriminate|exact IH].
Qed.

Section BatchNames.
Variable host : Host.
Variable ctx : RunContext.

(** One turn of the batch loop adds the name of the configuration once, and
    once more when saving the result failed. *)
Lemma runAllTestsStep_names (config : TestConfiguration)
    (results : list TestResult) (h : list Event) :
  exists rs ev,
    runAllTestsStep host ctx config results h = (Ok tt, results ++ rs, ev)
    /\ map configName rs
       = repeat (name config) (1 + List.length (filter fs_failed ev)).
Proof.
  destruct (runSingleConfigTest_locals host ctx config results h) as (o & evRun & E).
  destruct (runSingleConfigTest_name _ _ _ _ _ _ _ _ _ E) as [Hfs Hn].
  unfold runAllTestsStep, try_catch, bind. rewrite E.
  destruct o as [r|e]; cbn.
  - destruct (mkdir_out host _ _) as [[]|e1] eqn:Em; cbn.
    + destruct (write_out host _ _ _) as [[]|e2] eqn:Ew; cbn.
      * exists [r]. eexists. split; [reflexivity|].
        rewrite filter_app, Hfs. cbn. now rewrite Hn.
      * rewrite <- !app_assoc. cbn. eexists [r; _]. eexists.
        split; [reflexivity|]. rewrite filter_app, Hfs. cbn. now rewrite Hn.
    + rewrite <- !app_assoc. cbn. eexists [r; _]. eexists.
      split; [reflexivity|]. rewrite filter_app, Hfs. cbn. now rewrite Hn.
  - eexists [_]. eexists. split; [reflexivity|].
    rewrite filter_app, Hfs. reflexivity.
Qed.

Lemma runAllTests_loop_names (configs : list TestConfiguration) :
  forall results h,
    exists rs ev,
      for_of configs (runAllTestsStep host ctx) results h
      = (Ok tt, results ++ rs, ev)
      /\ List.length rs = List.length configs + List.length (filter fs_failed ev)
      /\ (forall n, In n (map configName rs) <-> In n (map name configs))
      /\ (filter fs_failed ev = [] -> map configName rs = map name configs).
Proof.
  induction configs as [|c rest IH]; simpl; intros results h.
  - exists [], []. rewrite app_nil_r. repeat split; tauto.
  - destruct (runAllTestsStep_names c results h) as (rs1 & ev1 & E1 & N1).
    unfold bind. rewrite E1.
    destruct (IH (results ++ rs1) (h ++ ev1)) as (rs2 & ev2 & E2 & Len & Mem & Ord).
    rewrite E2. exists (rs1 ++ rs2), (ev1 ++ ev2).
    rewrite app_assoc. split; [reflexivity|].
    rewrite filter_app, !length_app, map_app, N1.
    assert (L1 : List.length rs1 = 1 + List.length (filter fs_failed ev1)).
    { rewrite <- (length_map configName), N1. apply repeat_length. }
    split; [lia|]. split.
    + intros n. rewrite in_app_iff, Mem. split.
      * intros [Hn|Hn]; [left|now right]. apply repeat_spec in Hn. now symmetry.
      * intros [Hn|Hn]; [left|now right]. subst n. simpl. now left.
    + intros Hnil. apply app_eq_nil in Hnil. destruct Hnil as [H1 H2].
      rewrite H1. simpl. f_equal. now apply Ord.
Qed.
End BatchNames.

(** X18. The batch never throws.  Its results carry exactly the names of the
    configurations; there is one result for each configuration, plus one
    more (the synthetic failed result, next to the result of the run) for
    each failed attempt to save a result.  When no save fails, the results
    are those of the configurations, in their order. *)
Theorem runAllTests_results (host : Host) (ctx : RunContext) (L : Type)
    (l : L) (h : list Event) :
  exists out ev,
    runAllTests host ctx l h = (Ok out, l, ev)
    /\ List.length out
       = List.length (configurations (inputs ctx))
         + List.length (filter fs_failed ev)
    /\ (forall n, In n (map configName out)
                  <-> In n (map name (configurations (inputs ctx))))
    /\ (existsb fs_failed ev = false ->
        map configName out = map name (configurations (inputs ctx))).
Proof.
  destruct (runAllTests_loop_names host ctx (configurations (inputs ctx)) [] h)
    as (rs & ev & E & Len & Mem & Ord).
  exists rs, ev. unfold runAllTests, scope, bind. rewrite E. cbn.
  rewrite app_nil_r. split; [reflexivity|]. split; [exact Len|].
  split; [exact Mem|]. intros Hn. apply Ord. now apply filter_nil_existsb.
Qed.

(** On a file system that cannot be written, the only configuration of the
    sample gets two results: that of its run, and the synthetic failed
    one. *)
Example scenario_read_only_file_system :
  map (fun r => (configName r, hasDifferences r, Map_keys (diffs r)))
    (match fst (fst (runAllTests readOnlyHost sampleCtx tt [])) with
     | Ok out => out
     | Throw _ => []
     end)
  = [("default", false, []); ("default", true, ["error"])].
Proof. vm_compute. reflexivity. Qed.

End BatchProperties.

(* ================================================================== *)
(** ** More on compare-ref resolution *)
(* ================================================================== *)

Module GitProperties.
Import Js Eff Git GitSpec Samples MoreSamples GitTheorems EventSpec BuiltinFacts.

(** The first occurrence of a member of an array splits the array. *)
Lemma Array_indexOf_Some (xs : list string) (x : string) : forall i,
  Array_indexOf xs x = Some i <->
  exists pre post, xs = pre ++ x :: post /\ List.length pre = i /\ ~ In x pre.
Proof.
  induction xs as [|y xs IH]; intros i; simpl.
  - split; [discriminate|]. intros (pre & post & H & _). now destruct pre.
  - destruct (String.eqb y x) eqn:E.
    + apply String.eqb_eq in E. subst y. split.
      * intros [= <-]. exists [], xs. repeat split. intros [].
      * intros (pre & post & H & Hl & Hn). destruct pre as [|p pre].
        -- now subst i.
        -- injection H as <- _. exfalso. apply Hn. now left.
    + apply String.eqb_neq in E. split.
      * destruct (Array_indexOf xs x) as [j|] eqn:A; [|discriminate].
        intros [= <-]. destruct (proj1 (IH j) eq_refl) as (pre & post & H & Hl & Hn).
        exists (y :: pre), post. subst xs. simpl. repeat split; [now rewrite Hl|].
        intros [Hy|Hp]; [now apply E|now apply Hn].
      * intros (pre & post & H & Hl & Hn). destruct pre as [|p pre].
        -- injection H as -> _. now contradiction E.
        -- injection H as <- H. simpl in Hl. subst i.
           rewrite (proj2 (IH (List.length pre))); [reflexivity|].
           exists pre, post. repeat split; [exact H|].
           intros Hp. apply Hn. now right.
Qed.

#[local] Arguments tpl : simpl never.
#[local] Arguments trim : simpl never.
#[local] Arguments split_lines : simpl never.
#[local] Arguments replace_first : simpl never.
#[local] Arguments Array_indexOf : simpl never.
#[local] Arguments Nat.ltb : simpl never.


(** X19. The git helpers that catch their errors never throw, whatever git
    answers: the current branch is never the empty string, the merge-base
    falls back to the ref itself, worktree creation reports a failure as
    [false], and the two release actions return normally. *)
Theorem git_helpers_never_throw (host : Host) (L : Type) (l : L)
    (h : list Event) (ref path tag : string) :
  (exists s ev, getCurrentBranch host l h = (Ok s, l, ev) /\ truthy s = true)
  /\ (exists t ev, findPreviousTag host tag l h = (Ok t, l, ev))
  /\ (exists ev,
        getMergeBase host ref l h
        = (Ok (match exec_out host h (GitMergeBase ref) with
               | Ok output => trim output
               | Throw _ => ref
               end), l, ev))
  /\ (exists ev,
        createWorktree host ref path l h
        = (Ok (succeeded (exec_out host h (GitWorktreeAdd path ref))), l, ev))
  /\ (exists ev, removeWorktree host path l h = (Ok tt, l, ev))
  /\ (exists ev, checkoutPrevious host l h = (Ok tt, l, ev)).
Proof.
  unfold getCurrentBranch, findPreviousTag, getMergeBase, createWorktree,
    removeWorktree, checkoutPrevious, try_catch, bind, ret, exec. cbn.
  repeat split.
  - destruct (exec_out host h GitCurrentBranch) as [out|e]; cbn.
    + eexists _, _. split; [reflexivity|]. unfold or_else.
      now destruct (truthy (trim out)) eqn:T.
    + eexists _, _. split; reflexivity.
  - repeat (run_git; cbn); eexists _, _; reflexivity.
  - destruct (exec_out host h (GitMergeBase ref)); cbn; eexists; reflexivity.
  - destruct (exec_out host h (GitWorktreeAdd path ref)); cbn; eexists; reflexivity.
  - destruct (exec_out host h (GitWorktreeRemove path)); cbn; eexists; reflexivity.
  - destruct (exec_out host h GitCheckoutPrevious); cbn; eexists; reflexivity.
Qed.

(** The previous tag is the line after the first occurrence of the current
    tag in the tag list. *)
Lemma findPreviousTag_core (host : Host) (L : Type) (currentTag : string)
    (l : L) (h : list Event) (t : string) :
  fst (fst (findPreviousTag host currentTag l h)) = Ok (Some t)
  <-> exists output pre post,
        exec_out host h GitTagList = Ok output
        /\ split_lines (trim output) = pre ++ currentTag :: t :: post
        /\ ~ In currentTag pre.
Proof.
  unfold findPreviousTag, try_catch, bind, ret, exec. cbn.
  destruct (exec_out host h GitTagList) as [out|e]; cbn.
  2:{ split; [discriminate|]. intros (o & _ & _ & H & _). discriminate H. }
  set (tags := split_lines (trim out)).
  destruct (Array_indexOf tags currentTag) as [i|] eqn:A; cbn.
  - destruct (proj1 (Array_indexOf_Some _ _ _) A) as (pre & post & Ht & Hl & Hn).
    assert (Hnth : nth_error tags (i + 1) = nth_error post 0).
    { rewrite Ht, nth_error_app2 by lia.
      replace (i + 1 - List.length pre) with 1 by lia. reflexivity. }
    destruct (Nat.ltb i (List.length tags - 1)) eqn:Lt; cbn.
    + rewrite Hnth. split.
      * intros [= Hp]. destruct post as [|t' post]; [discriminate|].
        injection Hp as ->. exists out, pre, post. repeat split; assumption.
      * intros (o & pre' & post' & [= <-] & Ht' & Hn').
        fold tags in Ht'.
        assert (Hi : Array_indexOf tags currentTag = Some (List.length pre')).
        { apply Array_indexOf_Some. eauto. }
        rewrite A in Hi. injection Hi as Hi.
        rewrite Ht in Ht'.
        apply app_same_length in Ht'; [|congruence].
        destruct Ht' as [_ Ht']. now injection Ht' as ->.
    + split; [discriminate|].
      intros (o & pre' & post' & [= <-] & Ht' & Hn'). fold tags in Ht'.
      apply Nat.ltb_ge in Lt.
      assert (Hi : Array_indexOf tags currentTag = Some (List.length pre')).
      { apply Array_indexOf_Some. eauto. }
      rewrite A in Hi. injection Hi as Hi.
      rewrite Ht' in Lt. rewrite length_app in Lt. simpl in Lt. lia.
  - split; [discriminate|].
    intros (o & pre' & post' & [= <-] & Ht' & Hn'). fold tags in Ht'.
    assert (Hi : Array_indexOf tags currentTag = Some (List.length pre')).
    { apply Array_indexOf_Some. eauto. }
    congruence.
Qed.

(** X20. The previous tag of [currentTag] is the line that follows the first
    line equal to [currentTag] in the output of the tag list, and there is
    one exactly when the tag list succeeds and has such a line with a line
    after it. *)
Theorem findPreviousTag_next_line (host : Host) (L : Type) (currentTag : string)
    (l : L) (h : list Event) (t : string) :
  fst (fst (findPreviousTag host currentTag l h)) = Ok (Some t)
  <-> exists output pre post,
        exec_out host h GitTagList = Ok output
        /\ split_lines (trim output) = pre ++ currentTag :: t :: post
        /\ ~ In currentTag pre.
Proof. apply findPreviousTag_core. Qed.

(** X21. Compare-ref resolution throws only when the lookup of the first
    commit fails: the failed command is the last thing it did, its error is
    the one thrown, and no explicit ref was given. *)
Theorem determineCompareRef_throws (host : Host) (L : Type)
    (explicitRef githubRef : option string) (l l' : L) (h ev : list Event)
    (e : Err) :
  determineCompareRef host explicitRef githubRef l h = (Throw e, l', ev) ->
  last ev (ELog Info "") = EExec GitRootCommits (Throw e)
  /\ truthy_opt explicitRef = false.
Proof.
  unfold determineCompareRef, findPreviousTag, getFirstCommit, findMainBranch,
    getMergeBase, try_catch, bind, ret, exec, log. cbn.
  destruct (truthy_opt explicitRef) eqn:T; cbn; [discriminate|].
  repeat (run_git; cbn); intros E; try discriminate E;
    injection E as <- <- <-; split; reflexivity.
Qed.

Lemma determineCompareRef_throws_witness :
  exists ev,
    determineCompareRef brokenHost None None tt []
    = (Throw "Error: spawn git ENOENT", tt, ev)
    /\ last ev (ELog Info "")
       = EExec GitRootCommits (Throw "Error: spawn git ENOENT").
Proof.
  destruct (determineCompareRef brokenHost None None tt []) as [[o l'] ev] eqn:E.
  pose proof E as E'. vm_compute in E'. injection E' as <- <- <-.
  eexists. split; [reflexivity|].
  exact (proj1 (determineCompareRef_throws _ _ _ _ _ _ _ _ _ E)).
Defined.

(** X22. Without an explicit ref and outside a tag push, when [origin/main]
    can be verified the compare ref is the trimmed output of the merge-base
    of [HEAD] with [origin/main], and [origin/main] itself when the
    merge-base command fails. *)
Theorem determineCompareRef_origin_main (host : Host) (L : Type)
    (explicitRef githubRef : option string) (l : L) (h : list Event)
    (verified : string) :
  truthy_opt explicitRef = false ->
  match githubRef with Some r => startsWith r "refs/tags/" | None => false end
  = false ->
  exec_out host h (GitVerify "origin/main") = Ok verified ->
  fst (fst (determineCompareRef host explicitRef githubRef l h))
  = Ok (match exec_out host
                (h ++ [EExec (GitVerify "origin/main") (Ok verified)])
                (GitMergeBase "origin/main") with
        | Ok output => trim output
        | Throw _ => "origin/main"
        end).
Proof.
  intros He Hg Hv.
  unfold determineCompareRef, findMainBranch, getMergeBase, try_catch, bind,
    ret, exec, log. rewrite He, Hg. cbn. rewrite Hv. cbn.
  now destruct (exec_out host _ (GitMergeBase "origin/main")).
Qed.

Lemma determineCompareRef_origin_main_witness :
  fst (fst (determineCompareRef (sampleHost false true None) None
              (Some "refs/heads/feature") tt []))
  = Ok "abc123".
Proof.
  exact (determineCompareRef_origin_main (sampleHost false true None) unit
           None (Some "refs/heads/feature") tt [] "" eq_refl eq_refl eq_refl).
Defined.

Lemma replace_first_prefix (tag : string) :
  replace_first ("refs/tags/" ++ tag) "refs/tags/" "" = tag.
Proof.
  unfold replace_first. cbn. rewrite prefix_empty. unfold tpl, substring_from.
  cbn. rewrite Nat.sub_0_r, substring_all.
  reflexivity.
Qed.

(** X23. On the push of a tag, without an explicit ref, when the tag list has
    a line equal to the tag and the line after its first occurrence is
    another, non-empty tag, that line is the compare ref. *)
Theorem determineCompareRef_tag_push (host : Host) (L : Type)
    (explicitRef : option string) (tag previous output : string)
    (pre post : list string) (l : L) (h : list Event) :
  truthy_opt explicitRef = false ->
  exec_out host (h ++ [ELog Info (tpl ["Detected tag push: "; tag])]) GitTagList
  = Ok output ->
  split_lines (trim output) = pre ++ tag :: previous :: post ->
  ~ In tag pre ->
  truthy previous = true ->
  previous <> tag ->
  fst (fst (determineCompareRef host explicitRef
              (Some ("refs/tags/" ++ tag)%string) l h))
  = Ok previous.
Proof.
  intros He Ho Hs Hn Hp Hd.
  pose proof (proj2 (findPreviousTag_core host L tag l
                       (h ++ [ELog Info (tpl ["Detected tag push: "; tag])])
                       previous)) as Hf.
  unfold determineCompareRef. rewrite He.
  change (startsWith ("refs/tags/" ++ tag) "refs/tags/")
    with (String.prefix "" tag).
  rewrite prefix_empty, replace_first_prefix.
  unfold bind at 1. unfold log at 1. cbn [app].
  unfold bind at 1.
  destruct (findPreviousTag host tag l _) as [[o l1] ev1] eqn:F.
  cbn in Hf. rewrite (Hf (ex_intro _ output (ex_intro _ pre (ex_intro _ post
                        (conj Ho (conj Hs Hn)))))).
  cbn. rewrite Hp. cbn.
  apply String.eqb_neq in Hd. rewrite Hd. cbn. reflexivity.
Qed.

Lemma determineCompareRef_tag_push_witness :
  fst (fst (determineCompareRef (sampleHost false true None) None
              (Some "refs/tags/v2.0.0") tt []))
  = Ok "v1.0.0".
Proof.
  apply (determineCompareRef_tag_push (sampleHost false true None) unit None
           "v2.0.0" "v1.0.0" (tpl ["v2.0.0"; nl; "v1.0.0"; nl]) [] [] tt []).
  - reflexivity.
  - reflexivity.
  - reflexivity.
  - intros [].
  - reflexivity.
  - discriminate.
Defined.

End GitProperties.

(* ================================================================== *)
(** ** The parsers of the action inputs *)
(* ================================================================== *)

Module ParseProperties.
Import Js Eff Parse Runner DiffFacts ParseSpec MoreSamples.

Lemma prop_Map_get (fields : list (string * JValue)) (key : string) :
  prop fields key = Map_get fields key.
Proof.
  induction fields as [|[k v] rest IH]; simpl; [reflexivity|]. now rewrite IH.
Qed.

Lemma get_set_same fields key v : get (JObj (Map_set fields key v)) key = v.
Proof. simpl. now rewrite prop_Map_get, Map_get_set_same. Qed.

Lemma get_set_other fields key key' v :
  key <> key' -> get (JObj (Map_set fields key v)) key' = get (JObj fields) key'.
Proof. intros H. simpl. now rewrite !prop_Map_get, Map_get_set_other. Qed.

Lemma Array_map_Forall {A B} (f : A -> Outcome B) (P : B -> Prop) :
  (forall x y, f x = Ok y -> P y) ->
  forall xs ys, Array_map f xs = Ok ys ->
                Forall P ys /\ List.length ys = List.length xs.
Proof.
  intros Hf. induction xs as [|x xs IH]; simpl; intros ys H.
  - injection H as <-. split; [constructor|reflexivity].
  - destruct (f x) as [y|e] eqn:E; [|discriminate].
    destruct (Array_map f xs) as [ys'|e]; [|discriminate].
    injection H as <-. destruct (IH _ eq_refl) as [HF HL].
    split; [constructor; eauto|simpl; now rewrite HL].
Qed.

Lemma defaultConfiguration_resolved dt dc du :
  resolved dc du (defaultConfiguration dt dc du).
Proof.
  unfold resolved. destruct dt; cbn; repeat split; intros; try discriminate;
    assumption.
Qed.

Lemma or_value_truthy a b : truthy_value b = true -> truthy_value (or_value a b) = true.
Proof. unfold or_value. now destruct (truthy_value a) eqn:E. Qed.

Lemma applyDefaults_resolved TypeError_null dt dc du config c :
  applyDefaults TypeError_null dt dc du config = Ok c -> resolved dc du c.
Proof.
  unfold applyDefaults. destruct (nullish config); [discriminate|].
  intros [= <-]. unfold resolved.
  set (t := or_value (get config "transport") (JStr (Transport_name dt))).
  assert (Ht : truthy_value t = true).
  { apply or_value_truthy. now destruct dt. }
  rewrite !(get_set_other _ "server_url") by discriminate.
  rewrite !(get_set_other _ "start_command" "transport") by discriminate.
  rewrite !get_set_same.
  split; [exact Ht|]. split.
  - intros -> Hc. cbn. now apply or_value_truthy.
  - intros -> Hu. cbn. now apply or_value_truthy.
Qed.

Section ParseTheorems.
Variable JSON_parse : string -> Outcome JValue.
Variable TypeError_null : string -> Err.

(** X24. Parsing the configurations never throws and never gives an empty
    list.  Whenever it logs a warning (the text is not JSON, is not a
    non-empty array, or has a [null] member), the result is the single
    default configuration; otherwise it logs nothing and, for a text that is
    parsed, gives one configuration for each member of the array. *)
Theorem parseConfigurations_total (L : Type) (input : option string)
    (defaultTransport : Transport) (defaultCommand defaultUrl : string)
    (l : L) (h : list Event) :
  exists configs ev,
    parseConfigurations JSON_parse TypeError_null input defaultTransport
      defaultCommand defaultUrl l h = (Ok configs, l, ev)
    /\ configs <> []
    /\ ((exists e,
           ev = [ELog Warning (tpl ["Failed to parse configurations: "; e])]
           /\ configs
              = [defaultConfiguration defaultTransport defaultCommand defaultUrl])
        \/ (ev = []
            /\ (configs
                = [defaultConfiguration defaultTransport defaultCommand defaultUrl]
                \/ exists items,
                     JSON_parse (match input with Some s => s | None => "" end)
                     = Ok (JArr items)
                     /\ List.length configs = List.length items))).
Proof.
  unfold parseConfigurations.
  destruct (negb (truthy_opt input) || _ || _) eqn:Q.
  - eexists _, _. split; [reflexivity|]. split; [discriminate|].
    right. split; [reflexivity|]. now left.
  - unfold try_catch, bind, of_outcome, throw, log, ret.
    destruct (JSON_parse _) as [configs|e] eqn:P.
    2:{ eexists _, _. split; [reflexivity|]. split; [discriminate|].
        left. eexists. split; reflexivity. }
    destruct (negb (isArray configs) || _) eqn:A.
    { eexists _, _. split; [reflexivity|]. split; [discriminate|].
      left. eexists. split; reflexivity. }
    destruct configs as [| | | | |items|]; try discriminate A.
    destruct items as [|i items]; [discriminate A|]. cbn [elements].
    destruct (Array_map _ (i :: items)) as [cs|e] eqn:M.
    + destruct (Array_map_Forall _ (fun _ => True) (fun _ _ _ => I) _ _ M)
        as [_ Hl].
      eexists _, _. split; [reflexivity|]. split.
      * intros ->. discriminate Hl.
      * right. split; [reflexivity|]. right. exists (i :: items).
        split; [reflexivity|exact Hl].
    + eexists _, _. split; [reflexivity|]. split; [discriminate|].
      left. eexists. split; reflexivity.
Qed.

(** X25. Every configuration that parsing returns has a transport; one whose
    transport is stdio has a start command when the default command is not
    empty, and one whose transport is streamable-http has a server URL when
    the default URL is not empty. *)
Theorem parseConfigurations_defaults (L : Type) (input : option string)
    (defaultTransport : Transport) (defaultCommand defaultUrl : string)
    (l : L) (h : list Event) :
  exists configs ev,
    parseConfigurations JSON_parse TypeError_null input defaultTransport
      defaultCommand defaultUrl l h = (Ok configs, l, ev)
    /\ Forall
         (fun c =>
            truthy_value (get c "transport") = true
            /\ (get c "transport" = JStr "stdio" ->
                truthy defaultCommand = true ->
                truthy_value (get c "start_command") = true)
            /\ (get c "transport" = JStr "streamable-http" ->
                truthy defaultUrl = true ->
                truthy_value (get c "server_url") = true))
         configs.
Proof.
  pose proof (defaultConfiguration_resolved defaultTransport defaultCommand
                defaultUrl) as Hd.
  unfold parseConfigurations.
  destruct (negb (truthy_opt input) || _ || _) eqn:Q.
  - eexists _, _. split; [reflexivity|]. constructor; [exact Hd|constructor].
  - unfold try_catch, bind, of_outcome, throw, log, ret.
    destruct (JSON_parse _) as [configs|e] eqn:P.
    2:{ eexists _, _. split; [reflexivity|]. constructor; [exact Hd|constructor]. }
    destruct (negb (isArray configs) || _) eqn:A.
    { eexists _, _. split; [reflexivity|]. constructor; [exact Hd|constructor]. }
    destruct (Array_map _ (elements configs)) as [cs|e] eqn:M.
    + eexists _, _. split; [reflexivity|].
      apply (Array_map_Forall _ (resolved defaultCommand defaultUrl)
               (applyDefaults_resolved _ _ _ _) _ _ M).
    + eexists _, _. split; [reflexivity|]. constructor; [exact Hd|constructor].
Qed.
End ParseTheorems.

(** A list with a [null] member falls back to the default configuration,
    with a warning. *)
Example scenario_null_configuration :
  parseConfigurations sampleJSON sampleTypeError (Some "[{}, null]") Stdio
    "node server.js" "http://localhost:3000/mcp" tt []
  = (Ok [defaultConfiguration Stdio "node server.js" "http://localhost:3000/mcp"],
     tt,
     [ELog Warning
        "Failed to parse configurations: TypeError: Cannot read properties of null (reading 'transport')"]).
Proof. reflexivity. Qed.

(** *** [parseHeaders] *)

Lemma trimStart_starts s :
  match trimStart s with String c _ => is_ws c = false | EmptyString => True end.
Proof.
  induction s as [|c s IH]; simpl; [exact I|].
  destruct (is_ws c) eqn:E; [exact IH|exact E].
Qed.

Lemma trimEnd_head c r : is_ws c = false -> trimEnd (String c r) = String c (trimEnd r).
Proof. intros H. simpl. now rewrite H. Qed.

Lemma trimEnd_idem s : trimEnd (trimEnd s) = trimEnd s.
Proof.
  induction s as [|c s IH]; simpl; [reflexivity|].
  destruct (is_ws c && negb (truthy (trimEnd s))) eqn:E; [reflexivity|].
  simpl. now rewrite IH, E.
Qed.

(** A trimmed text is empty or starts with a character that is not white
    space. *)
Lemma trim_starts s :
  match trim s with String c _ => is_ws c = false | EmptyString => True end.
Proof.
  unfold trim. pose proof (trimStart_starts s) as H.
  destruct (trimStart s) as [|c r]; [exact I|].
  now rewrite (trimEnd_head c r H).
Qed.

Lemma trim_idem s : trim (trim s) = trim s.
Proof.
  pose proof (trim_starts s) as H. unfold trim in *.
  destruct (trimStart s) as [|c r] eqn:E; [reflexivity|].
  pose proof (trimStart_starts s) as Hc. rewrite E in Hc.
  rewrite (trimEnd_head c r Hc). simpl trimStart. rewrite Hc.
  rewrite <- (trimEnd_head c r Hc). apply trimEnd_idem.
Qed.

Lemma Forall_Map_set {V} (P : string * V -> Prop) (m : JsMap V) k v :
  Forall P m -> P (k, v) -> Forall P (Map_set m k v).
Proof.
  intros Hm Hk. induction m as [|[k0 v0] m IH]; simpl; [now constructor|].
  inversion Hm as [|? ? H0 Hr]; subst.
  destruct (String.eqb k0 k) eqn:E.
  - apply String.eqb_eq in E. subst k0. now constructor.
  - constructor; [exact H0|now apply IH].
Qed.

Lemma parseHeadersStep_ok headers line :
  Forall header_ok headers -> Forall header_ok (parseHeadersStep headers line).
Proof.
  intros H. unfold parseHeadersStep.
  pose proof (trim_starts line) as Hs.
  destruct (negb (truthy (trim line)) || startsWith (trim line) "#") eqn:Q;
    [exact H|].
  apply orb_false_elim in Q. destruct Q as [Q _].
  set (sep := match indexOf_char ":" (trim line) with
              | Some (S _) => indexOf_char ":" (trim line)
              | _ => indexOf_char "=" (trim line)
              end).
  destruct sep as [[|n]|]; try exact H.
  unfold assign. destruct (String.eqb _ "__proto__"); [exact H|].
  apply Forall_Map_set; [exact H|].
  unfold header_ok. cbn [fst snd]. split; [|split].
  - destruct (trim line) as [|c r]; [discriminate Q|].
    cbn [substring]. unfold trim at 1. simpl trimStart. rewrite Hs.
    rewrite (trimEnd_head _ _ Hs). discriminate.
  - apply trim_idem.
  - eexists. split; [reflexivity|apply trim_idem].
Qed.

Lemma parseHeaders_fold_ok lines : forall headers,
  Forall header_ok headers ->
  Forall header_ok (fold_left parseHeadersStep lines headers).
Proof.
  induction lines as [|line lines IH]; simpl; intros headers H; [exact H|].
  apply IH, parseHeadersStep_ok, H.
Qed.

(** X26. When the text of the headers does not parse as a JSON object, the
    headers are read from its lines: the result is an object in which every
    name is non-empty and has no white space around it, and every value is a
    string without white space around it. *)
Theorem parseHeaders_lines (JSON_parse : string -> Outcome JValue)
    (input : string) :
  parses_object (JSON_parse input) = false ->
  exists headers,
    parseHeaders JSON_parse (Some input) = JObj headers
    /\ Forall header_ok headers.
Proof.
  intros Hp. unfold parseHeaders. cbn [truthy_opt].
  destruct (negb (truthy input) || _ || _).
  - exists []. split; [reflexivity|constructor].
  - destruct (JSON_parse input) as [parsed|e].
    + destruct parsed; try discriminate Hp; cbn;
        (eexists; split; [reflexivity|apply parseHeaders_fold_ok; constructor]).
    + eexists. split; [reflexivity|apply parseHeaders_fold_ok; constructor].
Qed.

Lemma parseHeaders_lines_witness :
  parseHeaders sampleJSON (Some "  Authorization  :   Bearer token  ")
  = JObj [("Authorization", JStr "Bearer token")]
  /\ exists headers,
       parseHeaders sampleJSON (Some "  Authorization  :   Bearer token  ")
       = JObj headers
       /\ Forall header_ok headers.
Proof.
  split; [reflexivity|].
  apply (parseHeaders_lines sampleJSON "  Authorization  :   Bearer token  ").
  reflexivity.
Defined.

(** Lines with [:] and with [=], a comment and a value with colons. *)
Example scenario_header_lines :
  parseHeaders sampleJSON
    (Some (tpl ["# headers"; nl; "X-Timestamp: 2024:01:15"; nl; nl;
                "X-Custom=value"; nl; "=ignored"]))
  = JObj [("X-Timestamp", JStr "2024:01:15"); ("X-Custom", JStr "value")].
Proof. reflexivity. Qed.

End ParseProperties.

(* ================================================================== *)
(** ** The report *)
(* ================================================================== *)

Module ReportProperties.
Import Js Eff Runner Reporter.

Lemma filter_partition_length {A} (f : A -> bool) (l : list A) :
  List.length (filter (fun x => negb (f x)) l) + List.length (filter f l)
  = List.length l.
Proof.
  induction l as [|a l IH]; simpl; [reflexivity|].
  destruct (f a); simpl; lia.
Qed.

Lemma filter_none_forallb {A} (f : A -> bool) (l : list A) :
  Nat.eqb (List.length (filter f l)) 0 = forallb (fun x => negb (f x)) l.
Proof.
  induction l as [|a l IH]; simpl; [reflexivity|].
  destruct (f a); simpl; [reflexivity|exact IH].
Qed.

(** X27. In a generated report every result is counted once, as passed or as
    having differences, and no result is counted as having differences
    exactly when none has. *)
Theorem generateReport_counts (isoNow : string) (results : list TestResult)
    (currentBranch compareRef : string) :
  passedCount (generateReport isoNow results currentBranch compareRef)
  + diffCount (generateReport isoNow results currentBranch compareRef)
  = List.length results
  /\ (diffCount (generateReport isoNow results currentBranch compareRef) = 0
      <-> forallb (fun r => negb (hasDifferences r)) results = true).
Proof.
  cbn. split; [apply filter_partition_length|].
  rewrite <- filter_none_forallb. now rewrite Nat.eqb_eq.
Qed.

#[local] Arguments tpl : simpl never.
#[local] Arguments String_of_index : simpl never.

(** X28. The pull request summary of a generated report announces that all
    tests passed exactly when no result has differences. *)
Theorem generatePRSummary_passed (isoNow : string) (results : list TestResult)
    (currentBranch compareRef : string) :
  startsWith
    (generatePRSummary (generateReport isoNow results currentBranch compareRef))
    "## ✅ MCP Conformance: All Tests Passed"
  = forallb (fun r => negb (hasDifferences r)) results.
Proof.
  unfold generatePRSummary, generateReport. cbn [diffCount Reporter.results].
  rewrite <- filter_none_forallb.
  destruct (Nat.eqb _ 0); reflexivity.
Qed.

End ReportProperties.
